(** * AI_Stat: commit-log parsing and statistics aggregation

    A shallow embedding of the two variants of the statistics tool,
    [src/repo/main.go] (per-author buckets keyed by e-mail) and
    [src/unnamed/part_000] (one global bucket), together with models of the
    Go library functions they call.

    Conventions.
    - A Go [string] is a sequence of bytes: [String.string], whose characters
      are the 256 values of [ascii].
    - A Go [int] is the 64-bit signed integer of the usual targets: a [Z]
      with the wrap-around written out ([wrap64]).
    - A Go [float64] is an IEEE 754 binary64 value: [spec_float] at
      precision 53 and maximal exponent 1024, computed with the Standard
      Library's reference operations ([SFmul], [SFltb], ...).
    - A Go [map[string]T] is a [gmap string T].
    - The trace that [processCommit] and [printStatistics] write to standard
      output is not part of the model; [time.Now] is an argument.
    - A [time.Time] at midnight in a location whose offset never changes is
      its date ([civil]); the times of an arbitrary [time.Location] are in
      the module [Zoned]. *)

From Stdlib Require Import ZArith Lia Bool List Ascii String SpecFloat DecimalString
  Permutation.
From stdpp Require Import gmap strings.

Local Open Scope string_scope.
Local Open Scope Z_scope.

(* ===================================================================== *)
(** * Package strings *)
(* ===================================================================== *)

Definition nonEmpty (s : string) : bool :=
  match s with EmptyString => false | String _ _ => true end.

(** Puts the byte [a] in front of the first piece of a list of pieces. *)
Definition consHead (a : ascii) (ps : list string) : list string :=
  match ps with
  | [] => [String a ""]
  | p :: ps' => String a p :: ps'
  end.

(** [strings.Split(s, sep)] for a separator of one byte: the pieces between
    the separators, empty ones included; never the empty list. *)
Fixpoint strings_Split (sep : ascii) (s : string) : list string :=
  match s with
  | EmptyString => [""]
  | String a s' =>
      if Ascii.eqb a sep then "" :: strings_Split sep s'
      else consHead a (strings_Split sep s')
  end.

(** [strings.Cut(s, sep)] for a separator of one byte: the text before and
    after its first occurrence. *)
Fixpoint strings_Cut (sep : ascii) (s : string) : option (string * string) :=
  match s with
  | EmptyString => None
  | String a s' =>
      if Ascii.eqb a sep then Some ("", s')
      else match strings_Cut sep s' with
           | Some (b, r) => Some (String a b, r)
           | None => None
           end
  end.

(** [strings.SplitN(s, sep, n)] for a separator of one byte and [n >= 0]:
    at most [n] pieces, the last one the unsplit remainder. *)
Fixpoint strings_SplitN (sep : ascii) (n : nat) (s : string) : list string :=
  match n with
  | O => []
  | S O => [s]
  | S n' =>
      match strings_Cut sep s with
      | Some (b, r) => b :: strings_SplitN sep n' r
      | None => [s]
      end
  end.

(** [strings.Join(elems, sep)]. *)
Fixpoint strings_Join (elems : list string) (sep : string) : string :=
  match elems with
  | [] => ""
  | [e] => e
  | e :: rest => e ++ sep ++ strings_Join rest sep
  end.

(** [strings.Trim(s, cutset)] for a cutset of one byte. *)
Fixpoint trimLeft (c : ascii) (s : string) : string :=
  match s with
  | String a s' => if Ascii.eqb a c then trimLeft c s' else s
  | EmptyString => ""
  end.

Fixpoint trimRight (c : ascii) (s : string) : string :=
  match s with
  | EmptyString => ""
  | String a s' =>
      match trimRight c s' with
      | EmptyString => if Ascii.eqb a c then "" else String a ""
      | t => String a t
      end
  end.

Definition strings_Trim (s : string) (c : ascii) : string :=
  trimRight c (trimLeft c s).

(** ** strings.Fields

    [strings.Fields] splits around runs of white space as [unicode.IsSpace]
    defines it.  The string is UTF-8; the white space code points and their
    encodings are
    - U+0009..U+000D and U+0020: one byte;
    - U+0085 (C2 85) and U+00A0 (C2 A0);
    - U+1680 (E1 9A 80), U+2000..U+200A (E2 80 80 .. E2 80 8A),
      U+2028, U+2029 (E2 80 A8, E2 80 A9), U+202F (E2 80 AF),
      U+205F (E2 81 9F) and U+3000 (E3 80 80).
    The first byte of each encoding is never a continuation byte, and the
    decoder steps over one byte when a sequence is invalid, so an encoding is
    decoded as white space wherever its bytes occur. *)

Definition byteOf (a : ascii) : N := N_of_ascii a.

Definition isAsciiSpace (a : ascii) : bool :=
  let n := byteOf a in
  ((9 <=? n)%N && (n <=? 13)%N) || (n =? 32)%N.

(** Width in bytes of the white space rune that starts the string, [0] when
    there is none. *)
Definition spaceWidth (s : string) : nat :=
  match s with
  | EmptyString => 0%nat
  | String a s1 =>
      if isAsciiSpace a then 1%nat
      else
        match s1 with
        | EmptyString => 0%nat
        | String b s2 =>
            let x := byteOf a in
            let y := byteOf b in
            if (x =? 194)%N then
              if (y =? 133)%N || (y =? 160)%N then 2%nat else 0%nat
            else
              match s2 with
              | EmptyString => 0%nat
              | String c _ =>
                  let z := byteOf c in
                  if (x =? 225)%N then
                    if (y =? 154)%N && (z =? 128)%N then 3%nat else 0%nat
                  else if (x =? 226)%N then
                    if (y =? 128)%N
                       && (((128 <=? z)%N && (z <=? 138)%N)
                           || (z =? 168)%N || (z =? 169)%N || (z =? 175)%N)
                    then 3%nat
                    else if (y =? 129)%N && (z =? 159)%N then 3%nat else 0%nat
                  else if (x =? 227)%N then
                    if (y =? 128)%N && (z =? 128)%N then 3%nat else 0%nat
                  else 0%nat
              end
        end
  end.

(** The pieces between white space bytes, empty ones included; [skip] counts
    the bytes of a white space rune that are still to be dropped. *)
Fixpoint fieldPieces (skip : nat) (s : string) : list string :=
  match s with
  | EmptyString => [""]
  | String a s' =>
      match skip with
      | S k => "" :: fieldPieces k s'
      | O =>
          match spaceWidth s with
          | O => consHead a (fieldPieces O s')
          | S k => "" :: fieldPieces k s'
          end
      end
  end.

Definition strings_Fields (s : string) : list string :=
  List.filter nonEmpty (fieldPieces O s).

(* ===================================================================== *)
(** * Machine integers *)
(* ===================================================================== *)

Definition minInt64 : Z := - 2 ^ 63.
Definition maxInt64 : Z := 2 ^ 63 - 1.

(** Two's complement wrap-around of a 64-bit signed integer. *)
Definition wrap64 (z : Z) : Z := (z + 2 ^ 63) mod 2 ^ 64 - 2 ^ 63.

(* ===================================================================== *)
(** * Package strconv: Atoi *)
(* ===================================================================== *)

Definition isDigit (a : ascii) : bool :=
  let n := byteOf a in (48 <=? n)%N && (n <=? 57)%N.

Definition digitVal (a : ascii) : Z := Z.of_N (byteOf a) - 48.

(** The value of a string of decimal digits, [None] when a byte is not a
    digit.  The empty string has value [0]; callers exclude it. *)
Fixpoint digitsValue (acc : Z) (s : string) : option Z :=
  match s with
  | EmptyString => Some acc
  | String a s' =>
      if isDigit a then digitsValue (acc * 10 + digitVal a) s' else None
  end.

(** The optional sign in front of a number: whether it is a minus, and the
    rest. *)
Definition splitSign (s : string) : bool * string :=
  match s with
  | String a r =>
      if Ascii.eqb a "-" then (true, r)
      else if Ascii.eqb a "+" then (false, r)
      else (false, s)
  | EmptyString => (false, s)
  end.

(** [strconv.Atoi]: the value and whether an error is returned.  A syntax
    error comes with the value [0], a range error with the nearest bound. *)
Definition strconv_Atoi (s : string) : Z * bool :=
  let '(neg, body) := splitSign s in
  match body with
  | EmptyString => (0, true)
  | _ =>
      match digitsValue 0 body with
      | None => (0, true)
      | Some v =>
          if neg then
            if (v <=? 2 ^ 63)%Z then (Z.opp v, false) else (minInt64, true)
          else
            if (v <=? maxInt64)%Z then (v, false) else (maxInt64, true)
      end
  end.

(* ===================================================================== *)
(** * Package path/filepath: Ext (Unix separator) *)
(* ===================================================================== *)

(** [filepath.Ext]: the suffix that starts at the last dot of the last
    element of the path, empty when that element has no dot.  [extAux s] is
    [Some e] when the scan from the right end of [s] stops inside [s], with
    result [e]. *)
Fixpoint extAux (s : string) : option string :=
  match s with
  | EmptyString => None
  | String a s' =>
      match extAux s' with
      | Some e => Some e
      | None =>
          if Ascii.eqb a "/" then Some ""
          else if Ascii.eqb a "." then Some s
          else None
      end
  end.

Definition filepath_Ext (path : string) : string :=
  match extAux path with Some e => e | None => "" end.


(* ===================================================================== *)
(** * Package regexp *)
(* ===================================================================== *)

(** The patterns of the program repeat single-character classes only, so the
    syntax has no general star.  The text is matched byte by byte: every
    class below either lists ASCII bytes or excludes one ASCII byte, and such
    a class takes the bytes of a multi-byte rune together, so that the spans
    are those of the rune-wise matcher. *)
Inductive regex : Type :=
| RClass (p : ascii -> bool)
| RRep (p : ascii -> bool) (lo : nat) (hi : option nat)
| RSeq (r1 r2 : regex)
| RGroup (i : nat) (r : regex)
| RBol
| REol
| REps.

(** Capture [i] of a match, [None] while the group has not taken part. *)
Definition captures := list (option string).

Fixpoint setCapture (i : nat) (v : string) (cs : captures) : captures :=
  match i, cs with
  | O, _ :: cs' => Some v :: cs'
  | O, [] => [Some v]
  | S i', c :: cs' => c :: setCapture i' v cs'
  | S i', [] => None :: setCapture i' v []
  end.

(** The first [n] bytes of a string. *)
Fixpoint takeBytes (n : nat) (s : string) : string :=
  match n, s with
  | S n', String a s' => String a (takeBytes n' s')
  | _, _ => ""
  end.

(** The text between two positions of one string, each given by what
    remains after it. *)
Definition consumed (from to : string) : string :=
  takeBytes (String.length from - String.length to) from.

Definition hiAllows (hi : option nat) : bool :=
  match hi with Some O => false | _ => true end.

Definition hiPred (hi : option nat) : option nat :=
  match hi with Some n => Some (Nat.pred n) | None => None end.

Section Matcher.
Context {A : Type}.

(** Greedy repetition of a class, between [lo] and [hi] times: the longest
    run is tried first, then shorter ones. *)
Fixpoint matchRep (p : ascii -> bool) (lo : nat) (hi : option nat)
    (s : string) (k : string -> option A) : option A :=
  let stop := match lo with O => k s | S _ => None end in
  match s with
  | String a s' =>
      if p a && hiAllows hi then
        match matchRep p (Nat.pred lo) (hiPred hi) s' k with
        | Some r => Some r
        | None => stop
        end
      else stop
  | EmptyString => stop
  end.
End Matcher.

(** Backtracking match of [r] at the position [s] of the text [txt]; the
    continuation [k] receives the position after the match and the captures.
    The first success in the order of a backtracking matcher is the match
    Go's regexp package reports (leftmost-first). *)
Fixpoint matchAt {A : Type} (r : regex) (txt s : string) (cs : captures)
    (k : string -> captures -> option A) : option A :=
  match r with
  | RClass p =>
      match s with
      | String a s' => if p a then k s' cs else None
      | EmptyString => None
      end
  | RRep p lo hi => matchRep p lo hi s (fun s' => k s' cs)
  | RSeq r1 r2 =>
      matchAt r1 txt s cs (fun s1 cs1 => matchAt r2 txt s1 cs1 k)
  | RGroup i r1 =>
      matchAt r1 txt s cs
        (fun s1 cs1 => k s1 (setCapture i (consumed s s1) cs1))
  | RBol => if (String.length s =? String.length txt)%nat then k s cs else None
  | REol => match s with EmptyString => k s cs | _ => None end
  | REps => k s cs
  end.

(** The match that starts at the position [s]: capture 0 is the whole
    match. *)
Definition matchHere (r : regex) (txt s : string) : option captures :=
  matchAt r txt s [] (fun s1 cs1 => Some (setCapture 0 (consumed s s1) cs1)).

(** The leftmost match: the positions are tried from left to right, the end
    of the text included. *)
Fixpoint searchFrom (r : regex) (txt s : string) : option captures :=
  match matchHere r txt s with
  | Some cs => Some cs
  | None =>
      match s with
      | String _ s' => searchFrom r txt s'
      | EmptyString => None
      end
  end.

Definition captureText (c : option string) : string :=
  match c with Some v => v | None => "" end.

(** The number of capturing groups of a pattern. *)
Fixpoint groupCount (r : regex) : nat :=
  match r with
  | RSeq r1 r2 => Nat.max (groupCount r1) (groupCount r2)
  | RGroup i r1 => Nat.max i (groupCount r1)
  | _ => O
  end.

(** [Regexp.FindStringSubmatch]: the whole match and the text of each
    group, the empty list ([nil]) when nothing matches. *)
Definition FindStringSubmatch (r : regex) (txt : string) : list string :=
  match searchFrom r txt txt with
  | Some cs =>
      List.map (fun i => captureText (List.nth i cs None))
        (List.seq 0 (S (groupCount r)))
  | None => []
  end.

(** [Regexp.MatchString]. *)
Definition MatchString (r : regex) (txt : string) : bool :=
  match searchFrom r txt txt with Some _ => true | None => false end.

(** ** Pattern syntax *)

(** A literal string. *)
Fixpoint RLit (s : string) : regex :=
  match s with
  | EmptyString => REps
  | String a EmptyString => RClass (Ascii.eqb a)
  | String a s' => RSeq (RClass (Ascii.eqb a)) (RLit s')
  end.

Fixpoint RCat (rs : list regex) : regex :=
  match rs with
  | [] => REps
  | [r] => r
  | r :: rs' => RSeq r (RCat rs')
  end.

(** [\s] is [[\t\n\f\r ]] (no vertical tab), [\d] is [[0-9]]. *)
Definition cls_s (a : ascii) : bool :=
  let n := byteOf a in
  (n =? 9)%N || (n =? 10)%N || (n =? 12)%N || (n =? 13)%N || (n =? 32)%N.
Definition cls_d (a : ascii) : bool := isDigit a.
(** [[0-9.]] *)
Definition cls_digit_dot (a : ascii) : bool := isDigit a || Ascii.eqb a ".".
(** [[0-9a-f]] *)
Definition cls_hex (a : ascii) : bool :=
  let n := byteOf a in isDigit a || ((97 <=? n)%N && (n <=? 102)%N).
(** [[^']] *)
Definition cls_not_quote (a : ascii) : bool := negb (Ascii.eqb a "'").
(** [[^ ]] *)
Definition cls_not_space (a : ascii) : bool := negb (Ascii.eqb a " ").
(** [.] (no flag [s]): anything but a line feed. *)
Definition cls_dot (a : ascii) : bool := negb (Ascii.eqb a "010").

Definition RStar (p : ascii -> bool) : regex := RRep p 0 None.
Definition RPlus (p : ascii -> bool) : regex := RRep p 1 None.
Definition RTimes (p : ascii -> bool) (n : nat) : regex := RRep p n (Some n).

(** [\d{4}-\d{2}-\d{2} \d{2}:\d{2}:\d{2}] *)
Definition reTimestamp : regex :=
  RCat [RTimes cls_d 4; RLit "-"; RTimes cls_d 2; RLit "-"; RTimes cls_d 2;
        RLit " ";
        RTimes cls_d 2; RLit ":"; RTimes cls_d 2; RLit ":"; RTimes cls_d 2].

(* ===================================================================== *)
(** * float64 *)
(* ===================================================================== *)

Definition float64 : Type := spec_float.
Definition prec64 : Z := 53.
Definition emax64 : Z := 1024.

Definition f64_zero : float64 := S754_zero false.

(** [x * y] on float64 (round to nearest, ties to even). *)
Definition f64_mul (x y : float64) : float64 := SFmul prec64 emax64 x y.

(** [x < y] on float64 (false when either is a NaN). *)
Definition f64_lt (x y : float64) : bool := SFltb x y.

(** The conversion [float64(n)] of an integer (round to nearest, ties to
    even). *)
Definition float64_of_int (n : Z) : float64 :=
  binary_normalize prec64 emax64 n 0 false.

(** The float64 nearest to the fraction [p / q], for [0 <= p] and [0 < q],
    with the sign [neg].  The quotient is computed to at least 55 bits and a
    sticky bit records whether it is exact, so that the one rounding that
    [binary_normalize] does is the rounding of the fraction itself. *)
Definition float64_of_ratio (neg : bool) (p q : Z) : float64 :=
  if p =? 0 then S754_zero neg
  else
    let k := Z.max 0 (56 + Z.log2 q - Z.log2 p) in
    let n := (p * 2 ^ k) / q in
    let sticky := if (p * 2 ^ k) mod q =? 0 then 0 else 1 in
    let m := 2 * n + sticky in
    binary_normalize prec64 emax64 (if neg then Z.opp m else m) (- k - 1) neg.

(** [math.Round]: the nearest integer, halves away from zero; zeros,
    infinities and NaN are returned as they are. *)
Definition roundHalfAwayAbs (m : positive) (e : Z) : Z :=
  if 0 <=? e then Z.pos m * 2 ^ e
  else (Z.pos m + 2 ^ (- e - 1)) / 2 ^ (- e).

Definition math_Round (x : float64) : float64 :=
  match x with
  | S754_finite s m e =>
      if 0 <=? e then x
      else
        let z := roundHalfAwayAbs m e in
        binary_normalize prec64 emax64 (if s then Z.opp z else z) 0 s
  | _ => x
  end.

(** The conversion [int(x)] of a float64: the fraction is discarded.  When
    the value is not in the range of [int] the language leaves the result to
    the implementation; the model takes the result of the amd64 conversion
    instruction, the smallest integer. *)
Definition truncAbs (m : positive) (e : Z) : Z :=
  if 0 <=? e then Z.pos m * 2 ^ e else Z.pos m / 2 ^ (- e).

Definition int_of_float64 (x : float64) : Z :=
  match x with
  | S754_zero _ => 0
  | S754_finite s m e =>
      let t := truncAbs m e in
      let v := if s then Z.opp t else t in
      if (minInt64 <=? v) && (v <=? maxInt64) then v else minInt64
  | _ => minInt64
  end.

(* ===================================================================== *)
(** * Package strconv: ParseFloat *)
(* ===================================================================== *)

(** The digits of a decimal number with at most one point: the integer that
    the digits spell and the number of digits after the point; [None] when
    there is no digit, a second point, or another byte. *)
Fixpoint scanDecimal (s : string) (mant : Z) (frac : option nat)
    (sawdigits : bool) : option (Z * nat) :=
  match s with
  | EmptyString =>
      if sawdigits then Some (mant, match frac with Some d => d | None => O end)
      else None
  | String a s' =>
      if isDigit a then
        scanDecimal s' (mant * 10 + digitVal a)
          (match frac with Some d => Some (S d) | None => None end) true
      else if Ascii.eqb a "." then
        match frac with
        | None => scanDecimal s' mant (Some O) sawdigits
        | Some _ => None
        end
      else None
  end.

Definition isInfinite (x : float64) : bool :=
  match x with S754_infinity _ => true | _ => false end.

(** [strconv.ParseFloat(s, 64)] on decimal numbers without exponent (an
    optional sign, digits, at most one point): the value and whether an error
    is returned.  A syntax error comes with the value [0]; a number too large
    for a float64 is a range error and comes with an infinity.  The model
    is of the library on runs of digits and points, with or without a sign,
    and of nothing else: the other spellings that the library accepts
    (exponents, hexadecimal, underscores, infinities, NaN) are errors here.
    The one call of the program hands it the second group of [aigPattern],
    which is a run of digits and points for every text
    ([aigPattern_number]), so that the other spellings never reach it;
    nothing is claimed of [extractAIGRatio] under another pattern. *)
Definition strconv_ParseFloat (s : string) : float64 * bool :=
  let '(neg, body) := splitSign s in
  match scanDecimal body 0 None false with
  | None => (f64_zero, true)
  | Some (m, d) =>
      let f := float64_of_ratio neg m (10 ^ Z.of_nat d) in
      (f, isInfinite f)
  end.

(* ===================================================================== *)
(** * Package time: civil dates *)
(* ===================================================================== *)

(** The calendar date of a [time.Time] at midnight; the location plays no
    part in the model. *)
Record civil : Type := Civil { cYear : Z; cMonth : Z; cDay : Z }.

(** Days from 1970-01-01 to the given day of the proleptic Gregorian
    calendar, for a month in 1..12 and any day number. *)
Definition daysFromCivil (y m d : Z) : Z :=
  let y' := if m <=? 2 then y - 1 else y in
  let era := y' / 400 in
  let yoe := y' - era * 400 in
  let mp := if 2 <? m then m - 3 else m + 9 in
  let doy := (153 * mp + 2) / 5 + d - 1 in
  let doe := yoe * 365 + yoe / 4 - yoe / 100 + doy in
  era * 146097 + doe - 719468.

Definition civilFromDays (z : Z) : civil :=
  let z' := z + 719468 in
  let era := z' / 146097 in
  let doe := z' - era * 146097 in
  let yoe := (doe - doe / 1460 + doe / 36524 - doe / 146096) / 365 in
  let doy := doe - (365 * yoe + yoe / 4 - yoe / 100) in
  let mp := (5 * doy + 2) / 153 in
  let d := doy - (153 * mp + 2) / 5 + 1 in
  let m := if mp <? 10 then mp + 3 else mp - 9 in
  Civil (if m <=? 2 then yoe + era * 400 + 1 else yoe + era * 400) m d.

(** [time.Date(year, month, day, 0, 0, 0, 0, loc)] in a location whose
    offset never changes ([time.UTC], a fixed zone), where every midnight
    exists and a time is known by its date: month and day may be outside
    their usual ranges and are normalised, the month first.  The times of
    an arbitrary location are in the module [Zoned] below;
    [getDefaultDateRange_constant_offset] relates the two, and
    [getDefaultDateRange_skipped_midnight] shows a location where they
    differ. *)
Definition time_Date (year month day : Z) : civil :=
  let m0 := month - 1 in
  let y := year + m0 / 12 in
  let m := m0 mod 12 + 1 in
  civilFromDays (daysFromCivil y m 1 + (day - 1)).

(** [t.AddDate(years, months, days)] *)
Definition AddDate (t : civil) (years months days : Z) : civil :=
  time_Date (cYear t + years) (cMonth t + months) (cDay t + days).

Fixpoint zeros (n : nat) : string :=
  match n with O => "" | S n' => String "0" (zeros n') end.

(** [appendInt] of package time: the decimal spelling of [x], a minus sign
    first when it is negative, padded with zeros to [width] digits. *)
Definition appendInt (x : Z) (width : nat) : string :=
  let ds := NilZero.string_of_uint (N.to_uint (Z.abs_N x)) in
  (if x <? 0 then "-" else "")
  ++ zeros (width - String.length ds) ++ ds.

(** [t.Format("2006-01-02")] *)
Definition Format (t : civil) : string :=
  appendInt (cYear t) 4 ++ "-" ++ appendInt (cMonth t) 2
  ++ "-" ++ appendInt (cDay t) 2.

Definition is_Some_b {A : Type} (o : option A) : bool :=
  match o with Some _ => true | None => false end.

(** The days of a month; February has 29 in a leap year. *)
Definition isLeap (year : Z) : bool :=
  (year mod 4 =? 0) && (negb (year mod 100 =? 0) || (year mod 400 =? 0)).

Definition daysIn (month year : Z) : Z :=
  if month =? 2 then (if isLeap year then 29 else 28)
  else if (month =? 4) || (month =? 6) || (month =? 9) || (month =? 11) then 30
  else 31.

(** [time.Parse("2006-01-02", value)]: the date, or [None] when an error is
    returned.  The layout asks for four digits, a dash, two digits, a dash
    and two digits, and nothing more; the month must be in 1..12 and the day
    in the month. *)
Definition time_Parse (value : string) : option civil :=
  match value with
  | String y1 (String y2 (String y3 (String y4 (String s1
      (String m1 (String m2 (String s2 (String d1 (String d2 EmptyString))))))))) =>
      if isDigit y1 && isDigit y2 && isDigit y3 && isDigit y4
         && Ascii.eqb s1 "-" && isDigit m1 && isDigit m2
         && Ascii.eqb s2 "-" && isDigit d1 && isDigit d2
      then
        let year := ((digitVal y1 * 10 + digitVal y2) * 10 + digitVal y3) * 10
                    + digitVal y4 in
        let month := digitVal m1 * 10 + digitVal m2 in
        let day := digitVal d1 * 10 + digitVal d2 in
        if (1 <=? month) && (month <=? 12)
           && (1 <=? day) && (day <=? daysIn month year)
        then Some (Civil year month day)
        else None
      else None
  | _ => None
  end.

(** The errors of [parseCommandLineArgs], each with the argument that it
    quotes. *)
Inductive argError : Type :=
| BadSince (arg : string)
| BadUntil (arg : string).

(* ===================================================================== *)
(** * Package time: locations *)
(* ===================================================================== *)

(** What the method [lookup] of a [time.Location] returns for an instant
    (seconds since the Unix epoch, in UTC): the offset of the zone in effect,
    in seconds east of UTC, and the instants between which that zone is in
    effect.  A location is given by this function. *)
Record zoneSpan : Type := ZoneSpan { zOffset : Z; zStart : Z; zEnd : Z }.

Definition location : Type := Z -> zoneSpan.

(** [time.UTC] and [time.FixedZone(name, offset)]: one zone for all time. *)
Definition fixedZone (offset : Z) : location :=
  fun _ => ZoneSpan offset minInt64 maxInt64.

Definition utcLoc : location := fixedZone 0.

(** The offset of the location never changes. *)
Definition constantOffset (loc : location) (offset : Z) : Prop :=
  forall t, zOffset (loc t) = offset.

(** A location that moves its clocks once, at the instant [change]: a
    daylight saving time that starts there. *)
Definition oneTransition (before after change : Z) : location :=
  fun t => if t <? change then ZoneSpan before minInt64 change
           else ZoneSpan after change maxInt64.

(** The times of package time with their location.  A [time.Time] is the
    number of seconds since the Unix epoch (the nanoseconds are 0 in the
    program), and the location is passed beside it.  The seconds are
    integers without bound: the instants of the program's dates are far from
    the ends of [int64]. *)
Module Zoned.

(** [time.Date(year, month, day, hour, min, sec, 0, loc)]: the fields are
    normalised, the instant is computed as if the clock were UTC, and the
    offset of the location is taken off; when the zone found for the
    unadjusted instant is not in effect at the adjusted one, the offset at
    the adjusted instant is taken. *)
Definition time_Date (year month day hour min sec : Z) (loc : location) : Z :=
  let m0 := month - 1 in
  let y := year + m0 / 12 in
  let m := m0 mod 12 + 1 in
  let min := min + sec / 60 in
  let sec := sec mod 60 in
  let hour := hour + min / 60 in
  let min := min mod 60 in
  let day := day + hour / 24 in
  let hour := hour mod 24 in
  let d := daysFromCivil y m 1 + (day - 1) in
  let unix := d * 86400 + (hour * 3600 + min * 60 + sec) in
  let z := loc unix in
  if zOffset z =? 0 then unix
  else
    let utc := unix - zOffset z in
    let offset :=
      if (utc <? zStart z) || (zEnd z <=? utc) then zOffset (loc utc)
      else zOffset z in
    unix - offset.

(** The seconds since the epoch on the clock of the location. *)
Definition localSec (loc : location) (t : Z) : Z := t + zOffset (loc t).

(** [t.Date()] *)
Definition Date (loc : location) (t : Z) : civil :=
  civilFromDays (localSec loc t / 86400).

(** [t.Clock()] *)
Definition Clock (loc : location) (t : Z) : Z * Z * Z :=
  let sec := localSec loc t mod 86400 in
  (sec / 3600, (sec mod 3600) / 60, sec mod 60).

(** [t.AddDate(years, months, days)] *)
Definition AddDate (loc : location) (t : Z) (years months days : Z) : Z :=
  let c := Date loc t in
  let '(hour, min, sec) := Clock loc t in
  time_Date (cYear c + years) (cMonth c + months) (cDay c + days)
    hour min sec loc.

(** [t.Format("2006-01-02")] *)
Definition Format (loc : location) (t : Z) : string :=
  Format (Date loc t).

(** [func getDefaultDateRange(since, until string) (string, string)] of both
    files; [location] is [now.Location()] and [now] the date of
    [time.Now()] there. *)
Definition getDefaultDateRange (location : location) (now : civil)
    (since until : string) : string * string :=
  if nonEmpty since && nonEmpty until then (since, until)
  else
    let year := cYear now in
    let month := cMonth now in
    let day := cDay now in
    let '(periodStart, periodEnd) :=
      if day <=? 15 then
        let firstOfThisMonth := time_Date year month 1 0 0 0 location in
        let lastMonth := AddDate location firstOfThisMonth 0 (-1) 0 in
        let lastMonthYear := cYear (Date location lastMonth) in
        let lastMonthMonth := cMonth (Date location lastMonth) in
        let periodStart :=
          time_Date lastMonthYear lastMonthMonth 16 0 0 0 location in
        let firstOfNextMonth :=
          time_Date lastMonthYear (lastMonthMonth + 1) 1 0 0 0 location in
        (periodStart, AddDate location firstOfNextMonth 0 0 (-1))
      else
        (time_Date year month 1 0 0 0 location,
         time_Date year month 15 0 0 0 location) in
    (Format location periodStart, Format location periodEnd).

End Zoned.

(** The number of the day that [time.Date] reaches. *)
Definition dayNumber (year month day : Z) : Z :=
  daysFromCivil (year + (month - 1) / 12) ((month - 1) mod 12 + 1) 1 + (day - 1).

(* ===================================================================== *)
(** * Shared declarations of the two variants *)
(* ===================================================================== *)

Definition LF : ascii := "010"%char.
Definition newline : string := String LF "".

(** [type CommitStats struct] (the same in both files) *)
Record CommitStats : Type := {
  AddedLines : Z;
  DeletedLines : Z;
  AIGRatio : float64;
  IsFix : bool
}.

(** The zero value [CommitStats{}]. *)
Definition zeroCommitStats : CommitStats :=
  {| AddedLines := 0; DeletedLines := 0; AIGRatio := f64_zero; IsFix := false |}.

(** [int(math.Round(float64(n) * ratio))] *)
Definition aiLines (n : Z) (ratio : float64) : Z :=
  int_of_float64 (math_Round (f64_mul (float64_of_int n) ratio)).

(* ===================================================================== *)
(** * src/repo/main.go *)
(* ===================================================================== *)

Module MainGo.

(** [aigPattern = `AIG:(\s*([0-9.]+))`] *)
Definition aigPattern : regex :=
  RCat [RLit "AIG:";
        RGroup 1 (RCat [RStar cls_s; RGroup 2 (RPlus cls_digit_dot)])].

(** [fixPattern = `^[0-9a-f]{40} '[^']+' \d{4}-\d{2}-\d{2} \d{2}:\d{2}:\d{2} (fix)`] *)
Definition fixPattern : regex :=
  RCat [RBol; RTimes cls_hex 40; RLit " '"; RPlus cls_not_quote; RLit "' ";
        reTimestamp; RLit " "; RGroup 1 (RLit "fix")].

(** [commitPattern = `^([0-9a-f]{40}) '([^']+)' ([^ ]+) (\d{4}-\d{2}-\d{2} \d{2}:\d{2}:\d{2}) (.+)$`]
    (declared in this file, used nowhere in it) *)
Definition commitPattern : regex :=
  RCat [RBol; RGroup 1 (RTimes cls_hex 40); RLit " '";
        RGroup 2 (RPlus cls_not_quote); RLit "' ";
        RGroup 3 (RPlus cls_not_space); RLit " ";
        RGroup 4 reTimestamp; RLit " "; RGroup 5 (RPlus cls_dot); REol].

Definition includeFileExts : string :=
  ".html,.vue,.js,.ts,.tsx,.css,.scss,.cjs,.go,.php,.yaml,.proto".
Definition excludeFileExts : string := ".pb.go,.pb.validate.go".

(** [type AuthorStats struct] *)
Record AuthorStats : Type := {
  Name : string;
  Email : string;
  TotalAddedLines : Z;
  TotalDeletedLines : Z;
  TotalAIAddedLines : Z;
  TotalAIDeletedLines : Z;
  FixCount : Z;
  FixAndAIGCount : Z
}.

(** [func isFileChangeLine(line string) bool] *)
Definition fieldOK (field : string) : bool :=
  if String.eqb field "-" then true
  else negb (snd (strconv_Atoi field)).

Definition isFileChangeLine (line : string) : bool :=
  let parts := strings_Fields line in
  match parts with
  | f0 :: f1 :: _ => fieldOK f0 && fieldOK f1
  | _ => false
  end.

(** [func parseFileChange(change string) (added, deleted int, fileName string)] *)
Definition parseFileChange (change : string) : Z * Z * string :=
  let parts := strings_Fields change in
  match parts with
  | p0 :: p1 :: p2 :: rest =>
      let added := fst (strconv_Atoi p0) in
      let deleted := fst (strconv_Atoi p1) in
      let fileName :=
        match rest with
        | _ :: _ => strings_Join (p2 :: rest) ""
        | [] => p2
        end in
      (added, deleted, fileName)
  | _ => (0, 0, "")
  end.

(** [func isValidFile(fileName string, includeExts, excludeExts []string) bool] *)
Fixpoint extIn (ext : string) (exts : list string) : bool :=
  match exts with
  | [] => false
  | e :: exts' => if String.eqb ext e then true else extIn ext exts'
  end.

Definition isValidFile (fileName : string) (includeExts excludeExts : list string)
    : bool :=
  let ext := filepath_Ext fileName in
  if extIn ext excludeExts then false
  else if extIn ext includeExts then true
  else false.

(** [func extractAIGRatio(re *regexp.Regexp, commit string) float64] *)
Definition extractAIGRatio (re : regex) (commit : string) : float64 :=
  let matches := FindStringSubmatch re commit in
  if (2 <? length matches)%nat then
    let '(ratio, err) := strconv_ParseFloat (nth 2 matches "") in
    if err || f64_lt ratio f64_zero then f64_zero else ratio
  else f64_zero.

(** [func splitCommits(output string) []string]: the state of the loop is
    the slice [commits] and the builder [currentCommit]. *)
Definition splitStep (st : list string * string) (line : string)
    : list string * string :=
  let '(commits, currentCommit) := st in
  if String.eqb line "" then st
  else
    let s := strings_Fields line in
    let '(commits, currentCommit) :=
      match s with
      | s0 :: _ =>
          if (String.length s0 =? 40)%nat && nonEmpty currentCommit
          then ((commits ++ [currentCommit])%list, "")
          else (commits, currentCommit)
      | [] => (commits, currentCommit)
      end in
    let currentCommit :=
      if nonEmpty currentCommit then currentCommit +:+ newline
      else currentCommit in
    (commits, currentCommit +:+ line).

Definition splitCommits (output : string) : list string :=
  let lines := strings_Split LF output in
  let '(commits, currentCommit) := fold_left splitStep lines ([], "") in
  if nonEmpty currentCommit then (commits ++ [currentCommit])%list else commits.

(** [func getDefaultDateRange(since, until string) (string, string)]; the
    date of [time.Now()] is the argument [now]. *)
Definition getDefaultDateRange (now : civil) (since until : string)
    : string * string :=
  if nonEmpty since && nonEmpty until then (since, until)
  else
    let year := cYear now in
    let month := cMonth now in
    let day := cDay now in
    let '(periodStart, periodEnd) :=
      if day <=? 15 then
        let firstOfThisMonth := time_Date year month 1 in
        let lastMonth := AddDate firstOfThisMonth 0 (-1) 0 in
        let lastMonthYear := cYear lastMonth in
        let lastMonthMonth := cMonth lastMonth in
        let periodStart := time_Date lastMonthYear lastMonthMonth 16 in
        let firstOfNextMonth := time_Date lastMonthYear (lastMonthMonth + 1) 1 in
        (periodStart, AddDate firstOfNextMonth 0 0 (-1))
      else
        (time_Date year month 1, time_Date year month 15) in
    (Format periodStart, Format periodEnd).

(** [func parseCommandLineArgs() (string, string, error)]; [os.Args] is the
    argument [args] and the date of [time.Now()] the argument [now]. *)
Definition parseCommandLineArgs (now : civil) (args : list string)
    : string * string * option argError :=
  let since := if (1 <? length args)%nat then nth 1 args "" else "" in
  if (1 <? length args)%nat && negb (is_Some_b (time_Parse since))
  then ("", "", Some (BadSince since))
  else
    let until := if (2 <? length args)%nat then nth 2 args "" else "" in
    if (2 <? length args)%nat && negb (is_Some_b (time_Parse until))
    then ("", "", Some (BadUntil until))
    else
      let '(since, until) := getDefaultDateRange now since until in
      (since, until, None).

(** The loop of [processCommit] over [lines[1:]] that collects the message
    and finds [fileChangeStartIdx]; [i] is the index of the head of
    [rest], and the index stays [1] when no line is a file change. *)
Fixpoint scanMessage (i : nat) (rest : list string) (messageLines : list string)
    : list string * nat :=
  match rest with
  | [] => (messageLines, 1%nat)
  | line :: rest' =>
      if String.eqb line "" then scanMessage (S i) rest' messageLines
      else if isFileChangeLine line then (messageLines, i)
      else scanMessage (S i) rest' (messageLines ++ [line])%list
  end.

(** The body of the loop of [processCommit] over [fileChanges]. *)
Definition addChange (includeExts excludeExts : list string)
    (stats : CommitStats) (change : string) : CommitStats :=
  if String.eqb change "" then stats
  else
    let '(added, deleted, fileName) := parseFileChange change in
    if negb (isValidFile fileName includeExts excludeExts) then stats
    else
      {| AddedLines := wrap64 (AddedLines stats + added);
         DeletedLines := wrap64 (DeletedLines stats + deleted);
         AIGRatio := AIGRatio stats;
         IsFix := IsFix stats |}.

(** [func processCommit(commit string, aigRegex, fixRegex *regexp.Regexp,
    includeExts, excludeExts []string) (CommitStats, string, string)] *)
Definition processCommit (commit : string) (aigRegex fixRegex : regex)
    (includeExts excludeExts : list string) : CommitStats * string * string :=
  let lines := strings_Split LF commit in
  match lines with
  | [] => (zeroCommitStats, "", "")
  | firstLine :: _ =>
      let parts := strings_SplitN " " 5 firstLine in
      if (length parts <? 5)%nat then (zeroCommitStats, "", "")
      else
        let author := strings_Trim (nth 1 parts "") "'" in
        let email := nth 2 parts "" in
        let message := nth 4 parts "" in
        let '(messageLines, fileChangeStartIdx) :=
          scanMessage 1 (skipn 1 lines) [message] in
        let fullMessage := strings_Join messageLines newline in
        let stats :=
          {| AddedLines := 0; DeletedLines := 0;
             AIGRatio := extractAIGRatio aigRegex fullMessage;
             IsFix := MatchString fixRegex firstLine |} in
        let fileChanges := skipn fileChangeStartIdx lines in
        let stats :=
          fold_left (addChange includeExts excludeExts) fileChanges stats in
        (stats, author, email)
  end.

(** [func updateAuthorStats(authorStats map[string]*AuthorStats, author,
    email string, commitStats CommitStats)]: the map owns the records it
    points to, so the update in place of a record is the update of the map
    at its key. *)
Definition updateAuthorStats (authorStats : gmap string AuthorStats)
    (author email : string) (commitStats : CommitStats)
    : gmap string AuthorStats :=
  let stats :=
    match authorStats !! email with
    | Some stats => stats
    | None =>
        {| Name := author; Email := email;
           TotalAddedLines := 0; TotalDeletedLines := 0;
           TotalAIAddedLines := 0; TotalAIDeletedLines := 0;
           FixCount := 0; FixAndAIGCount := 0 |}
    end in
  let aiAddedLines := aiLines (AddedLines commitStats) (AIGRatio commitStats) in
  let aiDeletedLines := aiLines (DeletedLines commitStats) (AIGRatio commitStats) in
  let isFix := IsFix commitStats in
  let isFixAIG := isFix && f64_lt f64_zero (AIGRatio commitStats) in
  <[ email :=
     {| Name := Name stats; Email := Email stats;
        TotalAddedLines := wrap64 (TotalAddedLines stats + AddedLines commitStats);
        TotalDeletedLines := wrap64 (TotalDeletedLines stats + DeletedLines commitStats);
        TotalAIAddedLines := wrap64 (TotalAIAddedLines stats + aiAddedLines);
        TotalAIDeletedLines := wrap64 (TotalAIDeletedLines stats + aiDeletedLines);
        FixCount := if isFix then wrap64 (FixCount stats + 1) else FixCount stats;
        FixAndAIGCount :=
          if isFixAIG then wrap64 (FixAndAIGCount stats + 1)
          else FixAndAIGCount stats |} ]> authorStats.

(** The body of the loop of [analyzeCommits]. *)
Definition analyzeStep (authorStats : gmap string AuthorStats) (commit : string)
    : gmap string AuthorStats :=
  if String.eqb commit "" then authorStats
  else
    let includeExts := strings_Split "," includeFileExts in
    let excludeExts := strings_Split "," excludeFileExts in
    let '(commitStats, author, email) :=
      processCommit commit aigPattern fixPattern includeExts excludeExts in
    updateAuthorStats authorStats author email commitStats.

(** [func analyzeCommits(commits []string) map[string]*AuthorStats] *)
Definition analyzeCommits (commits : list string) : gmap string AuthorStats :=
  fold_left analyzeStep commits ∅.

End MainGo.

(* ===================================================================== *)
(** * src/unnamed/part_000 *)
(* ===================================================================== *)

Module Part000.

(** [aigPattern = `AIG:(\s*([0-9.]+))`] *)
Definition aigPattern : regex :=
  RCat [RLit "AIG:";
        RGroup 1 (RCat [RStar cls_s; RGroup 2 (RPlus cls_digit_dot)])].

(** [fixPattern = `^[0-9a-f]{40} '[^']+' \d{4}-\d{2}-\d{2} \d{2}:\d{2}:\d{2} (fix)`] *)
Definition fixPattern : regex :=
  RCat [RBol; RTimes cls_hex 40; RLit " '"; RPlus cls_not_quote; RLit "' ";
        reTimestamp; RLit " "; RGroup 1 (RLit "fix")].

(** [commitPattern = `^([0-9a-f]{40}) '([^']+)' (\d{4}-\d{2}-\d{2} \d{2}:\d{2}:\d{2}) (.+)$`] *)
Definition commitPattern : regex :=
  RCat [RBol; RGroup 1 (RTimes cls_hex 40); RLit " '";
        RGroup 2 (RPlus cls_not_quote); RLit "' ";
        RGroup 3 reTimestamp; RLit " "; RGroup 4 (RPlus cls_dot); REol].

Definition includeFileExts : string :=
  ".html,.vue,.js,.ts,.tsx,.css,.scss,.cjs,.go,.php,.yaml,.proto".
Definition excludeFileExts : string := ".pb.go,.pb.validate.go".

(** [func isFileChangeLine(line string) bool] *)
Definition fieldOK (field : string) : bool :=
  if String.eqb field "-" then true
  else negb (snd (strconv_Atoi field)).

Definition isFileChangeLine (line : string) : bool :=
  let parts := strings_Fields line in
  match parts with
  | f0 :: f1 :: _ => fieldOK f0 && fieldOK f1
  | _ => false
  end.

(** [func parseFileChange(change string) (added, deleted int, fileName string)] *)
Definition parseFileChange (change : string) : Z * Z * string :=
  let parts := strings_Fields change in
  match parts with
  | p0 :: p1 :: p2 :: rest =>
      let added := fst (strconv_Atoi p0) in
      let deleted := fst (strconv_Atoi p1) in
      let fileName :=
        match rest with
        | _ :: _ => strings_Join (p2 :: rest) ""
        | [] => p2
        end in
      (added, deleted, fileName)
  | _ => (0, 0, "")
  end.

(** [func isValidFile(fileName string, includeExts, excludeExts []string) bool] *)
Fixpoint extIn (ext : string) (exts : list string) : bool :=
  match exts with
  | [] => false
  | e :: exts' => if String.eqb ext e then true else extIn ext exts'
  end.

Definition isValidFile (fileName : string) (includeExts excludeExts : list string)
    : bool :=
  let ext := filepath_Ext fileName in
  if extIn ext excludeExts then false
  else if extIn ext includeExts then true
  else false.

(** [func extractAIGRatio(re *regexp.Regexp, commit string) float64] *)
Definition extractAIGRatio (re : regex) (commit : string) : float64 :=
  let matches := FindStringSubmatch re commit in
  if (2 <? length matches)%nat then
    let '(ratio, err) := strconv_ParseFloat (nth 2 matches "") in
    if err || f64_lt ratio f64_zero then f64_zero else ratio
  else f64_zero.

(** [func splitCommits(output string) []string]: the state of the loop is
    the slice [commits] and the builder [currentCommit]. *)
Definition splitStep (st : list string * string) (line : string)
    : list string * string :=
  let '(commits, currentCommit) := st in
  if String.eqb line "" then st
  else
    let s := strings_Fields line in
    let '(commits, currentCommit) :=
      match s with
      | s0 :: _ =>
          if (String.length s0 =? 40)%nat && nonEmpty currentCommit
          then ((commits ++ [currentCommit])%list, "")
          else (commits, currentCommit)
      | [] => (commits, currentCommit)
      end in
    let currentCommit :=
      if nonEmpty currentCommit then currentCommit +:+ newline
      else currentCommit in
    (commits, currentCommit +:+ line).

Definition splitCommits (output : string) : list string :=
  let lines := strings_Split LF output in
  let '(commits, currentCommit) := fold_left splitStep lines ([], "") in
  if nonEmpty currentCommit then (commits ++ [currentCommit])%list else commits.

(** [func getDefaultDateRange(since, until string) (string, string)]; the
    date of [time.Now()] is the argument [now]. *)
Definition getDefaultDateRange (now : civil) (since until : string)
    : string * string :=
  if nonEmpty since && nonEmpty until then (since, until)
  else
    let year := cYear now in
    let month := cMonth now in
    let day := cDay now in
    let '(periodStart, periodEnd) :=
      if day <=? 15 then
        let firstOfThisMonth := time_Date year month 1 in
        let lastMonth := AddDate firstOfThisMonth 0 (-1) 0 in
        let lastMonthYear := cYear lastMonth in
        let lastMonthMonth := cMonth lastMonth in
        let periodStart := time_Date lastMonthYear lastMonthMonth 16 in
        let firstOfNextMonth := time_Date lastMonthYear (lastMonthMonth + 1) 1 in
        (periodStart, AddDate firstOfNextMonth 0 0 (-1))
      else
        (time_Date year month 1, time_Date year month 15) in
    (Format periodStart, Format periodEnd).

(** [func parseCommandLineArgs() (string, string, string, error)]; [os.Args]
    is the argument [args] and the date of [time.Now()] the argument [now]. *)
Definition parseCommandLineArgs (now : civil) (args : list string)
    : string * string * string * option argError :=
  let author := if (1 <? length args)%nat then nth 1 args "" else "" in
  let since := if (2 <? length args)%nat then nth 2 args "" else "" in
  if (2 <? length args)%nat && negb (is_Some_b (time_Parse since))
  then ("", "", "", Some (BadSince since))
  else
    let until := if (3 <? length args)%nat then nth 3 args "" else "" in
    if (3 <? length args)%nat && negb (is_Some_b (time_Parse until))
    then ("", "", "", Some (BadUntil until))
    else
      let '(since, until) := getDefaultDateRange now since until in
      (author, since, until, None).

(** The loop of [processCommit] over [lines[1:]] that collects the message
    and finds [fileChangeStartIdx]; [i] is the index of the head of
    [rest], and the index stays [1] when no line is a file change. *)
Fixpoint scanMessage (i : nat) (rest : list string) (messageLines : list string)
    : list string * nat :=
  match rest with
  | [] => (messageLines, 1%nat)
  | line :: rest' =>
      if String.eqb line "" then scanMessage (S i) rest' messageLines
      else if isFileChangeLine line then (messageLines, i)
      else scanMessage (S i) rest' (messageLines ++ [line])%list
  end.

(** The body of the loop of [processCommit] over [fileChanges]. *)
Definition addChange (includeExts excludeExts : list string)
    (stats : CommitStats) (change : string) : CommitStats :=
  if String.eqb change "" then stats
  else
    let '(added, deleted, fileName) := parseFileChange change in
    if negb (isValidFile fileName includeExts excludeExts) then stats
    else
      {| AddedLines := wrap64 (AddedLines stats + added);
         DeletedLines := wrap64 (DeletedLines stats + deleted);
         AIGRatio := AIGRatio stats;
         IsFix := IsFix stats |}.

(** [func processCommit(commit string, aigRegex, fixRegex *regexp.Regexp,
    includeExts, excludeExts []string) CommitStats] *)
Definition processCommit (commit : string) (aigRegex fixRegex : regex)
    (includeExts excludeExts : list string) : CommitStats :=
  let lines := strings_Split LF commit in
  match lines with
  | [] => zeroCommitStats
  | firstLine :: _ =>
      let matches := FindStringSubmatch commitPattern firstLine in
      if (length matches <? 5)%nat then zeroCommitStats
      else
        let '(messageLines, fileChangeStartIdx) :=
          scanMessage 1 (skipn 1 lines) [nth 4 matches ""] in
        let message := strings_Join messageLines newline in
        let fileChanges := skipn fileChangeStartIdx lines in
        let stats :=
          {| AddedLines := 0; DeletedLines := 0;
             AIGRatio := extractAIGRatio aigRegex message;
             IsFix := MatchString fixRegex firstLine |} in
        fold_left (addChange includeExts excludeExts) fileChanges stats
  end.

(** [stats[key] += v] on a [map[string]int]: a key that is absent reads
    as [0]. *)
Definition addTo (key : string) (v : Z) (stats : gmap string Z) : gmap string Z :=
  <[ key := wrap64 (default 0 (stats !! key) + v) ]> stats.

(** [func updateStats(stats map[string]int, commitStats CommitStats)] *)
Definition updateStats (stats : gmap string Z) (commitStats : CommitStats)
    : gmap string Z :=
  let stats := addTo "totalAddedLines" (AddedLines commitStats) stats in
  let stats := addTo "totalDeletedLines" (DeletedLines commitStats) stats in
  let aiAddedLines := aiLines (AddedLines commitStats) (AIGRatio commitStats) in
  let aiDeletedLines := aiLines (DeletedLines commitStats) (AIGRatio commitStats) in
  let stats := addTo "totalAIAddedLines" aiAddedLines stats in
  let stats := addTo "totalAIDeletedLines" aiDeletedLines stats in
  if IsFix commitStats then
    let stats := addTo "fixCount" 1 stats in
    if f64_lt f64_zero (AIGRatio commitStats) then addTo "fixAndAIGCount" 1 stats
    else stats
  else stats.

(** The body of the loop of [analyzeCommits]. *)
Definition analyzeStep (stats : gmap string Z) (commit : string) : gmap string Z :=
  if String.eqb commit "" then stats
  else
    let includeExts := strings_Split "," includeFileExts in
    let excludeExts := strings_Split "," excludeFileExts in
    updateStats stats
      (processCommit commit aigPattern fixPattern includeExts excludeExts).

(** [func analyzeCommits(commits []string) map[string]int] *)
Definition analyzeCommits (commits : list string) : gmap string Z :=
  fold_left analyzeStep commits ∅.

End Part000.

(* ===================================================================== *)
(** * Inputs of the scenarios *)
(* ===================================================================== *)

Definition TAB : string := String "009" "".

Definition hash40 : string := "aaaaaaaaaaaaaaaaaaaaaaaaaaaaaaaaaaaaaaaa".

(** The chunk of the end-to-end scenario: an identity line without e-mail
    whose message starts with a capital [Fix], and one numstat line. *)
Definition scenarioChunk : string :=
  hash40 +:+ " 'Alice' 2024-01-01 10:00:00 Fix bug AIG: 0.5" +:+ newline
  +:+ "10" +:+ TAB +:+ "2" +:+ TAB +:+ "main.go".

(** An identity line of the shape that [main.go] asks git for
    ([%H '%an' %ae %ad %s %b]), tagged [fix] after the timestamp. *)
Definition emailFixChunk : string :=
  hash40 +:+ " 'Alice' alice@example.com 2024-01-01 10:00:00 fix crash".

(** The same commit in the shape without e-mail ([%H '%an' %ad %s %b]). *)
Definition plainFixChunk : string :=
  hash40 +:+ " 'Alice' 2024-01-01 10:00:00 fix crash".

(** The extension lists as [analyzeCommits] builds them. *)
Definition includeExts : list string := strings_Split "," MainGo.includeFileExts.
Definition excludeExts : list string := strings_Split "," MainGo.excludeFileExts.

(** The float64 values 1/2 and 1. *)
Definition f64_half : float64 := S754_finite false 4503599627370496 (-53).
Definition f64_one : float64 := S754_finite false 4503599627370496 (-52).

Fixpoint hasDot (s : string) : bool :=
  match s with
  | EmptyString => false
  | String a s' => Ascii.eqb a "." || hasDot s'
  end.

(** A line that starts a new chunk for [splitCommits]: its first field is
    40 bytes long (whatever the bytes are). *)
Definition startsChunk (line : string) : bool :=
  match strings_Fields line with
  | s0 :: _ => (String.length s0 =? 40)%nat
  | [] => false
  end.

(** The non-empty lines of a text. *)
Definition nonEmptyLines (output : string) : list string :=
  List.filter nonEmpty (strings_Split LF output).

Definition allDigits (s : string) : bool :=
  forallb isDigit (list_ascii_of_string s).

(** The spellings that [strconv.Atoi] accepts, with their values: decimal
    digits, with or without a sign, whose value is an [int]. *)
Inductive intLiteral : string -> Z -> Prop :=
| lit_plain (body : string) (v : Z) :
    body <> "" -> digitsValue 0 body = Some v -> v <= maxInt64 ->
    intLiteral body v
| lit_plus (body : string) (v : Z) :
    body <> "" -> digitsValue 0 body = Some v -> v <= maxInt64 ->
    intLiteral (String "+" body) v
| lit_minus (body : string) (v : Z) :
    body <> "" -> digitsValue 0 body = Some v -> v <= 2 ^ 63 ->
    intLiteral (String "-" body) (- v).

(** The values of an [int]. *)
Definition inInt64 (z : Z) : Prop := minInt64 <= z <= maxInt64.

(** The counters of a bucket are [int]s. *)
Definition wfAuthorStats (s : MainGo.AuthorStats) : Prop :=
  inInt64 (MainGo.TotalAddedLines s) /\ inInt64 (MainGo.TotalDeletedLines s)
  /\ inInt64 (MainGo.TotalAIAddedLines s) /\ inInt64 (MainGo.TotalAIDeletedLines s)
  /\ inInt64 (MainGo.FixCount s) /\ inInt64 (MainGo.FixAndAIGCount s).

Definition wfAuthorMap (m : gmap string MainGo.AuthorStats) : Prop :=
  forall k s, m !! k = Some s -> wfAuthorStats s.

Definition wfCounterMap (m : gmap string Z) : Prop :=
  forall k v, m !! k = Some v -> inInt64 v.

(** The first line of a chunk, as [processCommit] takes it. *)
Definition firstLineOf (chunk : string) : string :=
  hd "" (strings_Split LF chunk).

(** A chunk whose first line has the five parts that [main.go] asks for but
    neither identity shape, followed by a numstat line. *)
Definition shapelessChunk : string :=
  "a b c d e" +:+ newline +:+ "3" +:+ TAB +:+ "1" +:+ TAB +:+ "x.go".

(** The bucket that [updateAuthorStats] creates for an unknown key. *)
Definition newBucket (author email : string) : MainGo.AuthorStats :=
  {| MainGo.Name := author; MainGo.Email := email;
     MainGo.TotalAddedLines := 0; MainGo.TotalDeletedLines := 0;
     MainGo.TotalAIAddedLines := 0; MainGo.TotalAIDeletedLines := 0;
     MainGo.FixCount := 0; MainGo.FixAndAIGCount := 0 |}.

(** The float64 value 3/2. *)
Definition f64_three_halves : float64 := S754_finite false 6755399441055744 (-52).

(** [x <= y] on float64 (false when either is a NaN). *)
Definition f64_le (x y : float64) : bool := SFleb x y.

(** Not a NaN and not an infinity. *)
Definition isFinite (x : float64) : bool :=
  match x with S754_zero _ | S754_finite _ _ _ => true | _ => false end.

(** A commit of the shape that [main.go] asks for whose numstat line has a
    negative count. *)
Definition negativeCountChunk : string :=
  hash40 +:+ " 'Alice' alice@example.com 2024-01-01 10:00:00 cleanup" +:+ newline
  +:+ "-1" +:+ TAB +:+ "0" +:+ TAB +:+ "main.go".

(* ===================================================================== *)
(** * Notions of the further properties *)
(* ===================================================================== *)

(** The six counters of a bucket. *)
Definition countersOf (b : MainGo.AuthorStats) : Z * Z * Z * Z * Z * Z :=
  (MainGo.TotalAddedLines b, MainGo.TotalDeletedLines b,
   MainGo.TotalAIAddedLines b, MainGo.TotalAIDeletedLines b,
   MainGo.FixCount b, MainGo.FixAndAIGCount b).

(** Two maps with the same keys and, under each key, the same counters. *)
Definition sameCounters (m1 m2 : gmap string MainGo.AuthorStats) : Prop :=
  forall k, countersOf <$> (m1 !! k) = countersOf <$> (m2 !! k).

(** What holds of a map after [cnt] commits: each bucket is filed under its
    e-mail, its counters are [int]s, and its fix counts are ordered. *)
Definition bucketsOK (cnt : Z) (m : gmap string MainGo.AuthorStats) : Prop :=
  forall k b, m !! k = Some b ->
    MainGo.Email b = k /\ wfAuthorStats b
    /\ 0 <= MainGo.FixAndAIGCount b <= MainGo.FixCount b
    /\ MainGo.FixCount b <= cnt.

(** The record that [updateAuthorStats] writes, from the record it found. *)
Definition bumped (stats : MainGo.AuthorStats) (cs : CommitStats) : MainGo.AuthorStats :=
  {| MainGo.Name := MainGo.Name stats; MainGo.Email := MainGo.Email stats;
     MainGo.TotalAddedLines := wrap64 (MainGo.TotalAddedLines stats + AddedLines cs);
     MainGo.TotalDeletedLines := wrap64 (MainGo.TotalDeletedLines stats + DeletedLines cs);
     MainGo.TotalAIAddedLines :=
       wrap64 (MainGo.TotalAIAddedLines stats + aiLines (AddedLines cs) (AIGRatio cs));
     MainGo.TotalAIDeletedLines :=
       wrap64 (MainGo.TotalAIDeletedLines stats + aiLines (DeletedLines cs) (AIGRatio cs));
     MainGo.FixCount :=
       if IsFix cs then wrap64 (MainGo.FixCount stats + 1) else MainGo.FixCount stats;
     MainGo.FixAndAIGCount :=
       if IsFix cs && f64_lt f64_zero (AIGRatio cs)
       then wrap64 (MainGo.FixAndAIGCount stats + 1)
       else MainGo.FixAndAIGCount stats |}.

(** The value that a [map[string]int] gives for a key: 0 when absent. *)
Definition counter (m : gmap string Z) (k : string) : Z := default 0 (m !! k).

(** What holds of the counters of [part_000] after [cnt] commits. *)
Definition countersOK (cnt : Z) (m : gmap string Z) : Prop :=
  wfCounterMap m
  /\ 0 <= counter m "fixAndAIGCount" <= counter m "fixCount"
  /\ counter m "fixCount" <= cnt.

(** The additions that [updateStats] makes for a commit, in its order. *)
Definition deltas (cs : CommitStats) : list (string * Z) :=
  [("totalAddedLines", AddedLines cs);
   ("totalDeletedLines", DeletedLines cs);
   ("totalAIAddedLines", aiLines (AddedLines cs) (AIGRatio cs));
   ("totalAIDeletedLines", aiLines (DeletedLines cs) (AIGRatio cs))]
  ++ (if IsFix cs then
        ("fixCount", 1)
        :: (if f64_lt f64_zero (AIGRatio cs) then [("fixAndAIGCount", 1)] else [])
      else [])%list.

Definition addAll (ds : list (string * Z)) (stats : gmap string Z) : gmap string Z :=
  fold_left (fun m d => Part000.addTo (fst d) (snd d) m) ds stats.

(** The [CommitStats] of a chunk in [main.go], with the patterns and the
    extension lists of the program. *)
Definition statsOf (chunk : string) : CommitStats :=
  fst (fst (MainGo.processCommit chunk MainGo.aigPattern MainGo.fixPattern
              includeExts excludeExts)).

(** No byte of the string is ASCII white space. *)
Fixpoint noSpace (s : string) : bool :=
  match s with
  | EmptyString => true
  | String a s' => negb (isAsciiSpace a) && noSpace s'
  end.

Fixpoint hasLF (s : string) : bool :=
  match s with
  | EmptyString => false
  | String a s' => Ascii.eqb a LF || hasLF s'
  end.

(** A line of a chunk after the first: not empty, no line feed inside, and
    not taken for the start of a chunk. *)
Definition bodyLine (l : string) : Prop :=
  nonEmpty l = true /\ hasLF l = false /\ startsChunk l = false.

(** The lines of a well-formed chunk: a first line that starts with a field
    of 40 bytes, then body lines. *)
Definition chunkLines (ls : list string) : Prop :=
  match ls with
  | [] => False
  | h :: t => startsChunk h = true /\ hasLF h = false /\ Forall bodyLine t
  end.

(** The text of a chunk: its lines joined by line feeds. *)
Definition chunkText (ls : list string) : string := strings_Join ls newline.

(** What [splitCommits] returns from the state of its loop. *)
Definition flushChunk (st : list string * string) : list string :=
  if nonEmpty (snd st) then (fst st ++ [snd st])%list else fst st.

(** The window that the comments of [getDefaultDateRange] describe: in the
    first half of a month, the 16th to the last day of the month before;
    in the second half, the 1st to the 15th of the month. *)
Definition expectedWindow (year month day : Z) : string * string :=
  if day <=? 15 then
    let py := if month =? 1 then year - 1 else year in
    let pm := if month =? 1 then 12 else month - 1 in
    (Format (Civil py pm 16), Format (Civil py pm (daysIn pm py)))
  else (Format (Civil year month 1), Format (Civil year month 15)).

Definition pairEqb (a b : string * string) : bool :=
  String.eqb (fst a) (fst b) && String.eqb (snd a) (snd b).

(** The check of one month, for a day of the first half and one of the
    second. *)
Definition windowOK (year month : Z) : bool :=
  pairEqb (MainGo.getDefaultDateRange (Civil year month 15) "" "")
          (expectedWindow year month 15)
  && pairEqb (MainGo.getDefaultDateRange (Civil year month 16) "" "")
             (expectedWindow year month 16).

(** The check of the numbers [first], ..., [first + count - 1]. *)
Definition checkRange (f : Z -> bool) (first : Z) (count : nat) : bool :=
  forallb (fun k => f (first + Z.of_nat k)) (seq 0 count).

(** An argument at an index of [os.Args], when the program was given one,
    is a date of the layout. *)
Definition dateArgOK (args : list string) (i : nat) : Prop :=
  forall arg, nth_error args i = Some arg -> time_Parse arg <> None.

(** [appendInt x 4] spells [x] with four digits. *)
Definition fourDigits (x : Z) : bool :=
  match appendInt x 4 with
  | String a (String b (String c (String d EmptyString))) =>
      isDigit a && isDigit b && isDigit c && isDigit d
      && (((digitVal a * 10 + digitVal b) * 10 + digitVal c) * 10 + digitVal d =? x)
  | _ => false
  end.

(** [appendInt x 2] spells [x] with two digits. *)
Definition twoDigits (x : Z) : bool :=
  match appendInt x 2 with
  | String a (String b EmptyString) =>
      isDigit a && isDigit b && (digitVal a * 10 + digitVal b =? x)
  | _ => false
  end.

(** Every byte of the string is in the class. *)
Fixpoint allIn (p : ascii -> bool) (s : string) : bool :=
  match s with
  | EmptyString => true
  | String a s' => p a && allIn p s'
  end.

(* ===================================================================== *)
(** * The two variants share their core functions (C9) *)
(* ===================================================================== *)

(** C9. The functions [splitCommits], [isFileChangeLine], [parseFileChange],
    [isValidFile] and [extractAIGRatio] of [src/repo/main.go] return, on
    every input, what the functions of the same name in
    [src/unnamed/part_000] return; the patterns and extension lists that the
    two files pass to them are the same too. *)
Theorem core_functions_agree :
  (forall output, MainGo.splitCommits output = Part000.splitCommits output)
  /\ (forall line, MainGo.isFileChangeLine line = Part000.isFileChangeLine line)
  /\ (forall change, MainGo.parseFileChange change = Part000.parseFileChange change)
  /\ (forall fileName inc exc,
        MainGo.isValidFile fileName inc exc = Part000.isValidFile fileName inc exc)
  /\ (forall re commit,
        MainGo.extractAIGRatio re commit = Part000.extractAIGRatio re commit)
  /\ MainGo.aigPattern = Part000.aigPattern
  /\ MainGo.includeFileExts = Part000.includeFileExts
  /\ MainGo.excludeFileExts = Part000.excludeFileExts.
Proof.
  repeat apply conj; intros; reflexivity.
Qed.

(* ===================================================================== *)
(** * The default date range (C10) *)
(* ===================================================================== *)

Lemma append_cons_nonempty (a : string) (c : ascii) (b : string) :
  a +:+ String c b <> "".
Proof. destruct a; discriminate. Qed.

Lemma Format_nonempty (t : civil) : Format t <> "".
Proof. unfold Format. apply append_cons_nonempty. Qed.

Lemma nonEmpty_true (s : string) : nonEmpty s = true <-> s <> "".
Proof. destruct s; simpl; split; intros; congruence. Qed.

(** The window that [getDefaultDateRange] computes from the current date. *)
Definition defaultWindow (now : civil) : string * string :=
  MainGo.getDefaultDateRange now "" "".

Lemma getDefaultDateRange_unfold (now : civil) (since until : string) :
  MainGo.getDefaultDateRange now since until
  = if nonEmpty since && nonEmpty until then (since, until)
    else defaultWindow now.
Proof.
  unfold defaultWindow, MainGo.getDefaultDateRange.
  destruct (nonEmpty since && nonEmpty until); reflexivity.
Qed.

Lemma defaultWindow_shape (now : civil) :
  exists a b, defaultWindow now = (Format a, Format b).
Proof.
  unfold defaultWindow, MainGo.getDefaultDateRange.
  cbn [nonEmpty andb].
  destruct (cDay now <=? 15); eexists; eexists; reflexivity.
Qed.

(** C10. [getDefaultDateRange] returns the supplied [since] and [until]
    unchanged exactly when both are non-empty; when one of them is empty the
    result is the default window of the current date, whatever the other one
    is.  Both files have the same function. *)
Theorem getDefaultDateRange_supplied_or_default (now : civil) (since until : string) :
  (since <> "" -> until <> "" ->
     MainGo.getDefaultDateRange now since until = (since, until))
  /\ (since = "" \/ until = "" ->
        MainGo.getDefaultDateRange now since until = defaultWindow now)
  /\ (MainGo.getDefaultDateRange now since until = (since, until) ->
        since <> "" /\ until <> "")
  /\ Part000.getDefaultDateRange now since until
     = MainGo.getDefaultDateRange now since until.
Proof.
  split; [|split; [|split]].
  - intros Hs Hu. rewrite getDefaultDateRange_unfold.
    apply nonEmpty_true in Hs, Hu. rewrite Hs, Hu. reflexivity.
  - rewrite getDefaultDateRange_unfold.
    intros [-> | ->]; [reflexivity|].
    rewrite andb_false_r. reflexivity.
  - rewrite getDefaultDateRange_unfold.
    destruct (defaultWindow_shape now) as (a & b & W). rewrite W.
    destruct since as [|c s']; [|destruct until as [|d u']].
    + cbn [nonEmpty andb]. intros H. injection H as H1 _.
      exfalso. exact (Format_nonempty _ H1).
    + rewrite andb_false_r. intros H. injection H as _ H2.
      exfalso. exact (Format_nonempty _ H2).
    + intros _. split; discriminate.
  - reflexivity.
Qed.

(** On 10 March 2024 a lone [until] is replaced by the second half of
    February; on 20 March 2024 a lone [since] is replaced by the first half
    of March. *)
Lemma getDefaultDateRange_witness :
  MainGo.getDefaultDateRange (Civil 2024 3 10) "" "2024-01-31"
  = ("2024-02-16", "2024-02-29")
  /\ MainGo.getDefaultDateRange (Civil 2024 3 20) "2024-01-01" ""
     = ("2024-03-01", "2024-03-15")
  /\ MainGo.getDefaultDateRange (Civil 2024 3 20) "2024-01-01" "2024-01-31"
     = ("2024-01-01", "2024-01-31").
Proof.
  pose proof (getDefaultDateRange_supplied_or_default
                (Civil 2024 3 10) "" "2024-01-31") as (_ & H1 & _).
  pose proof (getDefaultDateRange_supplied_or_default
                (Civil 2024 3 20) "2024-01-01" "") as (_ & H2 & _).
  pose proof (getDefaultDateRange_supplied_or_default
                (Civil 2024 3 20) "2024-01-01" "2024-01-31") as (H3 & _).
  split; [|split].
  - rewrite H1 by (left; reflexivity). vm_compute. reflexivity.
  - rewrite H2 by (right; reflexivity). vm_compute. reflexivity.
  - apply H3; discriminate.
Defined.

(* ===================================================================== *)
(** * The extension filter (C2) *)
(* ===================================================================== *)

Lemma extAux_None_noDot (s : string) : extAux s = None -> hasDot s = false.
Proof.
  induction s as [|a s IH]; simpl; [reflexivity|].
  destruct (extAux s) as [e|]; [discriminate|].
  destruct (Ascii.eqb a "/"); [discriminate|].
  destruct (Ascii.eqb_spec a ".") as [->|N]; [discriminate|].
  intros _. cbn [hasDot].
  destruct (Ascii.eqb_spec a ".") as [E|_]; [congruence|].
  apply IH. reflexivity.
Qed.

(** The extension that [filepath.Ext] returns is empty or a dot followed by
    bytes that are not dots. *)
Lemma filepath_Ext_shape (path : string) :
  filepath_Ext path = ""
  \/ exists e, filepath_Ext path = String "." e /\ hasDot e = false.
Proof.
  unfold filepath_Ext.
  assert (G : forall s e, extAux s = Some e ->
                e = "" \/ exists e', e = String "." e' /\ hasDot e' = false).
  { induction s as [|a s IH]; simpl; [discriminate|].
    intros e. destruct (extAux s) as [e0|] eqn:E.
    - intros [= <-]. apply IH. reflexivity.
    - destruct (Ascii.eqb a "/"); [intros [= <-]; left; reflexivity|].
      destruct (Ascii.eqb_spec a ".") as [->|N]; [|discriminate].
      intros [= <-]. right. exists s. split; [reflexivity|].
      apply extAux_None_noDot. exact E. }
  destruct (extAux path) as [e|] eqn:E; [|left; reflexivity].
  apply (G path). exact E.
Qed.

(** No path has an extension of the deny-list: its entries have two dots
    or more, the extension of a path has one. *)
Lemma excludeExts_never_match (path : string) :
  MainGo.extIn (filepath_Ext path) excludeExts = false.
Proof.
  destruct (filepath_Ext_shape path) as [-> | (e & -> & D)]; [reflexivity|].
  unfold excludeExts. cbn.
  destruct (String.eqb_spec e "pb.go") as [->|_]; [discriminate D|].
  destruct (String.eqb_spec e "pb.validate.go") as [->|_]; [discriminate D|].
  reflexivity.
Qed.

(** C2 (the code departs from the claim). With the lists of the program the
    deny-list decides nothing: a path is counted exactly when its last
    extension is in the allow-list.  So [foo.pb.go] is counted, like
    [foo.go]; [foo.md] is not. *)
Theorem isValidFile_deny_list_is_dead :
  (forall path,
     MainGo.isValidFile path includeExts excludeExts
     = MainGo.extIn (filepath_Ext path) includeExts)
  /\ filepath_Ext "foo.pb.go" = ".go"
  /\ MainGo.isValidFile "foo.pb.go" includeExts excludeExts = true
  /\ Part000.isValidFile "foo.pb.go" includeExts excludeExts = true
  /\ MainGo.isValidFile "foo.md" includeExts excludeExts = false
  /\ MainGo.isValidFile "foo.go" includeExts excludeExts = true.
Proof.
  split; [|repeat apply conj; vm_compute; reflexivity].
  intros path. unfold MainGo.isValidFile.
  rewrite excludeExts_never_match.
  destruct (MainGo.extIn (filepath_Ext path) includeExts); reflexivity.
Qed.

(* ===================================================================== *)
(** * The fix marker (C3) *)
(* ===================================================================== *)

(** C3 (the code departs from the claim). [main.go] asks git for identity
    lines with an e-mail and splits them accordingly, but its [fixPattern]
    is still the pattern of the shape without e-mail: a commit tagged [fix]
    after the timestamp is not a fix for [main.go], while the same commit in
    the shape without e-mail is one for both files. *)
Theorem isFix_email_shape_never_fix :
  IsFix (fst (fst (MainGo.processCommit emailFixChunk MainGo.aigPattern
                     MainGo.fixPattern includeExts excludeExts))) = false
  /\ snd (MainGo.processCommit emailFixChunk MainGo.aigPattern
            MainGo.fixPattern includeExts excludeExts) = "alice@example.com"
  /\ FindStringSubmatch MainGo.commitPattern emailFixChunk
     = [emailFixChunk; hash40; "Alice"; "alice@example.com";
        "2024-01-01 10:00:00"; "fix crash"]
  /\ IsFix (Part000.processCommit plainFixChunk Part000.aigPattern
              Part000.fixPattern includeExts excludeExts) = true
  /\ IsFix (fst (fst (MainGo.processCommit plainFixChunk MainGo.aigPattern
                        MainGo.fixPattern includeExts excludeExts))) = true.
Proof.
  repeat apply conj; vm_compute; reflexivity.
Qed.

(* ===================================================================== *)
(** * The end-to-end scenario (C1) *)
(* ===================================================================== *)

(** C1, as stated, fails: the message of the scenario starts with [Fix], and
    the pattern asks for [fix]. *)
Lemma scenario_is_not_a_fix :
  IsFix (fst (fst (MainGo.processCommit scenarioChunk MainGo.aigPattern
                     MainGo.fixPattern includeExts excludeExts))) = false
  /\ IsFix (Part000.processCommit scenarioChunk Part000.aigPattern
              Part000.fixPattern includeExts excludeExts) = false.
Proof.
  split; vm_compute; reflexivity.
Qed.

(** C1, amended. The chunk of the scenario gives 10 added and 2 deleted
    lines, the ratio 1/2 and no fix; folded into the empty map it gives
    Alice the totals 10 and 2, the AI totals 5 and 1, and no fix count.
    [main.go] reads the date as the e-mail and keys the bucket by it. *)
Theorem scenario_result :
  MainGo.processCommit scenarioChunk MainGo.aigPattern MainGo.fixPattern
    includeExts excludeExts
  = ({| AddedLines := 10; DeletedLines := 2; AIGRatio := f64_half;
        IsFix := false |}, "Alice", "2024-01-01")
  /\ MainGo.analyzeCommits [scenarioChunk]
     = {[ "2024-01-01" :=
          {| MainGo.Name := "Alice"; MainGo.Email := "2024-01-01";
             MainGo.TotalAddedLines := 10; MainGo.TotalDeletedLines := 2;
             MainGo.TotalAIAddedLines := 5; MainGo.TotalAIDeletedLines := 1;
             MainGo.FixCount := 0; MainGo.FixAndAIGCount := 0 |} ]}
  /\ Part000.processCommit scenarioChunk Part000.aigPattern Part000.fixPattern
       includeExts excludeExts
     = {| AddedLines := 10; DeletedLines := 2; AIGRatio := f64_half;
          IsFix := false |}
  /\ map_to_list (Part000.analyzeCommits [scenarioChunk])
     = [("totalAIAddedLines", 5); ("totalAIDeletedLines", 1);
        ("totalAddedLines", 10); ("totalDeletedLines", 2)].
Proof.
  repeat apply conj; vm_compute; reflexivity.
Qed.

(* ===================================================================== *)
(** * The commit splitter (C4) *)
(* ===================================================================== *)

Lemma append_assoc3 (a b c : string) : (a +:+ b) +:+ c = a +:+ (b +:+ c).
Proof.
  induction a as [|x a IH]; [reflexivity|].
  change (String x ((a +:+ b) +:+ c) = String x (a +:+ (b +:+ c))).
  f_equal. exact IH.
Qed.

Lemma eqb_empty_nonEmpty (s : string) : String.eqb s "" = negb (nonEmpty s).
Proof. destruct s; reflexivity. Qed.

Lemma nonEmpty_append_r (a b : string) : nonEmpty b = true -> nonEmpty (a +:+ b) = true.
Proof. destruct a; intros N; [exact N|reflexivity]. Qed.

Lemma nonEmpty_append_l (a b : string) : nonEmpty a = true -> nonEmpty (a +:+ b) = true.
Proof. destruct a; intros N; [discriminate N|reflexivity]. Qed.

(** One step of the loop on a line that starts no chunk. *)
Lemma splitStep_plain (commits : list string) (cur line : string) :
  startsChunk line = false -> nonEmpty line = true ->
  MainGo.splitStep (commits, cur) line
  = (commits, (if nonEmpty cur then cur +:+ newline else cur) +:+ line).
Proof.
  intros M N. unfold MainGo.splitStep.
  rewrite eqb_empty_nonEmpty, N. cbn [negb].
  unfold startsChunk in M.
  destruct (strings_Fields line) as [|s0 fs]; [reflexivity|].
  rewrite M. reflexivity.
Qed.

Lemma splitStep_empty (st : list string * string) :
  MainGo.splitStep st "" = st.
Proof. destruct st. reflexivity. Qed.

Lemma strings_Join_cons (a b : string) (rest : list string) (sep : string) :
  strings_Join (a :: b :: rest) sep = a +:+ sep +:+ strings_Join (b :: rest) sep.
Proof. reflexivity. Qed.

Lemma strings_Join_nonEmpty (a : string) (rest : list string) (sep : string) :
  nonEmpty a = true -> nonEmpty (strings_Join (a :: rest) sep) = true.
Proof.
  intros N. destruct rest as [|b rest]; [exact N|].
  rewrite strings_Join_cons. apply nonEmpty_append_l. exact N.
Qed.

(** Without a line that starts a chunk the loop only extends the builder. *)
Lemma fold_splitStep_plain (lines : list string) :
  forall cur,
    Forall (fun l => startsChunk l = false) lines ->
    nonEmpty cur = true ->
    fold_left MainGo.splitStep lines ([], cur)
    = ([], strings_Join (cur :: List.filter nonEmpty lines) newline).
Proof.
  induction lines as [|l lines IH]; intros cur F N; [reflexivity|].
  inversion F as [|? ? Fl Fr]; subst.
  cbn [fold_left List.filter].
  destruct (nonEmpty l) eqn:E.
  - rewrite splitStep_plain by assumption. rewrite N.
    rewrite IH; [|assumption|apply nonEmpty_append_r; exact E].
    f_equal.
    destruct (List.filter nonEmpty lines) as [|b rest].
    + cbn [strings_Join]. apply append_assoc3.
    + rewrite !strings_Join_cons. rewrite !append_assoc3. reflexivity.
  - destruct l; [|discriminate]. rewrite splitStep_empty. apply IH; assumption.
Qed.

Lemma fold_splitStep_start (lines : list string) :
  Forall (fun l => startsChunk l = false) lines ->
  fold_left MainGo.splitStep lines ([], "")
  = ([], strings_Join (List.filter nonEmpty lines) newline).
Proof.
  induction lines as [|l lines IH]; intros F; [reflexivity|].
  inversion F as [|? ? Fl Fr]; subst.
  cbn [fold_left List.filter].
  destruct (nonEmpty l) eqn:E.
  - rewrite splitStep_plain by assumption. cbn [nonEmpty].
    apply fold_splitStep_plain; assumption.
  - destruct l; [|discriminate]. rewrite splitStep_empty. apply IH; assumption.
Qed.

(** The chunks closed so far are never empty. *)
Lemma splitStep_keeps_nonEmpty (st : list string * string) (line : string) :
  Forall (fun c => nonEmpty c = true) (fst st) ->
  Forall (fun c => nonEmpty c = true) (fst (MainGo.splitStep st line)).
Proof.
  destruct st as [commits cur]. intros F. unfold MainGo.splitStep.
  destruct (String.eqb line ""); [exact F|].
  destruct (strings_Fields line) as [|s0 fs]; [exact F|].
  destruct ((String.length s0 =? 40)%nat && nonEmpty cur) eqn:E; [|exact F].
  cbn [fst]. apply Forall_app. split; [exact F|].
  apply andb_prop in E. destruct E as [_ E].
  constructor; [exact E|constructor].
Qed.

Lemma fold_splitStep_keeps_nonEmpty (lines : list string) :
  forall st,
    Forall (fun c => nonEmpty c = true) (fst st) ->
    Forall (fun c => nonEmpty c = true) (fst (fold_left MainGo.splitStep lines st)).
Proof.
  induction lines as [|l lines IH]; intros st F; [exact F|].
  cbn [fold_left]. apply IH. apply splitStep_keeps_nonEmpty. exact F.
Qed.

(** C4, as stated, fails: a text without any marker line is one chunk. *)
Lemma splitCommits_no_marker_one_chunk :
  MainGo.splitCommits "hello" = ["hello"]
  /\ startsChunk "hello" = false.
Proof. split; vm_compute; reflexivity. Qed.

(** C4, amended. [splitCommits] returns no chunk for the empty text, and
    for a text whose lines are all empty.  A text in which no line starts
    with a field of 40 bytes (so, none with a hash of 40 hexadecimal digits)
    gives one chunk, its non-empty lines joined by line feeds, when it has a
    non-empty line.  No chunk is ever empty. *)
Theorem splitCommits_without_marker (output : string) :
  MainGo.splitCommits "" = []
  /\ (Forall (fun l => startsChunk l = false) (strings_Split LF output) ->
      MainGo.splitCommits output
      = match nonEmptyLines output with
        | [] => []
        | ls => [strings_Join ls newline]
        end)
  /\ Forall (fun c => c <> "") (MainGo.splitCommits output).
Proof.
  split; [reflexivity|split].
  - intros F. unfold MainGo.splitCommits, nonEmptyLines.
    rewrite fold_splitStep_start by exact F.
    destruct (List.filter nonEmpty (strings_Split LF output)) as [|a rest] eqn:E.
    + reflexivity.
    + assert (N : nonEmpty a = true).
      { assert (I : In a (List.filter nonEmpty (strings_Split LF output)))
          by (rewrite E; left; reflexivity).
        apply filter_In in I. apply I. }
      rewrite strings_Join_nonEmpty by exact N. reflexivity.
  - unfold MainGo.splitCommits.
    pose proof (fold_splitStep_keeps_nonEmpty (strings_Split LF output)
                  ([], "") ltac:(constructor)) as F.
    destruct (fold_left MainGo.splitStep (strings_Split LF output) ([], ""))
      as [commits cur].
    cbn [fst] in F.
    assert (G : Forall (fun c => c <> "")
                  (if nonEmpty cur then (commits ++ [cur])%list else commits)).
    { destruct (nonEmpty cur) eqn:E.
      - apply Forall_app. split.
        + eapply List.Forall_impl; [|exact F]. intros c Hc. apply nonEmpty_true. exact Hc.
        + constructor; [apply nonEmpty_true; exact E|constructor].
      - eapply List.Forall_impl; [|exact F]. intros c Hc. apply nonEmpty_true. exact Hc. }
    exact G.
Qed.

Lemma Forall_of_forallb {A : Type} (f : A -> bool) (l : list A) :
  forallb f l = true -> Forall (fun x => f x = true) l.
Proof.
  induction l as [|x l IH]; cbn [forallb]; intros H; constructor.
  - apply andb_prop in H. apply H.
  - apply IH. apply andb_prop in H. apply H.
Qed.

Lemma no_chunk_start_of_forallb (lines : list string) :
  forallb (fun l => negb (startsChunk l)) lines = true ->
  Forall (fun l => startsChunk l = false) lines.
Proof.
  intros H. apply Forall_of_forallb in H.
  eapply List.Forall_impl; [|exact H].
  intros l Hl. apply negb_true_iff. exact Hl.
Qed.

(** A text of three lines, the second one empty, none a marker. *)
Lemma splitCommits_without_marker_witness :
  MainGo.splitCommits ("hello" +:+ newline +:+ newline +:+ "world")
  = ["hello" +:+ newline +:+ "world"].
Proof.
  pose proof (splitCommits_without_marker
                ("hello" +:+ newline +:+ newline +:+ "world")) as (_ & H & _).
  rewrite H.
  - vm_compute. reflexivity.
  - apply no_chunk_start_of_forallb. vm_compute. reflexivity.
Defined.

(* ===================================================================== *)
(** * The file-change-line test (C6) *)
(* ===================================================================== *)

Lemma digitsValue_first_digit (a : ascii) (r : string) (acc v : Z) :
  digitsValue acc (String a r) = Some v -> isDigit a = true.
Proof. cbn [digitsValue]. destruct (isDigit a); [reflexivity|discriminate]. Qed.

Lemma splitSign_digit (a : ascii) (r : string) :
  isDigit a = true -> splitSign (String a r) = (false, String a r).
Proof.
  intros D. unfold splitSign.
  destruct (Ascii.eqb_spec a "-") as [->|_]; [discriminate D|].
  destruct (Ascii.eqb_spec a "+") as [->|_]; [discriminate D|].
  reflexivity.
Qed.

(** [strconv.Atoi] returns no error exactly on the integer literals, and
    then returns their value. *)
Lemma strconv_Atoi_ok (f : string) (v : Z) :
  strconv_Atoi f = (v, false) <-> intLiteral f v.
Proof.
  split.
  - unfold strconv_Atoi, splitSign.
    destruct f as [|a r]; [discriminate|].
    destruct (Ascii.eqb_spec a "-") as [->|Nm];
      [|destruct (Ascii.eqb_spec a "+") as [->|Np]].
    + destruct r as [|b r]; [discriminate|].
      destruct (digitsValue 0 (String b r)) as [w|] eqn:E; [|discriminate].
      destruct (w <=? 2 ^ 63) eqn:L; [|discriminate].
      intros [= <-]. apply lit_minus; [discriminate|exact E|lia].
    + destruct r as [|b r]; [discriminate|].
      destruct (digitsValue 0 (String b r)) as [w|] eqn:E; [|discriminate].
      destruct (w <=? maxInt64) eqn:L; [|discriminate].
      intros [= <-]. apply lit_plus; [discriminate|exact E|lia].
    + destruct (digitsValue 0 (String a r)) as [w|] eqn:E; [|discriminate].
      destruct (w <=? maxInt64) eqn:L; [|discriminate].
      intros [= <-]. apply lit_plain; [discriminate|exact E|lia].
  - intros L. destruct L as [body w N E L | body w N E L | body w N E L].
    + destruct body as [|a r]; [congruence|].
      unfold strconv_Atoi.
      rewrite (splitSign_digit a r (digitsValue_first_digit _ _ _ _ E)).
      cbv beta iota. rewrite E. destruct (w <=? maxInt64) eqn:L'; [reflexivity|lia].
    + destruct body as [|a r]; [congruence|].
      unfold strconv_Atoi.
      change (splitSign (String "+" (String a r))) with (false, String a r).
      cbv beta iota. rewrite E. destruct (w <=? maxInt64) eqn:L'; [reflexivity|lia].
    + destruct body as [|a r]; [congruence|].
      unfold strconv_Atoi.
      change (splitSign (String "-" (String a r))) with (true, String a r).
      cbv beta iota. rewrite E. destruct (w <=? 2 ^ 63) eqn:L'; [reflexivity|lia].
Qed.

Lemma fieldOK_spec (f : string) :
  MainGo.fieldOK f = true <-> f = "-" \/ exists v, intLiteral f v.
Proof.
  unfold MainGo.fieldOK.
  destruct (String.eqb_spec f "-") as [->|N].
  - split; [left; reflexivity|reflexivity].
  - destruct (strconv_Atoi f) as [v e] eqn:E. cbn [snd].
    split.
    + intros H. apply negb_true_iff in H. subst e.
      right. exists v. apply strconv_Atoi_ok. exact E.
    + intros [H | [w H]]; [contradiction|].
      apply strconv_Atoi_ok in H. rewrite H in E. injection E as _ <-.
      reflexivity.
Qed.

(** C6, as stated, fails: a line whose first field is a negative number
    qualifies.  Its first field is not the marker and is not a run of
    digits; [Atoi] reads it as -5. *)
Lemma isFileChangeLine_negative_count :
  MainGo.isFileChangeLine "-5 3 foo.go" = true
  /\ strings_Fields "-5 3 foo.go" = ["-5"; "3"; "foo.go"]
  /\ allDigits "-5" = false
  /\ strconv_Atoi "-5" = (-5, false)
  /\ MainGo.parseFileChange "-5 3 foo.go" = (-5, 3, "foo.go").
Proof. repeat apply conj; vm_compute; reflexivity. Qed.

(** C6, amended. A line qualifies exactly when it has two fields or more
    and each of the first two is the marker [-] or an integer literal that
    [Atoi] accepts: decimal digits, with an optional sign [+] or [-], whose
    value fits an [int]. *)
Theorem isFileChangeLine_accepts (line : string) :
  MainGo.isFileChangeLine line = true
  <-> exists f0 f1 rest,
        strings_Fields line = f0 :: f1 :: rest
        /\ (f0 = "-" \/ exists v, intLiteral f0 v)
        /\ (f1 = "-" \/ exists v, intLiteral f1 v).
Proof.
  unfold MainGo.isFileChangeLine.
  destruct (strings_Fields line) as [|f0 [|f1 rest]].
  - split; [discriminate|]. intros (? & ? & ? & H & _). discriminate H.
  - split; [discriminate|]. intros (? & ? & ? & H & _). discriminate H.
  - rewrite andb_true_iff, !fieldOK_spec. split.
    + intros [H0 H1]. exists f0, f1, rest. auto.
    + intros (g0 & g1 & r & E & H0 & H1). injection E as -> -> ->. auto.
Qed.

(* ===================================================================== *)
(** * The AI ratio of a message (C5) *)
(* ===================================================================== *)

Lemma FindStringSubmatch_length (r : regex) (txt : string) :
  FindStringSubmatch r txt = []
  \/ length (FindStringSubmatch r txt) = S (groupCount r).
Proof.
  unfold FindStringSubmatch. destruct (searchFrom r txt txt); [right|left; reflexivity].
  rewrite length_map, length_seq. reflexivity.
Qed.

(** A match of the AIG pattern has the whole match and two groups. *)
Lemma aigPattern_matches (msg : string) :
  FindStringSubmatch MainGo.aigPattern msg = []
  \/ exists whole g num, FindStringSubmatch MainGo.aigPattern msg = [whole; g; num].
Proof.
  destruct (FindStringSubmatch_length MainGo.aigPattern msg) as [E|E]; [left; exact E|].
  right. change (groupCount MainGo.aigPattern) with 2%nat in E.
  destruct (FindStringSubmatch MainGo.aigPattern msg) as [|a [|b [|c [|d l]]]];
    try discriminate E.
  exists a, b, c. reflexivity.
Qed.

Lemma f64_gt_one_not_negative (v : float64) :
  f64_lt f64_one v = true -> f64_lt v f64_zero = false.
Proof.
  destruct v as [s|s| |s m e]; try reflexivity; destruct s; try reflexivity;
    discriminate.
Qed.

(** C5. The ratio of a message is 0 when the AIG pattern does not match,
    when the number does not parse, and when the parsed value is negative;
    a value that parses and is not negative, in particular one above 1, is
    returned as parsed.  A tag value [-0.3] is no match at all (the pattern
    has no sign) and gives 0, [1.2.3] does not parse and gives 0, [1.5] gives
    3/2. *)
Theorem extractAIGRatio_cases (msg : string) :
  (FindStringSubmatch MainGo.aigPattern msg = [] ->
     MainGo.extractAIGRatio MainGo.aigPattern msg = f64_zero)
  /\ (forall whole g num,
        FindStringSubmatch MainGo.aigPattern msg = [whole; g; num] ->
        (snd (strconv_ParseFloat num) = true ->
           MainGo.extractAIGRatio MainGo.aigPattern msg = f64_zero)
        /\ (f64_lt (fst (strconv_ParseFloat num)) f64_zero = true ->
              MainGo.extractAIGRatio MainGo.aigPattern msg = f64_zero)
        /\ (snd (strconv_ParseFloat num) = false ->
            f64_lt (fst (strconv_ParseFloat num)) f64_zero = false ->
              MainGo.extractAIGRatio MainGo.aigPattern msg
              = fst (strconv_ParseFloat num))
        /\ (snd (strconv_ParseFloat num) = false ->
            f64_lt f64_one (fst (strconv_ParseFloat num)) = true ->
              MainGo.extractAIGRatio MainGo.aigPattern msg
              = fst (strconv_ParseFloat num)))
  /\ MainGo.extractAIGRatio MainGo.aigPattern "AIG: -0.3" = f64_zero
  /\ MainGo.extractAIGRatio MainGo.aigPattern "AIG: 1.2.3" = f64_zero
  /\ MainGo.extractAIGRatio MainGo.aigPattern "AIG: 1.5" = f64_three_halves.
Proof.
  split; [|split; [|repeat apply conj; vm_compute; reflexivity]].
  - intros E. unfold MainGo.extractAIGRatio. rewrite E. reflexivity.
  - intros whole g num E.
    assert (U : MainGo.extractAIGRatio MainGo.aigPattern msg
                = if snd (strconv_ParseFloat num)
                     || f64_lt (fst (strconv_ParseFloat num)) f64_zero
                  then f64_zero else fst (strconv_ParseFloat num)).
    { unfold MainGo.extractAIGRatio. rewrite E.
      cbn [length Nat.ltb Nat.leb nth].
      destruct (strconv_ParseFloat num) as [v err]. reflexivity. }
    rewrite U. repeat apply conj.
    + intros ->. reflexivity.
    + intros ->. rewrite orb_true_r. reflexivity.
    + intros -> ->. reflexivity.
    + intros -> H. rewrite (f64_gt_one_not_negative _ H). reflexivity.
Qed.

(** A message whose tag parses to 2: the ratio is 2, not clamped. *)
Lemma extractAIGRatio_witness :
  MainGo.extractAIGRatio MainGo.aigPattern "wip AIG:2"
  = S754_finite false 4503599627370496 (-51).
Proof.
  pose proof (extractAIGRatio_cases "wip AIG:2") as (_ & H & _).
  destruct (H "AIG:2" "2" "2") as (_ & _ & _ & G).
  - vm_compute. reflexivity.
  - rewrite G.
    + vm_compute. reflexivity.
    + vm_compute. reflexivity.
    + vm_compute. reflexivity.
Defined.

(* ===================================================================== *)
(** * Malformed chunks (C8) *)
(* ===================================================================== *)

Lemma wrap64_id (z : Z) : inInt64 z -> wrap64 z = z.
Proof.
  unfold inInt64, wrap64, minInt64, maxInt64. intros H.
  rewrite Z.mod_small; lia.
Qed.

Lemma wrap64_inInt64 (z : Z) : inInt64 (wrap64 z).
Proof.
  unfold inInt64, wrap64, minInt64, maxInt64.
  pose proof (Z.mod_pos_bound (z + 2 ^ 63) (2 ^ 64) ltac:(lia)). lia.
Qed.

Lemma aiLines_zero_zero : aiLines 0 f64_zero = 0.
Proof. reflexivity. Qed.

(** Folding the zero [CommitStats] under the empty key. *)
Lemma updateAuthorStats_zero (m : gmap string MainGo.AuthorStats) :
  wfAuthorMap m ->
  (forall k s, m !! k = Some s ->
     MainGo.updateAuthorStats m "" "" zeroCommitStats !! k = Some s)
  /\ (forall k, k <> "" ->
        MainGo.updateAuthorStats m "" "" zeroCommitStats !! k = m !! k).
Proof.
  intros W. unfold MainGo.updateAuthorStats.
  cbn [AddedLines DeletedLines AIGRatio IsFix zeroCommitStats andb].
  rewrite aiLines_zero_zero. split.
  - intros k s Hk. destruct (decide (k = "")) as [->|N].
    + rewrite lookup_insert_eq, Hk. f_equal.
      destruct (W _ _ Hk) as (H1 & H2 & H3 & H4 & H5 & H6).
      destruct s; cbn in *. rewrite !Z.add_0_r, !wrap64_id by assumption.
      reflexivity.
    + rewrite lookup_insert_ne by congruence. exact Hk.
  - intros k N. rewrite lookup_insert_ne by congruence. reflexivity.
Qed.

Lemma addTo_zero (key : string) (m : gmap string Z) :
  wfCounterMap m ->
  wfCounterMap (Part000.addTo key 0 m)
  /\ forall k, default 0 (Part000.addTo key 0 m !! k) = default 0 (m !! k).
Proof.
  intros W. unfold Part000.addTo. rewrite Z.add_0_r.
  assert (R : inInt64 (default 0 (m !! key))).
  { destruct (m !! key) as [v|] eqn:E; cbn.
    - exact (W _ _ E).
    - unfold inInt64, minInt64, maxInt64. lia. }
  rewrite wrap64_id by exact R. split.
  - intros k v. destruct (decide (k = key)) as [->|N].
    + rewrite lookup_insert_eq. intros [= <-]. exact R.
    + rewrite lookup_insert_ne by congruence. apply W.
  - intros k. destruct (decide (k = key)) as [->|N].
    + rewrite lookup_insert_eq. reflexivity.
    + rewrite lookup_insert_ne by congruence. reflexivity.
Qed.

Lemma updateStats_zero (m : gmap string Z) :
  wfCounterMap m ->
  forall k, default 0 (Part000.updateStats m zeroCommitStats !! k) = default 0 (m !! k).
Proof.
  intros W k. unfold Part000.updateStats.
  cbn [AddedLines DeletedLines AIGRatio IsFix zeroCommitStats].
  rewrite aiLines_zero_zero.
  destruct (addTo_zero "totalAddedLines" m W) as [W1 E1].
  destruct (addTo_zero "totalDeletedLines" _ W1) as [W2 E2].
  destruct (addTo_zero "totalAIAddedLines" _ W2) as [W3 E3].
  destruct (addTo_zero "totalAIDeletedLines" _ W3) as [W4 E4].
  rewrite E4, E3, E2, E1. reflexivity.
Qed.

(** C8, as stated, fails in [main.go]: a chunk that matches neither shape
    adds a bucket with the empty key; and one whose first line has five
    parts separated by spaces is counted like a commit. *)
Lemma malformed_chunk_adds_bucket :
  FindStringSubmatch MainGo.commitPattern "garbage" = []
  /\ FindStringSubmatch Part000.commitPattern "garbage" = []
  /\ MainGo.analyzeCommits ["garbage"] = {[ "" := newBucket "" "" ]}
  /\ FindStringSubmatch MainGo.commitPattern (firstLineOf shapelessChunk) = []
  /\ FindStringSubmatch Part000.commitPattern (firstLineOf shapelessChunk) = []
  /\ MainGo.analyzeCommits [shapelessChunk]
     = {[ "c" := {| MainGo.Name := "b"; MainGo.Email := "c";
                    MainGo.TotalAddedLines := 3; MainGo.TotalDeletedLines := 1;
                    MainGo.TotalAIAddedLines := 0; MainGo.TotalAIDeletedLines := 0;
                    MainGo.FixCount := 0; MainGo.FixAndAIGCount := 0 |} ]}.
Proof. repeat apply conj; vm_compute; reflexivity. Qed.

(** C8, amended. A chunk whose first line has fewer than five parts
    separated by spaces ([main.go]), or does not match [commitPattern]
    ([part_000]), gives the zero [CommitStats].  Folding it changes no
    counter: in [main.go] every bucket of the map stays as it is and only
    the empty key can be touched; in [part_000] every counter reads as
    before.  The loop goes on with the next chunk, and nothing is reported. *)
Theorem malformed_chunk_changes_no_counter (chunk : string) :
  ((length (strings_SplitN " " 5 (firstLineOf chunk)) < 5)%nat ->
     (forall aigRe fixRe inc exc,
        MainGo.processCommit chunk aigRe fixRe inc exc = (zeroCommitStats, "", ""))
     /\ forall m, wfAuthorMap m ->
          (forall k s, m !! k = Some s -> MainGo.analyzeStep m chunk !! k = Some s)
          /\ (forall k, k <> "" -> MainGo.analyzeStep m chunk !! k = m !! k)
          /\ forall rest,
               fold_left MainGo.analyzeStep (chunk :: rest) m
               = fold_left MainGo.analyzeStep rest (MainGo.analyzeStep m chunk))
  /\ (FindStringSubmatch Part000.commitPattern (firstLineOf chunk) = [] ->
        (forall aigRe fixRe inc exc,
           Part000.processCommit chunk aigRe fixRe inc exc = zeroCommitStats)
        /\ forall m, wfCounterMap m ->
             (forall k, default 0 (Part000.analyzeStep m chunk !! k)
                        = default 0 (m !! k))
             /\ forall rest,
                  fold_left Part000.analyzeStep (chunk :: rest) m
                  = fold_left Part000.analyzeStep rest (Part000.analyzeStep m chunk)).
Proof.
  split.
  - intros H.
    assert (P : forall aigRe fixRe inc exc,
               MainGo.processCommit chunk aigRe fixRe inc exc = (zeroCommitStats, "", "")).
    { intros. unfold MainGo.processCommit. unfold firstLineOf in H.
      destruct (strings_Split LF chunk) as [|l ls]; [reflexivity|].
      cbn [hd] in H. apply Nat.ltb_lt in H. rewrite H. reflexivity. }
    split; [exact P|].
    intros m W.
    split; [|split; [|intros rest; reflexivity]];
      unfold MainGo.analyzeStep; rewrite P;
      destruct (updateAuthorStats_zero m W) as [U1 U2];
      destruct (String.eqb chunk ""); auto.
  - intros H.
    assert (P : forall aigRe fixRe inc exc,
               Part000.processCommit chunk aigRe fixRe inc exc = zeroCommitStats).
    { intros. unfold Part000.processCommit. unfold firstLineOf in H.
      destruct (strings_Split LF chunk) as [|l ls]; [reflexivity|].
      cbn [hd] in H. rewrite H. reflexivity. }
    split; [exact P|].
    intros m W.
    split; [|intros rest; reflexivity].
    unfold Part000.analyzeStep. rewrite P.
    destruct (String.eqb chunk ""); [reflexivity|].
    intros k. apply updateStats_zero. exact W.
Qed.

Lemma wfAuthorStats_newBucket (author email : string) :
  wfAuthorStats (newBucket author email).
Proof.
  unfold wfAuthorStats, newBucket, inInt64, minInt64, maxInt64. cbn. lia.
Qed.

(** The chunk [garbage] met with a map that has a bucket for Alice: her
    bucket is as before. *)
Lemma malformed_chunk_witness :
  MainGo.analyzeStep {[ "a@x.org" := newBucket "Alice" "a@x.org" ]} "garbage"
    !! "a@x.org"
  = Some (newBucket "Alice" "a@x.org").
Proof.
  pose proof (malformed_chunk_changes_no_counter "garbage") as [H _].
  destruct H as [_ H]; [vm_compute; lia|].
  destruct (H {[ "a@x.org" := newBucket "Alice" "a@x.org" ]}) as (G & _).
  - intros k s E. apply lookup_singleton_Some in E. destruct E as [_ <-].
    apply wfAuthorStats_newBucket.
  - apply G. apply lookup_singleton_eq.
Defined.

(* ===================================================================== *)
(** * Rounding in float64 *)
(* ===================================================================== *)

Lemma iter_pos_nat {A : Type} (f : A -> A) (p : positive) (x : A) :
  SpecFloat.iter_pos f p x = Nat.iter (Pos.to_nat p) f x.
Proof.
  revert x. induction p as [p IH|p IH|]; intros x; cbn [SpecFloat.iter_pos].
  - rewrite !IH. rewrite Pos2Nat.inj_xI.
    replace (S (2 * Pos.to_nat p)) with (Pos.to_nat p + Pos.to_nat p + 1)%nat by lia.
    rewrite !Nat.iter_add. reflexivity.
  - rewrite !IH. rewrite Pos2Nat.inj_xO.
    replace (2 * Pos.to_nat p)%nat with (Pos.to_nat p + Pos.to_nat p)%nat by lia.
    rewrite Nat.iter_add. reflexivity.
  - reflexivity.
Qed.

Lemma shr_1_m (mrs : shr_record) :
  0 <= shr_m mrs -> shr_m (shr_1 mrs) = shr_m mrs / 2.
Proof.
  destruct mrs as [m r s]. cbn [shr_m]. intros H.
  destruct m as [|p|p]; [reflexivity| |lia].
  destruct p as [p|p|]; cbn [shr_1 shr_m].
  - rewrite Pos2Z.inj_xI. apply (Z.div_unique _ 2 _ 1); lia.
  - rewrite Pos2Z.inj_xO. apply (Z.div_unique _ 2 _ 0); lia.
  - reflexivity.
Qed.

Lemma shr_1_r (mrs : shr_record) :
  0 <= shr_m mrs -> shr_r (shr_1 mrs) = Z.odd (shr_m mrs).
Proof.
  destruct mrs as [m r s]. cbn [shr_m]. intros H.
  destruct m as [|p|p]; [reflexivity| |lia].
  destruct p as [p|p|]; reflexivity.
Qed.

Lemma shr_iter_m (n : nat) (mrs : shr_record) :
  0 <= shr_m mrs ->
  shr_m (Nat.iter n shr_1 mrs) = shr_m mrs / 2 ^ Z.of_nat n.
Proof.
  intros H. induction n as [|n IH].
  - cbn. rewrite Z.div_1_r. reflexivity.
  - rewrite Nat.iter_succ. rewrite shr_1_m.
    + rewrite IH. rewrite Nat2Z.inj_succ, Z.pow_succ_r by lia.
      rewrite Z.div_div by lia. f_equal. lia.
    + rewrite IH. apply Z.div_pos; lia.
Qed.

Lemma shr_iter_r (n : nat) (mrs : shr_record) :
  0 <= shr_m mrs ->
  shr_r (Nat.iter (S n) shr_1 mrs) = Z.odd (shr_m mrs / 2 ^ Z.of_nat n).
Proof.
  intros H. rewrite Nat.iter_succ. rewrite shr_1_r.
  - rewrite shr_iter_m by exact H. reflexivity.
  - rewrite shr_iter_m by exact H. apply Z.div_pos; lia.
Qed.

Lemma round_nearest_even_bounds (mrs : shr_record) :
  let m1 := round_nearest_even (shr_m mrs) (loc_of_shr_record mrs) in
  shr_m mrs <= m1 <= shr_m mrs + (if shr_r mrs then 1 else 0).
Proof.
  destruct mrs as [m r s]. cbn [shr_m shr_r loc_of_shr_record].
  destruct r, s; cbn [round_nearest_even]; try lia.
  destruct (Z.even m); lia.
Qed.

(** What one right shift by [p] bits followed by the rounding gives. *)
Lemma shr_round_upper (m : Z) (p : positive) :
  0 <= m ->
  let mrs := SpecFloat.iter_pos shr_1 p (Build_shr_record m false false) in
  let m1 := round_nearest_even (shr_m mrs) (loc_of_shr_record mrs) in
  0 <= m1 /\ 2 * m1 * 2 ^ Z.pos p <= 2 * m + 2 ^ Z.pos p.
Proof.
  intros H mrs m1.
  pose proof (round_nearest_even_bounds mrs) as B. cbv zeta in B. fold m1 in B.
  clearbody m1.
  assert (Q : shr_m mrs = m / 2 ^ Z.pos p).
  { unfold mrs. rewrite iter_pos_nat, shr_iter_m by exact H.
    cbn [shr_m]. rewrite positive_nat_Z. reflexivity. }
  assert (R : shr_r mrs = Z.odd (m / 2 ^ (Z.pos p - 1))).
  { unfold mrs. rewrite iter_pos_nat.
    destruct (Pos.to_nat p) as [|k] eqn:E; [lia|].
    rewrite shr_iter_r by exact H. cbn [shr_m]. do 3 f_equal. lia. }
  rewrite Q, R in B.
  assert (P2 : 2 ^ Z.pos p = 2 * 2 ^ (Z.pos p - 1)).
  { rewrite <- Z.pow_succ_r by lia. f_equal. lia. }
  assert (Pp : 0 < 2 ^ (Z.pos p - 1)) by (apply Z.pow_pos_nonneg; lia).
  set (h := 2 ^ (Z.pos p - 1)) in *.
  pose proof (Z.div_mod m h ltac:(lia)) as D.
  pose proof (Z.mod_pos_bound m h ltac:(lia)) as Mb.
  set (a := m / h) in *.
  assert (Qa : m / 2 ^ Z.pos p = a / 2).
  { rewrite P2. unfold a. rewrite Z.mul_comm. rewrite <- Z.div_div by lia. reflexivity. }
  rewrite Qa in B.
  assert (A0 : 0 <= a) by (apply Z.div_pos; lia).
  pose proof (Z.div_mod a 2 ltac:(lia)) as Da.
  pose proof (Z.mod_pos_bound a 2 ltac:(lia)) as Ma.
  split.
  - assert (0 <= a / 2) by (apply Z.div_pos; lia). lia.
  - rewrite P2. set (q := a / 2) in *.
    destruct (Z.odd a) eqn:O.
    + assert (M1 : m1 * h <= (q + 1) * h)
        by (apply Z.mul_le_mono_nonneg_r; lia).
      rewrite Zmod_odd, O in Da.
      assert (Ha : h * a = 2 * (q * h) + h) by (rewrite Da; ring).
      lia.
    + assert (M1 : m1 * h <= q * h)
        by (apply Z.mul_le_mono_nonneg_r; lia).
      assert (Ha : q * h * 2 <= h * a) by nia. lia.
Qed.

(** The second shift of [binary_round_aux], which makes room for a carry,
    only drops bits. *)
Lemma shr_fexp_exact_lower (m1 e1 : Z) :
  0 <= m1 ->
  let r := shr_fexp prec64 emax64 m1 e1 loc_Exact in
  0 <= shr_m (fst r) /\ e1 <= snd r
  /\ shr_m (fst r) * 2 ^ (snd r - e1) <= m1.
Proof.
  intros H. unfold shr_fexp, shr. cbn [shr_record_of_loc].
  destruct (fexp prec64 emax64 (Zdigits2 m1 + e1) - e1) as [|p|p] eqn:E;
    cbn [fst snd shr_m].
  - rewrite Z.sub_diag. cbn. lia.
  - rewrite iter_pos_nat, shr_iter_m by exact H. cbn [shr_m].
    rewrite positive_nat_Z.
    replace (e1 + Z.pos p - e1) with (Z.pos p) by lia.
    assert (0 < 2 ^ Z.pos p) by (apply Z.pow_pos_nonneg; lia).
    split; [apply Z.div_pos; lia|]. split; [lia|].
    rewrite Z.mul_comm. apply Z.mul_div_le. lia.
  - rewrite Z.sub_diag. cbn. lia.
Qed.

(** The result of rounding the positive number [m * 2^e]: a zero, or a
    mantissa and an exponent, which make a finite number or, when the
    exponent is too large, an infinity.  The result exceeds the number by
    half a unit of the rounding exponent at most. *)
Lemma binary_round_aux_upper (s : bool) (m : positive) (e : Z) :
  let e1 := Z.max e (fexp prec64 emax64 (Zdigits2 (Z.pos m) + e)) in
  let res := binary_round_aux prec64 emax64 s (Z.pos m) e loc_Exact in
  res = S754_zero s
  \/ exists m' e',
       (res = S754_finite s m' e' /\ e' <= emax64 - prec64
        \/ res = S754_infinity s /\ emax64 - prec64 < e')
       /\ e1 <= e'
       /\ 2 * Z.pos m' * 2 ^ (e' - e)
          <= 2 * Z.pos m + (if e <? e1 then 2 ^ (e1 - e) else 0).
Proof.
  intros e1 res.
  assert (S1 : exists m1,
             (let '(mrs', e') := shr_fexp prec64 emax64 (Z.pos m) e loc_Exact in
              (round_nearest_even (shr_m mrs') (loc_of_shr_record mrs'), e'))
             = (m1, e1)
             /\ 0 <= m1
             /\ 2 * m1 * 2 ^ (e1 - e)
                <= 2 * Z.pos m + (if e <? e1 then 2 ^ (e1 - e) else 0)).
  { unfold shr_fexp, shr. cbn [shr_record_of_loc]. unfold e1.
    destruct (fexp prec64 emax64 (Zdigits2 (Z.pos m) + e) - e) as [|p|p] eqn:E.
    - exists (Z.pos m). rewrite Z.max_l by lia.
      rewrite Z.ltb_irrefl, Z.sub_diag. cbn. split; [reflexivity|lia].
    - pose proof (shr_round_upper (Z.pos m) p ltac:(lia)) as [U0 U1].
      eexists. split; [|split; [exact U0|]].
      + f_equal. lia.
      + rewrite Z.max_r by lia.
        replace (fexp prec64 emax64 (Zdigits2 (Z.pos m) + e) - e) with (Z.pos p).
        destruct (e <? fexp prec64 emax64 (Zdigits2 (Z.pos m) + e)) eqn:L;
          [exact U1|apply Z.ltb_ge in L; lia].
    - exists (Z.pos m). rewrite Z.max_l by lia.
      rewrite Z.ltb_irrefl, Z.sub_diag. cbn. split; [reflexivity|lia]. }
  destruct S1 as (m1 & E1 & P1 & B1).
  unfold res, binary_round_aux.
  destruct (shr_fexp prec64 emax64 (Z.pos m) e loc_Exact) as [mrs' e'].
  injection E1 as Em Ee. rewrite Em, Ee. clear Em Ee mrs' e'.
  pose proof (shr_fexp_exact_lower m1 e1 P1) as (L0 & L1 & L2).
  destruct (shr_fexp prec64 emax64 m1 e1 loc_Exact) as [mrs'' e''].
  cbn [fst snd] in L0, L1, L2.
  destruct (shr_m mrs'') as [|m''|m''] eqn:M; [left; reflexivity| |lia].
  right. exists m'', e''. split; [|split; [exact L1|]].
  - destruct (e'' <=? emax64 - prec64) eqn:L.
    + left. split; [reflexivity|apply Z.leb_le; exact L].
    + right. split; [reflexivity|apply Z.leb_gt; exact L].
  - replace (e'' - e) with ((e'' - e1) + (e1 - e)) by lia.
    assert (0 <= e1 - e) by (unfold e1; lia).
    rewrite Z.pow_add_r by lia.
    assert (0 < 2 ^ (e1 - e)) by (apply Z.pow_pos_nonneg; lia).
    assert (Z.pos m'' * 2 ^ (e'' - e1) * 2 ^ (e1 - e) <= m1 * 2 ^ (e1 - e))
      by (apply Z.mul_le_mono_nonneg_r; lia).
    lia.
Qed.

Lemma digits2_pos_bounds (p : positive) :
  2 ^ (Z.pos (digits2_pos p) - 1) <= Z.pos p < 2 ^ Z.pos (digits2_pos p).
Proof.
  induction p as [p IH|p IH|]; cbn [digits2_pos].
  - rewrite Pos2Z.inj_succ, (Pos2Z.inj_xI p).
    replace (Z.succ (Z.pos (digits2_pos p)) - 1)
      with (Z.succ (Z.pos (digits2_pos p) - 1)) by lia.
    rewrite !Z.pow_succ_r by lia. lia.
  - rewrite Pos2Z.inj_succ, (Pos2Z.inj_xO p).
    replace (Z.succ (Z.pos (digits2_pos p)) - 1)
      with (Z.succ (Z.pos (digits2_pos p) - 1)) by lia.
    rewrite !Z.pow_succ_r by lia. lia.
  - cbn. lia.
Qed.

Lemma digits2_pos_le (p : positive) (k : Z) :
  0 <= k -> Z.pos p < 2 ^ k -> Z.pos (digits2_pos p) <= k.
Proof.
  intros K H. destruct (Z_le_gt_dec (Z.pos (digits2_pos p)) k) as [L|G]; [exact L|].
  exfalso. pose proof (digits2_pos_bounds p) as [B _].
  assert (2 ^ k <= 2 ^ (Z.pos (digits2_pos p) - 1)) by (apply Z.pow_le_mono_r; lia).
  lia.
Qed.

Lemma iter_xO_value (m d : positive) :
  Z.pos (Pos.iter xO m d) = Z.pos m * 2 ^ Z.pos d.
Proof.
  induction d as [|d IH] using Pos.peano_ind.
  - cbn [Pos.iter]. rewrite (Pos2Z.inj_xO m). change (2 ^ 1) with 2. lia.
  - rewrite Pos.iter_succ, (Pos2Z.inj_xO (Pos.iter xO m d)), IH, Pos2Z.inj_succ,
      Z.pow_succ_r by lia.
    ring.
Qed.

Lemma iter_xO_digits (m d : positive) :
  Z.pos (digits2_pos (Pos.iter xO m d)) = Z.pos (digits2_pos m) + Z.pos d.
Proof.
  induction d as [|d IH] using Pos.peano_ind.
  - cbn [Pos.iter digits2_pos]. lia.
  - rewrite Pos.iter_succ. cbn [digits2_pos]. rewrite Pos2Z.inj_succ, IH. lia.
Qed.

(** A number that needs no shift is returned as it is. *)
Lemma binary_round_aux_exact (s : bool) (m : positive) (e : Z) :
  fexp prec64 emax64 (Z.pos (digits2_pos m) + e) <= e ->
  e <= emax64 - prec64 ->
  binary_round_aux prec64 emax64 s (Z.pos m) e loc_Exact = S754_finite s m e.
Proof.
  intros F E. unfold binary_round_aux, shr_fexp, shr.
  cbn [shr_record_of_loc Zdigits2].
  destruct (fexp prec64 emax64 (Z.pos (digits2_pos m) + e) - e) as [|p|p] eqn:D;
    [|lia|];
    cbn [shr_m loc_of_shr_record round_nearest_even Zdigits2];
    rewrite D; cbn [shr_m];
    apply Z.leb_le in E; rewrite E; reflexivity.
Qed.

(** The conversion of a positive integer below [2^53] is exact. *)
Lemma binary_round_int (s : bool) (n : positive) :
  Z.pos n < 2 ^ 53 ->
  exists mz ez,
    binary_round prec64 emax64 s n 0 = S754_finite s mz ez
    /\ -52 <= ez <= 0 /\ Z.pos mz = Z.pos n * 2 ^ (- ez).
Proof.
  intros H.
  pose proof (digits2_pos_le n 53 ltac:(lia) H) as D.
  assert (D1 : 1 <= Z.pos (digits2_pos n)) by lia.
  unfold binary_round, shl_align.
  assert (Fx : fexp prec64 emax64 (Z.pos (digits2_pos n) + 0)
               = Z.pos (digits2_pos n) - 53).
  { unfold fexp, emin, prec64, emax64. lia. }
  rewrite Fx.
  destruct (Z.pos (digits2_pos n) - 53 - 0) as [|d|d] eqn:E; [|lia|].
  - exists n, 0. split; [|split; [lia|cbn; lia]].
    apply binary_round_aux_exact.
    + unfold fexp, emin, prec64, emax64. lia.
    + unfold prec64, emax64. lia.
  - exists (Pos.iter xO n d), (Z.pos (digits2_pos n) - 53).
    split; [|split; [lia|]].
    + apply binary_round_aux_exact.
      * rewrite iter_xO_digits. unfold fexp, emin, prec64, emax64. lia.
      * unfold prec64, emax64. lia.
    + rewrite iter_xO_value. do 2 f_equal. lia.
Qed.

Lemma int_of_float64_exact (s : bool) (mz : positive) (ez z : Z) :
  ez <= 0 -> Z.pos mz = z * 2 ^ (- ez) -> z <= 2 ^ 53 ->
  int_of_float64 (S754_finite s mz ez) = if s then - z else z.
Proof.
  intros E V Z53.
  assert (P : 0 < 2 ^ (- ez)) by (apply Z.pow_pos_nonneg; lia).
  assert (Z0 : 0 < z) by nia.
  assert (T : truncAbs mz ez = z).
  { unfold truncAbs. destruct (0 <=? ez) eqn:L.
    - apply Z.leb_le in L. assert (ez = 0) as -> by lia. cbn in *. lia.
    - rewrite V. apply Z.div_mul. lia. }
  unfold int_of_float64. rewrite T.
  assert (R : forall v, - 2 ^ 53 <= v <= 2 ^ 53 ->
                (minInt64 <=? v) && (v <=? maxInt64) = true).
  { intros v Hv. unfold minInt64, maxInt64. apply andb_true_intro. split; apply Z.leb_le; lia. }
  destruct s; rewrite R by lia; reflexivity.
Qed.

(** Converting an integer of at most 53 bits to float64 and back gives the
    integer. *)
Lemma int_of_float64_of_int (z : Z) :
  0 <= z <= 2 ^ 53 -> int_of_float64 (float64_of_int z) = z.
Proof.
  intros [L U]. unfold float64_of_int, binary_normalize.
  destruct z as [|n|n]; [reflexivity| |lia].
  destruct (Z.eq_dec (Z.pos n) (2 ^ 53)) as [E|N].
  - injection E as ->. vm_compute. reflexivity.
  - destruct (binary_round_int false n ltac:(lia)) as (mz & ez & -> & B & V).
    apply (int_of_float64_exact false mz ez (Z.pos n)); lia.
Qed.

Lemma pow2_pos (k : Z) : 0 <= k -> 0 < 2 ^ k.
Proof. intros. apply Z.pow_pos_nonneg; lia. Qed.

Lemma roundHalfAwayAbs_nonneg (m : positive) (e : Z) : 0 <= roundHalfAwayAbs m e.
Proof.
  unfold roundHalfAwayAbs. destruct (0 <=? e) eqn:L.
  - apply Z.leb_le in L. pose proof (pow2_pos e L). lia.
  - apply Z.leb_gt in L. apply Z.div_pos.
    + pose proof (pow2_pos (- e - 1) ltac:(lia)). lia.
    + apply pow2_pos. lia.
Qed.

(** The product of two positive numbers whose exact value [m * 2^e] is at
    most the integer [n], rounded to a float64 and then to an integer. *)
Lemma round_product_le (m : positive) (e n : Z) :
  e < 0 -> 0 <= n <= 2 ^ 53 ->
  Z.pos m <= n * 2 ^ (- e) -> Z.pos m < 2 ^ (53 - e) ->
  0 <= int_of_float64
         (math_Round (binary_round_aux prec64 emax64 false (Z.pos m) e loc_Exact))
    <= n.
Proof.
  intros E N H2 H3.
  pose proof (binary_round_aux_upper false m e) as U. cbv zeta in U.
  cbn [Zdigits2] in U.
  pose proof (digits2_pos_le m (53 - e) ltac:(lia) H3) as D.
  set (e1 := Z.max e (fexp prec64 emax64 (Z.pos (digits2_pos m) + e))) in *.
  assert (K1 : e <= e1 <= 0).
  { unfold e1, fexp, emin, prec64, emax64. lia. }
  assert (PA : 0 < 2 ^ (- e)) by (apply pow2_pos; lia).
  assert (HH : (if e <? e1 then 2 ^ (e1 - e) else 0) <= 2 ^ (e1 - e)).
  { destruct (e <? e1); [lia|]. pose proof (pow2_pos (e1 - e) ltac:(lia)). lia. }
  destruct U as [-> | (m' & e' & C & L1 & B)]; [cbn; lia|].
  assert (Pd : 0 < 2 ^ (e' - e)) by (apply pow2_pos; lia).
  assert (P1 : 2 ^ (e1 - e) <= 2 ^ (e' - e)) by (apply Z.pow_le_mono_r; lia).
  destruct (Z_lt_le_dec e' 0) as [Neg|Pos].
  - (* the product has a fraction *)
    assert (F : 2 ^ (- e) = 2 ^ (- e') * 2 ^ (e' - e)).
    { rewrite <- Z.pow_add_r by lia. f_equal; lia. }
    assert (PB : 0 < 2 ^ (- e')) by (apply pow2_pos; lia).
    assert (PB2 : 2 ^ (- e') = 2 * 2 ^ (- e' - 1)).
    { rewrite <- Z.pow_succ_r by lia. f_equal; lia. }
    assert (PB1 : 0 < 2 ^ (- e' - 1)) by (apply pow2_pos; lia).
    assert (M : Z.pos m' <= n * 2 ^ (- e')).
    { assert (2 * Z.pos m' * 2 ^ (e' - e)
              <= (2 * (n * 2 ^ (- e')) + 1) * 2 ^ (e' - e)) by nia.
      assert (2 * Z.pos m' <= 2 * (n * 2 ^ (- e')) + 1)
        by (apply Z.mul_le_mono_pos_r with (p := 2 ^ (e' - e)); lia).
      lia. }
    destruct C as [[-> C] | [_ C]]; [|unfold emax64, prec64 in C; lia].
    unfold math_Round. destruct (0 <=? e') eqn:L; [apply Z.leb_le in L; lia|].
    set (z := roundHalfAwayAbs m' e').
    assert (Zb : 0 <= z <= n).
    { split; [apply roundHalfAwayAbs_nonneg|].
      unfold z, roundHalfAwayAbs. rewrite L.
      apply Z.lt_succ_r. apply Z.div_lt_upper_bound; nia. }
    change (binary_normalize prec64 emax64 z 0 false) with (float64_of_int z).
    rewrite int_of_float64_of_int by lia. exact Zb.
  - (* the product is an integer *)
    assert (F : 2 ^ (e' - e) = 2 ^ e' * 2 ^ (- e)).
    { rewrite <- Z.pow_add_r by lia. f_equal; lia. }
    assert (PE : 0 < 2 ^ e') by (apply pow2_pos; lia).
    destruct C as [[-> C] | [_ C]].
    + assert (P1' : 2 ^ (e1 - e) <= 2 ^ (- e)) by (apply Z.pow_le_mono_r; lia).
      assert (T : Z.pos m' * 2 ^ e' <= n).
      { assert (2 * (Z.pos m' * 2 ^ e') * 2 ^ (- e) < (2 * n + 2) * 2 ^ (- e)) by nia.
        assert (2 * (Z.pos m' * 2 ^ e') < 2 * n + 2)
          by (apply Z.mul_lt_mono_pos_r with (p := 2 ^ (- e)); lia).
        lia. }
      unfold math_Round. apply Z.leb_le in Pos. rewrite Pos.
      unfold int_of_float64, truncAbs. rewrite Pos.
      assert (R : (minInt64 <=? Z.pos m' * 2 ^ e') && (Z.pos m' * 2 ^ e' <=? maxInt64) = true).
      { unfold minInt64, maxInt64. apply andb_true_intro.
        split; apply Z.leb_le; lia. }
      rewrite R. lia.
    + exfalso. unfold emax64, prec64 in C.
      assert (2 ^ (54 - e) <= 2 ^ (e' - e)) by (apply Z.pow_le_mono_r; lia).
      assert (P54 : 2 ^ (54 - e) = 2 * 2 ^ (53 - e)).
      { rewrite <- Z.pow_succ_r by lia. f_equal; lia. }
      assert (P1' : 2 ^ (e1 - e) <= 2 ^ (53 - e)) by (apply Z.pow_le_mono_r; lia).
      nia.
Qed.

Lemma truncAbs_nonneg (m : positive) (e : Z) : 0 <= truncAbs m e.
Proof.
  unfold truncAbs. destruct (0 <=? e) eqn:L.
  - apply Z.leb_le in L. pose proof (pow2_pos e L). lia.
  - apply Z.leb_gt in L. apply Z.div_pos; [lia|]. apply pow2_pos. lia.
Qed.

Lemma int_of_float64_negative (m : positive) (e : Z) :
  int_of_float64 (S754_finite true m e) <= 0.
Proof.
  unfold int_of_float64. pose proof (truncAbs_nonneg m e).
  destruct ((minInt64 <=? - truncAbs m e) && (- truncAbs m e <=? maxInt64));
    unfold minInt64; lia.
Qed.

Lemma binary_round_aux_negative (m : positive) (e : Z) :
  int_of_float64 (binary_round_aux prec64 emax64 true (Z.pos m) e loc_Exact) <= 0.
Proof.
  pose proof (binary_round_aux_upper true m e) as U. cbv zeta in U.
  destruct U as [-> | (m' & e' & [[-> _] | [-> _]] & _)].
  - cbn. lia.
  - apply int_of_float64_negative.
  - cbn. unfold minInt64. lia.
Qed.

Lemma math_Round_binary_round_aux_negative (m : positive) (e : Z) :
  int_of_float64
    (math_Round (binary_round_aux prec64 emax64 true (Z.pos m) e loc_Exact)) <= 0.
Proof.
  pose proof (binary_round_aux_upper true m e) as U. cbv zeta in U.
  destruct U as [-> | (m' & e' & [[-> _] | [-> _]] & _)].
  - cbn. lia.
  - unfold math_Round. destruct (0 <=? e'); [apply int_of_float64_negative|].
    pose proof (roundHalfAwayAbs_nonneg m' e') as Z0.
    destruct (roundHalfAwayAbs m' e') as [|p|p]; [change (0 <= 0); lia| |lia].
    change (binary_normalize prec64 emax64 (- Z.pos p) 0 true)
      with (binary_round prec64 emax64 true p 0).
    unfold binary_round.
    destruct (shl_align p 0 (fexp prec64 emax64 (Z.pos (digits2_pos p) + 0)))
      as [mz ez].
    apply binary_round_aux_negative.
  - cbn. unfold minInt64. lia.
Qed.

Lemma SFleb_finite_positive (m1 : positive) (e1 : Z) (m2 : positive) (e2 : Z) :
  SFleb (S754_finite false m1 e1) (S754_finite false m2 e2) = true ->
  e1 < e2 \/ (e1 = e2 /\ Z.pos m1 <= Z.pos m2).
Proof.
  unfold SFleb, SFcompare.
  destruct (Z.compare_spec e1 e2) as [E|E|E]; [|left; exact E|discriminate].
  intros L. right. split; [exact E|].
  fold (Pos.compare m1 m2) in L.
  destruct (Pos.compare_spec m1 m2) as [P|P|P]; [lia|lia|discriminate L].
Qed.

(** A float64 that is a number, positive and at most 1. *)
Lemma le_one_bounds (mr : positive) (er : Z) :
  bounded prec64 emax64 mr er = true ->
  f64_le (S754_finite false mr er) f64_one = true ->
  er <= -52 /\ Z.pos mr <= 2 ^ (- er)
  /\ (Z.pos mr = 2 ^ (- er) -> S754_finite false mr er = f64_one).
Proof.
  intros B L. unfold bounded, canonical_mantissa in B.
  apply andb_prop in B. destruct B as [C _]. apply Z.eqb_eq in C.
  pose proof (digits2_pos_bounds mr) as [_ Dm].
  assert (D : Z.pos (digits2_pos mr) <= 53).
  { unfold fexp, emin, prec64, emax64 in C. lia. }
  assert (M53 : Z.pos mr < 2 ^ 53).
  { assert (2 ^ Z.pos (digits2_pos mr) <= 2 ^ 53) by (apply Z.pow_le_mono_r; lia). lia. }
  apply (SFleb_finite_positive mr er 4503599627370496 (-52)) in L.
  destruct L as [E | [E P]].
  - split; [lia|].
    assert (2 ^ 53 <= 2 ^ (- er)) by (apply Z.pow_le_mono_r; lia).
    split; [lia|]. intros X. lia.
  - subst er. change (2 ^ (- -52)) with (Z.pos 4503599627370496).
    split; [lia|]. split; [lia|].
    intros X. injection X as ->. reflexivity.
Qed.

(** Rounding a float64 with a fraction to the nearest integer, halves away
    from zero, and converting it. *)
Lemma math_Round_half_away (s : bool) (m : positive) (e : Z) :
  e < 0 -> Z.pos m < 2 ^ 53 ->
  let k := roundHalfAwayAbs m e in
  int_of_float64 (math_Round (S754_finite s m e)) = (if s then - k else k)
  /\ 2 * Z.pos m - 2 ^ (- e) < 2 * k * 2 ^ (- e) <= 2 * Z.pos m + 2 ^ (- e).
Proof.
  intros E M k.
  assert (PB2 : 2 ^ (- e) = 2 * 2 ^ (- e - 1)).
  { rewrite <- Z.pow_succ_r by lia. f_equal; lia. }
  assert (PB1 : 0 < 2 ^ (- e - 1)) by (apply pow2_pos; lia).
  set (h := 2 ^ (- e - 1)) in *.
  assert (K : k = (Z.pos m + h) / (2 * h)).
  { unfold k, roundHalfAwayAbs. destruct (0 <=? e) eqn:L; [apply Z.leb_le in L; lia|].
    fold h. rewrite PB2. reflexivity. }
  pose proof (Z.div_mod (Z.pos m + h) (2 * h) ltac:(lia)) as D.
  pose proof (Z.mod_pos_bound (Z.pos m + h) (2 * h) ltac:(lia)) as Mb.
  rewrite <- K in D.
  assert (K0 : 0 <= k) by apply roundHalfAwayAbs_nonneg.
  assert (K53 : k < 2 ^ 53) by nia.
  split; [|rewrite PB2; nia].
  unfold math_Round. destruct (0 <=? e) eqn:L; [apply Z.leb_le in L; lia|].
  fold k. destruct s.
  - destruct k as [|p|p]; [reflexivity| |lia].
    change (binary_normalize prec64 emax64 (- Z.pos p) 0 true)
      with (binary_round prec64 emax64 true p 0).
    destruct (binary_round_int true p K53) as (mz & ez & -> & B & V).
    apply (int_of_float64_exact true mz ez (Z.pos p)); lia.
  - change (binary_normalize prec64 emax64 k 0 false) with (float64_of_int k).
    apply int_of_float64_of_int. lia.
Qed.

(** The AI share of [n] lines never exceeds [n] when the ratio is at most 1
    and [n] is a natural number that float64 holds exactly. *)
Lemma aiLines_le (n : Z) (ratio : float64) :
  valid_binary prec64 emax64 ratio = true ->
  0 <= n <= 2 ^ 53 ->
  f64_le ratio f64_one = true ->
  aiLines n ratio <= n.
Proof.
  intros V N L. unfold aiLines, f64_mul.
  destruct (Z.eq_dec n 0) as [->|N0].
  { destruct ratio as [s|s| |s m e]; try discriminate L;
      try (destruct s; cbn; unfold minInt64; lia). }
  assert (X : exists mx ex,
             float64_of_int n = S754_finite false mx ex
             /\ ex <= 1 /\ n * 2 ^ (1 - ex) = 2 * Z.pos mx
             /\ (n < 2 ^ 53 \/ mx = 4503599627370496%positive /\ ex = 1)).
  { destruct (Z.eq_dec n (2 ^ 53)) as [->|N53].
    - exists 4503599627370496%positive, 1.
      split; [vm_compute; reflexivity|]. split; [lia|].
      split; [vm_compute; reflexivity|]. right. split; reflexivity.
    - destruct n as [|pn|pn]; try lia.
      destruct (binary_round_int false pn ltac:(lia)) as (mz & ez & Eq & B & Vz).
      exists mz, ez. split; [exact Eq|]. split; [lia|]. split; [|left; lia].
      rewrite Vz. replace (1 - ez) with (Z.succ (- ez)) by lia.
      rewrite Z.pow_succ_r by lia. ring. }
  destruct X as (mx & ex & -> & Ex & Vx & Sx).
  destruct ratio as [s|s| |s mr er]; try discriminate L.
  - (* zero *) cbn. lia.
  - (* minus infinity *) destruct s; [|discriminate L]. cbn. unfold minInt64. lia.
  - destruct s.
    + (* a negative ratio *)
      cbn [SFmul xorb].
      pose proof (math_Round_binary_round_aux_negative (mx * mr) (ex + er)). lia.
    + cbn [valid_binary] in V.
      destruct (le_one_bounds mr er V L) as (Er & Mr & One).
      assert (PA : 0 < 2 ^ (- er)) by (apply pow2_pos; lia).
      assert (PX : 0 < 2 ^ (1 - ex)) by (apply pow2_pos; lia).
      assert (PE : 0 < 2 ^ (- (ex + er))) by (apply pow2_pos; lia).
      assert (F : 2 * 2 ^ (- (ex + er)) = 2 ^ (1 - ex) * 2 ^ (- er)).
      { rewrite <- Z.pow_succ_r by lia. rewrite <- Z.pow_add_r by lia. f_equal; lia. }
      assert (H2 : Z.pos (mx * mr) <= n * 2 ^ (- (ex + er))).
      { rewrite Pos2Z.inj_mul.
        assert (2 * Z.pos mx * Z.pos mr <= 2 * Z.pos mx * 2 ^ (- er))
          by (apply Z.mul_le_mono_nonneg_l; lia).
        assert (2 * Z.pos mx * 2 ^ (- er) = 2 * (n * 2 ^ (- (ex + er)))).
        { rewrite <- Vx. rewrite <- Z.mul_assoc, <- F. ring. }
        lia. }
      assert (P53 : 2 ^ (53 - (ex + er)) = 2 ^ 53 * 2 ^ (- (ex + er))).
      { rewrite <- Z.pow_add_r by lia. f_equal; lia. }
      destruct Sx as [S53 | [Emx Eex]].
      * cbn [SFmul xorb].
        apply round_product_le; [lia|lia|exact H2|]. nia.
      * subst ex. change (2 ^ (1 - 1)) with 1 in Vx.
        assert (Mx : Z.pos mx = 2 ^ 52) by (rewrite Emx; reflexivity).
        assert (N53 : n = 2 ^ 53) by lia.
        destruct (Z.eq_dec (Z.pos mr) (2 ^ (- er))) as [Q|Q].
        -- rewrite (One Q), Emx, N53. vm_compute. intros X; discriminate X.
        -- cbn [SFmul xorb].
           apply round_product_le; [lia|lia|exact H2|].
           rewrite Pos2Z.inj_mul, Mx.
           assert (P52 : 2 ^ (53 - (1 + er)) = 2 ^ 52 * 2 ^ (- er)).
           { rewrite <- Z.pow_add_r by lia. f_equal; lia. }
           rewrite P52.
           apply Z.mul_lt_mono_pos_l; [apply pow2_pos|]; lia.
Qed.

(** No line, no AI line, whatever the (finite) ratio. *)
Lemma aiLines_zero (ratio : float64) :
  isFinite ratio = true -> aiLines 0 ratio = 0.
Proof.
  destruct ratio as [s|s| |s m e]; try discriminate; intros _; destruct s; reflexivity.
Qed.

Lemma fexp64 (z : Z) : fexp prec64 emax64 z = Z.max (z - 53) (-1074).
Proof. reflexivity. Qed.

Lemma digits2_pos_unique (p : positive) (k : Z) :
  2 ^ (k - 1) <= Z.pos p < 2 ^ k -> 1 <= k -> Z.pos (digits2_pos p) = k.
Proof.
  intros [L U] K. pose proof (digits2_pos_bounds p) as [L' U'].
  apply Z.le_antisymm.
  - apply digits2_pos_le; lia.
  - destruct (Z_le_gt_dec k (Z.pos (digits2_pos p))) as [G|G]; [exact G|exfalso].
    assert (2 ^ Z.pos (digits2_pos p) <= 2 ^ (k - 1)) by (apply Z.pow_le_mono_r; lia).
    lia.
Qed.

Lemma digits2_pos_mono (p q : positive) :
  Z.pos p <= Z.pos q -> Z.pos (digits2_pos p) <= Z.pos (digits2_pos q).
Proof.
  intros L. pose proof (digits2_pos_bounds q) as [_ U].
  apply digits2_pos_le; lia.
Qed.

(** The digits of a quotient by a power of two. *)
Lemma digits2_pos_shr (m q : positive) (p : Z) :
  0 < p -> Z.pos q = Z.pos m / 2 ^ p ->
  Z.pos (digits2_pos q) = Z.pos (digits2_pos m) - p.
Proof.
  intros P Q. pose proof (digits2_pos_bounds m) as [L U].
  set (d := Z.pos (digits2_pos m)) in *.
  assert (P2 : 0 < 2 ^ p) by (apply pow2_pos; lia).
  assert (Dp : p < d).
  { destruct (Z_lt_le_dec p d) as [G|G]; [exact G|exfalso].
    assert (2 ^ d <= 2 ^ p) by (apply Z.pow_le_mono_r; lia).
    rewrite Z.div_small in Q by lia. lia. }
  apply digits2_pos_unique; [|lia]. rewrite Q. split.
  - apply Z.div_le_lower_bound; [lia|].
    rewrite <- Z.pow_add_r by lia. replace (p + (d - p - 1)) with (d - 1) by lia. exact L.
  - apply Z.div_lt_upper_bound; [lia|].
    rewrite <- Z.pow_add_r by lia. replace (p + (d - p)) with d by lia. exact U.
Qed.

Lemma shr_fexp_exact_value (m1 e1 : Z) :
  0 <= m1 ->
  let n2 := fexp prec64 emax64 (Zdigits2 m1 + e1) - e1 in
  shr_fexp prec64 emax64 m1 e1 loc_Exact
  = if 0 <? n2
    then (SpecFloat.iter_pos shr_1 (Z.to_pos n2) (Build_shr_record m1 false false),
          e1 + n2)
    else (Build_shr_record m1 false false, e1).
Proof.
  intros H n2. unfold shr_fexp, shr. cbn [shr_record_of_loc]. fold n2.
  destruct n2 as [|p|p]; reflexivity.
Qed.

(* ===================================================================== *)
(** * The AI share of a commit (C7) *)
(* ===================================================================== *)

Lemma int_of_float64_inInt64 (x : float64) : inInt64 (int_of_float64 x).
Proof.
  unfold inInt64, int_of_float64.
  destruct x as [s|s| |s m e]; try (unfold minInt64, maxInt64; lia).
  destruct ((minInt64 <=? (if s then - truncAbs m e else truncAbs m e))
            && ((if s then - truncAbs m e else truncAbs m e) <=? maxInt64)) eqn:R.
  - apply andb_prop in R. destruct R as [R1 R2].
    apply Z.leb_le in R1, R2. lia.
  - unfold minInt64, maxInt64. lia.
Qed.

Lemma aiLines_inInt64 (n : Z) (ratio : float64) : inInt64 (aiLines n ratio).
Proof. apply int_of_float64_inInt64. Qed.

Lemma addTo_lookup_new (k : string) (v : Z) (m : gmap string Z) :
  m !! k = None -> inInt64 v -> Part000.addTo k v m !! k = Some v.
Proof.
  intros E R. unfold Part000.addTo. rewrite E. cbn [default].
  rewrite Z.add_0_l, wrap64_id by exact R. apply lookup_insert_eq.
Qed.

Lemma addTo_lookup_ne (k k' : string) (v : Z) (m : gmap string Z) :
  k <> k' -> Part000.addTo k v m !! k' = m !! k'.
Proof. intros N. unfold Part000.addTo. apply lookup_insert_ne. exact N. Qed.

(** C7, as stated, fails: with the ratio 0 a commit of -1 added lines (a
    count that the file-change test lets through) has 0 AI lines, more than
    its lines; and with the ratio 1 a commit of [2^53 + 3] lines has
    [2^53 + 4] AI lines, because [float64] rounds the count. *)
Lemma aiLines_exceeds_lines :
  f64_le f64_zero f64_one = true
  /\ aiLines (-1) f64_zero = 0
  /\ MainGo.analyzeCommits [negativeCountChunk]
     = {[ "alice@example.com" :=
          {| MainGo.Name := "Alice"; MainGo.Email := "alice@example.com";
             MainGo.TotalAddedLines := -1; MainGo.TotalDeletedLines := 0;
             MainGo.TotalAIAddedLines := 0; MainGo.TotalAIDeletedLines := 0;
             MainGo.FixCount := 0; MainGo.FixAndAIGCount := 0 |} ]}
  /\ aiLines (2 ^ 53 + 3) f64_one = 2 ^ 53 + 4.
Proof. repeat apply conj; vm_compute; reflexivity. Qed.

(** A number whose digits below the exponent of the format are all zero
    is not changed by the rounding: only its spelling is. *)
Lemma binary_round_aux_representable (s : bool) (m : positive) (e : Z) :
  let e' := Z.max e (fexp prec64 emax64 (Z.pos (digits2_pos m) + e)) in
  (2 ^ (e' - e) | Z.pos m) ->
  e' <= emax64 - prec64 ->
  exists m1,
    Z.pos m1 * 2 ^ (e' - e) = Z.pos m
    /\ Z.pos m1 < 2 ^ 53
    /\ binary_round_aux prec64 emax64 s (Z.pos m) e loc_Exact = S754_finite s m1 e'.
Proof.
  intros e' Dv Le. set (d := Z.pos (digits2_pos m)) in *.
  pose proof (digits2_pos_bounds m) as [Lm Um]. fold d in Lm, Um.
  assert (D1 : 1 <= d) by (unfold d; lia).
  destruct (Z_le_gt_dec (fexp prec64 emax64 (d + e)) e) as [A|A].
  - (* no shift *)
    assert (Ee : e' = e) by (unfold e'; lia). rewrite Ee in *.
    exists m. replace (e - e) with 0 by lia. rewrite Z.mul_1_r.
    split; [reflexivity|]. split.
    + assert (d <= 53) by (rewrite fexp64 in A; lia).
      assert (2 ^ d <= 2 ^ 53) by (apply Z.pow_le_mono_r; lia). lia.
    + apply binary_round_aux_exact; [exact A|exact Le].
  - (* a shift by [n] places that drops zeros only *)
    set (n := e' - e) in *.
    assert (En : fexp prec64 emax64 (d + e) - e = n) by (unfold n, e'; lia).
    assert (N0 : 0 < n) by lia.
    assert (P2 : 0 < 2 ^ n) by (apply pow2_pos; lia).
    destruct Dv as [q Q].
    assert (Q0 : 0 < q) by nia.
    destruct q as [|m1|m1]; try lia.
    assert (Qd : Z.pos m1 = Z.pos m / 2 ^ n).
    { rewrite Q. rewrite Z.div_mul by lia. reflexivity. }
    pose proof (digits2_pos_shr m m1 n N0 Qd) as Dq. fold d in Dq.
    exists m1. split; [lia|]. split.
    { pose proof (digits2_pos_bounds m1) as [_ U1].
      assert (Z.pos (digits2_pos m1) <= 53) by (rewrite fexp64 in En; lia).
      assert (2 ^ Z.pos (digits2_pos m1) <= 2 ^ 53) by (apply Z.pow_le_mono_r; lia).
      lia. }
    unfold binary_round_aux.
    rewrite shr_fexp_exact_value by lia. cbv zeta. cbn [Zdigits2]. fold d.
    rewrite En. apply Z.ltb_lt in N0 as N0b. rewrite N0b.
    set (mrs := SpecFloat.iter_pos shr_1 (Z.to_pos n) (Build_shr_record (Z.pos m) false false)).
    assert (Sm : shr_m mrs = Z.pos m1).
    { unfold mrs. rewrite iter_pos_nat, shr_iter_m by (cbn; lia).
      cbn [shr_m]. rewrite positive_nat_Z, Z2Pos.id by lia.
      symmetry. exact Qd. }
    assert (Sr : shr_r mrs = false).
    { unfold mrs. rewrite iter_pos_nat.
      replace (Pos.to_nat (Z.to_pos n)) with (S (Z.to_nat (n - 1))) by lia.
      rewrite shr_iter_r by (cbn; lia). cbn [shr_m].
      rewrite Z2Nat.id by lia. rewrite Q.
      replace (2 ^ n) with (2 * 2 ^ (n - 1)).
      2:{ rewrite <- Z.pow_succ_r by lia. f_equal. lia. }
      rewrite Z.mul_assoc, Z.div_mul by (apply Z.pow_nonzero; lia).
      rewrite Z.odd_mul. cbn. apply andb_false_r. }
    pose proof (round_nearest_even_bounds mrs) as B. cbv zeta in B.
    rewrite Sr, Sm in B.
    assert (R : round_nearest_even (shr_m mrs) (loc_of_shr_record mrs) = Z.pos m1)
      by (rewrite Sm; lia).
    rewrite R. rewrite shr_fexp_exact_value by lia. cbv zeta. cbn [Zdigits2].
    replace (fexp prec64 emax64 (Z.pos (digits2_pos m1) + (e + n)) - (e + n)) with 0.
    2:{ rewrite Dq. replace (d - n + (e + n)) with (d + e) by lia. lia. }
    cbn [Z.ltb Z.compare shr_m].
    replace (e + n) with e' by (unfold n; lia).
    apply Z.leb_le in Le. rewrite Le. reflexivity.
Qed.

Lemma float64_of_int_finite (n : Z) :
  n <> 0 -> Z.abs n < 2 ^ 53 ->
  exists mz ez,
    float64_of_int n = S754_finite (n <? 0) mz ez
    /\ -52 <= ez <= 0 /\ Z.pos mz = Z.abs n * 2 ^ (- ez).
Proof.
  intros N0 B. destruct n as [|p|p]; [congruence| |].
  - destruct (binary_round_int false p B) as (mz & ez & E & R & V).
    exists mz, ez. split; [exact E|]. split; [exact R|exact V].
  - destruct (binary_round_int true p B) as (mz & ez & E & R & V).
    exists mz, ez. split; [exact E|]. split; [exact R|exact V].
Qed.

Lemma valid_binary_exponent (s : bool) (m : positive) (e : Z) :
  valid_binary prec64 emax64 (S754_finite s m e) = true -> -1074 <= e.
Proof.
  cbn [valid_binary]. unfold bounded, canonical_mantissa. intros V.
  apply andb_prop in V. destruct V as [C _]. apply Z.eqb_eq in C.
  rewrite fexp64 in C. lia.
Qed.

(** The half-away rounding of [p * 2^k] does not depend on how the number
    is spelled. *)
Lemma half_away_spelling (p j k : Z) :
  0 <= p -> 0 <= j -> k <= 0 -> j - k > 0 ->
  (p * 2 ^ j + 2 ^ (j - k - 1)) / 2 ^ (j - k)
  = (2 * p + 2 ^ (- k)) / 2 ^ (1 - k).
Proof.
  intros P J K JK.
  assert (Pj : 0 < 2 ^ j) by (apply pow2_pos; lia).
  assert (E1 : 2 ^ (j - k) = 2 ^ (- k) * 2 ^ j)
    by (rewrite <- Z.pow_add_r by lia; f_equal; lia).
  assert (E2 : 2 * 2 ^ (j - k - 1) = 2 ^ (- k) * 2 ^ j).
  { rewrite <- E1. rewrite <- Z.pow_succ_r by lia. f_equal. lia. }
  assert (E3 : 2 ^ (1 - k) = 2 * 2 ^ (- k)).
  { rewrite <- Z.pow_succ_r by lia. f_equal. lia. }
  rewrite <- (Z.div_mul_cancel_l _ _ 2) by (try apply Z.pow_nonzero; lia).
  replace (2 * (p * 2 ^ j + 2 ^ (j - k - 1))) with ((2 * p + 2 ^ (- k)) * 2 ^ j)
    by (rewrite Z.mul_add_distr_l, E2; ring).
  replace (2 * 2 ^ (j - k)) with (2 ^ (1 - k) * 2 ^ j) by (rewrite E1, E3; ring).
  assert (Pk : 0 < 2 ^ (- k)) by (apply pow2_pos; lia).
  apply Z.div_mul_cancel_r; [rewrite E3; lia|lia].
Qed.

(** The AI count for a ratio [q * 2^k] whose product with the count of
    lines has at most 53 bits: the product is exact, and the count is the
    nearest integer, the half going away from zero. *)
Lemma aiLines_dyadic (n : Z) (sr : bool) (mr : positive) (er q k : Z) :
  valid_binary prec64 emax64 (S754_finite sr mr er) = true ->
  0 < q -> er <= k <= 0 ->
  Z.pos mr = q * 2 ^ (k - er) ->
  Z.abs n * q < 2 ^ 53 ->
  int_of_float64
    (math_Round (f64_mul (float64_of_int n) (S754_finite sr mr er)))
  = (if xorb (n <? 0) sr then -1 else 1)
    * ((2 * Z.abs n * q + 2 ^ (- k)) / 2 ^ (1 - k)).
Proof.
  intros V Q K Mr B.
  destruct (Z.eq_dec n 0) as [->|N0].
  { fold (aiLines 0 (S754_finite sr mr er)). rewrite aiLines_zero by reflexivity.
    cbn [Z.abs Z.mul]. rewrite Z.add_0_l.
    rewrite Z.div_small; [lia|].
    split; [apply Z.lt_le_incl, pow2_pos; lia|].
    apply Z.pow_lt_mono_r; lia. }
  pose proof (valid_binary_exponent sr mr er V) as Er.
  assert (Bn : Z.abs n < 2 ^ 53) by nia.
  destruct (float64_of_int_finite n N0 Bn) as (mz & ez & -> & Ez & Vz).
  unfold f64_mul. cbn [SFmul].
  set (s := xorb (n <? 0) sr).
  set (P := Z.abs n * q) in *.
  assert (P0 : 0 < P) by (unfold P; nia).
  set (t := k - er - ez).
  assert (T0 : 0 <= t) by (unfold t; lia).
  assert (Pt : 0 < 2 ^ t) by (apply pow2_pos; lia).
  assert (M : Z.pos (mz * mr) = P * 2 ^ t).
  { rewrite Pos2Z.inj_mul, Vz, Mr. unfold P, t.
    replace (k - er - ez) with (- ez + (k - er)) by lia.
    rewrite Z.pow_add_r by lia. ring. }
  pose proof (digits2_pos_bounds (mz * mr)) as [Ld Ud].
  set (d := Z.pos (digits2_pos (mz * mr))) in *.
  assert (Dt : d <= 53 + t).
  { apply digits2_pos_le; [lia|]. rewrite M, Z.pow_add_r by lia.
    apply Z.mul_lt_mono_pos_r; lia. }
  pose proof (binary_round_aux_representable s (mz * mr) (ez + er)) as R.
  cbv zeta in R. fold d in R. rewrite fexp64 in R.
  set (e' := Z.max (ez + er) (Z.max (d + (ez + er) - 53) (-1074))) in *.
  set (j := t - (e' - (ez + er))).
  assert (J0 : 0 <= j) by (unfold j, e', t in *; lia).
  assert (Je : e' = k - j) by (unfold j, t; lia).
  assert (Pj : 0 < 2 ^ j) by (apply pow2_pos; lia).
  assert (Pe : 0 < 2 ^ (e' - (ez + er))) by (apply pow2_pos; unfold e'; lia).
  assert (Sp : 2 ^ t = 2 ^ j * 2 ^ (e' - (ez + er))).
  { rewrite <- Z.pow_add_r by (unfold e'; lia). f_equal. unfold j. lia. }
  destruct R as (m1 & V1 & B1 & ->).
  { exists (P * 2 ^ j). rewrite M, Sp. ring. }
  { unfold emax64, prec64. lia. }
  assert (M1 : Z.pos m1 = P * 2 ^ j).
  { apply (Z.mul_reg_r _ _ (2 ^ (e' - (ez + er)))); [lia|].
    rewrite V1, M, Sp. ring. }
  replace (2 * Z.abs n * q) with (2 * P) by (unfold P; ring).
  destruct (Z.eq_dec e' 0) as [E0|E0].
  - (* the product is an integer, spelled with the exponent 0 *)
    assert (k = 0 /\ j = 0) as [-> ->] by lia.
    rewrite E0. unfold math_Round. cbn [Z.leb Z.compare].
    rewrite (int_of_float64_exact s m1 0 P); [|lia|rewrite M1; cbn; lia|lia].
    change (2 ^ (- 0)) with 1. change (2 ^ (1 - 0)) with 2.
    replace ((2 * P + 1) / 2) with P.
    2:{ apply Z.div_unique with (r := 1); lia. }
    destruct s; lia.
  - assert (E' : e' < 0) by lia.
    destruct (math_Round_half_away s m1 e' E' B1) as [-> _].
    unfold roundHalfAwayAbs.
    destruct (0 <=? e') eqn:C; [apply Z.leb_le in C; lia|].
    rewrite M1, Je.
    replace (- (k - j) - 1) with (j - k - 1) by lia.
    replace (- (k - j)) with (j - k) by lia.
    rewrite half_away_spelling by lia.
    destruct s; lia.
Qed.

Lemma addTo_lookup_eq (k : string) (v : Z) (m : gmap string Z) :
  Part000.addTo k v m !! k = Some (wrap64 (default 0 (m !! k) + v)).
Proof. unfold Part000.addTo. apply lookup_insert_eq. Qed.

(** C7, amended.  The AI counts that the aggregator adds to its totals are
    [int(math.Round(float64(lines) * ratio))], for the added and for the
    deleted lines, in both files and whatever the totals were.  When the
    ratio is [q * 2^k] with [k <= 0] and the product of [q] with the count
    of lines has at most 53 bits, the multiplication is exact and the AI
    count is the integer nearest to [lines * q * 2^k], the half going away
    from zero: its magnitude is the floor of [|lines| * q * 2^k + 1/2].
    [math.Round] itself rounds to the nearest integer, halves away from
    zero.  For a count of lines from 0 to [2^53] (which [float64] holds
    exactly) and a ratio that is at most 1, the AI count is at most the
    count of lines; and for no line it is 0, whatever the finite ratio.  The
    AI count is an [int] in every case. *)
Theorem aiLines_round_and_bound :
  (forall m cs author email,
     exists b,
       MainGo.updateAuthorStats m author email cs !! email = Some b
       /\ MainGo.TotalAIAddedLines b
          = wrap64 (match m !! email with
                    | Some old => MainGo.TotalAIAddedLines old
                    | None => 0
                    end
                    + int_of_float64
                        (math_Round (f64_mul (float64_of_int (AddedLines cs))
                                       (AIGRatio cs))))
       /\ MainGo.TotalAIDeletedLines b
          = wrap64 (match m !! email with
                    | Some old => MainGo.TotalAIDeletedLines old
                    | None => 0
                    end
                    + int_of_float64
                        (math_Round (f64_mul (float64_of_int (DeletedLines cs))
                                       (AIGRatio cs)))))
  /\ (forall m cs,
        Part000.updateStats m cs !! "totalAIAddedLines"
        = Some (wrap64 (default 0 (m !! "totalAIAddedLines")
                        + int_of_float64
                            (math_Round (f64_mul (float64_of_int (AddedLines cs))
                                           (AIGRatio cs)))))
        /\ Part000.updateStats m cs !! "totalAIDeletedLines"
           = Some (wrap64 (default 0 (m !! "totalAIDeletedLines")
                           + int_of_float64
                               (math_Round (f64_mul (float64_of_int (DeletedLines cs))
                                              (AIGRatio cs))))))
  /\ (forall n sr mr er q k,
        valid_binary prec64 emax64 (S754_finite sr mr er) = true ->
        0 < q -> er <= k <= 0 ->
        Z.pos mr = q * 2 ^ (k - er) ->
        Z.abs n * q < 2 ^ 53 ->
        int_of_float64
          (math_Round (f64_mul (float64_of_int n) (S754_finite sr mr er)))
        = (if xorb (n <? 0) sr then -1 else 1)
          * ((2 * Z.abs n * q + 2 ^ (- k)) / 2 ^ (1 - k)))
  /\ (forall s m e,
        e < 0 -> Z.pos m < 2 ^ 53 ->
        int_of_float64 (math_Round (S754_finite s m e))
        = (if s then - roundHalfAwayAbs m e else roundHalfAwayAbs m e)
        /\ 2 * Z.pos m - 2 ^ (- e)
           < 2 * roundHalfAwayAbs m e * 2 ^ (- e)
           <= 2 * Z.pos m + 2 ^ (- e))
  /\ (forall s m e, 0 <= e -> math_Round (S754_finite s m e) = S754_finite s m e)
  /\ (forall n ratio,
        valid_binary prec64 emax64 ratio = true ->
        0 <= n <= 2 ^ 53 ->
        f64_le ratio f64_one = true ->
        int_of_float64 (math_Round (f64_mul (float64_of_int n) ratio)) <= n)
  /\ (forall ratio,
        isFinite ratio = true ->
        int_of_float64 (math_Round (f64_mul (float64_of_int 0) ratio)) = 0)
  /\ (forall n ratio,
        inInt64 (int_of_float64 (math_Round (f64_mul (float64_of_int n) ratio)))).
Proof.
  split; [|split; [|split; [|split; [|split; [|split; [|split]]]]]].
  - intros m cs author email. eexists. split.
    + unfold MainGo.updateAuthorStats. apply lookup_insert_eq.
    + cbn [MainGo.TotalAIAddedLines MainGo.TotalAIDeletedLines]. unfold aiLines.
      destruct (m !! email); split; reflexivity.
  - intros m cs. unfold Part000.updateStats. cbv zeta. unfold aiLines.
    destruct (IsFix cs); [destruct (f64_lt f64_zero (AIGRatio cs))|]; split;
      repeat (rewrite addTo_lookup_ne by discriminate);
      rewrite addTo_lookup_eq;
      repeat (rewrite addTo_lookup_ne by discriminate); reflexivity.
  - intros n sr mr er q k. apply aiLines_dyadic.
  - intros s m e E M. exact (math_Round_half_away s m e E M).
  - intros s m e E. unfold math_Round. apply Z.leb_le in E. rewrite E. reflexivity.
  - exact aiLines_le.
  - exact aiLines_zero.
  - intros n ratio. apply int_of_float64_inInt64.
Qed.

(** Five lines at the ratio 1/2 are three AI lines, five lines taken away
    are three taken away, and ten lines are at most ten. *)
Lemma aiLines_round_and_bound_witness :
  int_of_float64 (math_Round (f64_mul (float64_of_int 5) f64_half)) = 3
  /\ int_of_float64 (math_Round (f64_mul (float64_of_int (-5)) f64_half)) = -3
  /\ int_of_float64 (math_Round (f64_mul (float64_of_int 10) f64_half)) <= 10.
Proof.
  pose proof aiLines_round_and_bound as (_ & _ & D & _ & _ & H & _).
  split; [|split].
  - apply (D 5 false 4503599627370496%positive (-53) 1 (-1)).
    + reflexivity.
    + lia.
    + lia.
    + reflexivity.
    + vm_compute. reflexivity.
  - apply (D (-5) false 4503599627370496%positive (-53) 1 (-1)).
    + reflexivity.
    + lia.
    + lia.
    + reflexivity.
    + vm_compute. reflexivity.
  - apply H.
    + vm_compute. reflexivity.
    + lia.
    + vm_compute. reflexivity.
Defined.

(* ===================================================================== *)
(** * The aggregation of main.go *)
(* ===================================================================== *)

Lemma wrap64_add_l (u v : Z) : wrap64 (wrap64 u + v) = wrap64 (u + v).
Proof.
  unfold wrap64. f_equal.
  replace ((u + 2 ^ 63) mod 2 ^ 64 - 2 ^ 63 + v + 2 ^ 63)
    with ((u + 2 ^ 63) mod 2 ^ 64 + v) by ring.
  rewrite Zplus_mod_idemp_l. f_equal. ring.
Qed.

Lemma wrap64_add_swap (x a b : Z) :
  wrap64 (wrap64 (x + a) + b) = wrap64 (wrap64 (x + b) + a).
Proof. rewrite !wrap64_add_l. f_equal. ring. Qed.

Lemma updateAuthorStats_unfold (m : gmap string MainGo.AuthorStats)
    (author email : string) (cs : CommitStats) :
  MainGo.updateAuthorStats m author email cs
  = <[ email := bumped (default (newBucket author email) (m !! email)) cs ]> m.
Proof.
  unfold MainGo.updateAuthorStats, bumped, newBucket.
  destruct (m !! email); reflexivity.
Qed.

Lemma countersOf_bumped_swap (b : MainGo.AuthorStats) (c1 c2 : CommitStats) :
  countersOf (bumped (bumped b c1) c2) = countersOf (bumped (bumped b c2) c1).
Proof.
  unfold countersOf, bumped. cbn.
  rewrite (wrap64_add_swap (MainGo.TotalAddedLines b)).
  rewrite (wrap64_add_swap (MainGo.TotalDeletedLines b)).
  rewrite (wrap64_add_swap (MainGo.TotalAIAddedLines b)).
  rewrite (wrap64_add_swap (MainGo.TotalAIDeletedLines b)).
  destruct (IsFix c1), (IsFix c2); cbn;
    destruct (f64_lt f64_zero (AIGRatio c1)), (f64_lt f64_zero (AIGRatio c2));
    reflexivity.
Qed.

Lemma countersOf_bumped_ext (b b' : MainGo.AuthorStats) (c : CommitStats) :
  countersOf b = countersOf b' -> countersOf (bumped b c) = countersOf (bumped b' c).
Proof.
  unfold countersOf, bumped. cbn. intros [= -> -> -> -> -> ->]. reflexivity.
Qed.

Lemma countersOf_newBucket (a a' e e' : string) :
  countersOf (newBucket a e) = countersOf (newBucket a' e').
Proof. reflexivity. Qed.

Lemma sameCounters_default (m1 m2 : gmap string MainGo.AuthorStats)
    (a1 a2 e : string) :
  sameCounters m1 m2 ->
  countersOf (default (newBucket a1 e) (m1 !! e))
  = countersOf (default (newBucket a2 e) (m2 !! e)).
Proof.
  intros S. specialize (S e).
  destruct (m1 !! e) as [b1|], (m2 !! e) as [b2|]; try discriminate S;
    [|reflexivity].
  assert (E : Some (countersOf b1) = Some (countersOf b2)) by exact S.
  exact (f_equal (default (countersOf b1)) E).
Qed.

(** Folding one commit keeps two maps alike in their counters. *)
Lemma updateAuthorStats_sameCounters (m1 m2 : gmap string MainGo.AuthorStats)
    (a e : string) (cs : CommitStats) :
  sameCounters m1 m2 ->
  sameCounters (MainGo.updateAuthorStats m1 a e cs) (MainGo.updateAuthorStats m2 a e cs).
Proof.
  intros S k. rewrite !updateAuthorStats_unfold.
  destruct (decide (e = k)) as [->|N].
  - rewrite !lookup_insert_eq. cbn. f_equal.
    apply countersOf_bumped_ext. apply sameCounters_default. exact S.
  - rewrite !lookup_insert_ne by exact N. apply S.
Qed.

(** Folding two commits in either order gives the same counters. *)
Lemma updateAuthorStats_swap (m : gmap string MainGo.AuthorStats)
    (a1 e1 : string) (c1 : CommitStats) (a2 e2 : string) (c2 : CommitStats) :
  sameCounters
    (MainGo.updateAuthorStats (MainGo.updateAuthorStats m a1 e1 c1) a2 e2 c2)
    (MainGo.updateAuthorStats (MainGo.updateAuthorStats m a2 e2 c2) a1 e1 c1).
Proof.
  intros k. rewrite !updateAuthorStats_unfold.
  destruct (decide (e1 = e2)) as [->|N].
  - rewrite !lookup_insert_eq. cbn [default].
    destruct (decide (e2 = k)) as [->|Nk].
    + rewrite !lookup_insert_eq. cbn. f_equal.
      rewrite countersOf_bumped_swap.
      apply countersOf_bumped_ext, countersOf_bumped_ext.
      destruct (m !! k); reflexivity.
    + rewrite !lookup_insert_ne by exact Nk. reflexivity.
  - rewrite (lookup_insert_ne _ e1 e2) by exact N.
    rewrite (lookup_insert_ne _ e2 e1) by congruence.
    destruct (decide (e2 = k)) as [->|N2].
    + rewrite lookup_insert_eq. rewrite lookup_insert_ne by exact N.
      rewrite lookup_insert_eq. reflexivity.
    + rewrite (lookup_insert_ne _ e2 k) by exact N2.
      destruct (decide (e1 = k)) as [->|N1].
      * rewrite !lookup_insert_eq. reflexivity.
      * rewrite !lookup_insert_ne by assumption. reflexivity.
Qed.

Lemma analyzeStep_sameCounters (m1 m2 : gmap string MainGo.AuthorStats) (c : string) :
  sameCounters m1 m2 ->
  sameCounters (MainGo.analyzeStep m1 c) (MainGo.analyzeStep m2 c).
Proof.
  intros S. unfold MainGo.analyzeStep.
  destruct (String.eqb c ""); [exact S|].
  destruct (MainGo.processCommit c MainGo.aigPattern MainGo.fixPattern
              (strings_Split "," MainGo.includeFileExts)
              (strings_Split "," MainGo.excludeFileExts)) as [[cs a] e].
  apply updateAuthorStats_sameCounters. exact S.
Qed.

Lemma analyzeStep_swap (m : gmap string MainGo.AuthorStats) (c1 c2 : string) :
  sameCounters (MainGo.analyzeStep (MainGo.analyzeStep m c1) c2)
               (MainGo.analyzeStep (MainGo.analyzeStep m c2) c1).
Proof.
  unfold MainGo.analyzeStep.
  destruct (String.eqb c1 ""), (String.eqb c2 ""); try (intros k; reflexivity).
  destruct (MainGo.processCommit c1 _ _ _ _) as [[cs1 a1] e1].
  destruct (MainGo.processCommit c2 _ _ _ _) as [[cs2 a2] e2].
  apply updateAuthorStats_swap.
Qed.

Lemma sameCounters_trans (m1 m2 m3 : gmap string MainGo.AuthorStats) :
  sameCounters m1 m2 -> sameCounters m2 m3 -> sameCounters m1 m3.
Proof. intros A B k. rewrite (A k). apply B. Qed.

Lemma fold_analyzeStep_sameCounters (cs : list string) :
  forall m1 m2, sameCounters m1 m2 ->
    sameCounters (fold_left MainGo.analyzeStep cs m1)
                 (fold_left MainGo.analyzeStep cs m2).
Proof.
  induction cs as [|c cs IH]; intros m1 m2 S; [exact S|].
  cbn [fold_left]. apply IH. apply analyzeStep_sameCounters. exact S.
Qed.

(** X1. The totals and the fix counts of every bucket do not depend on the
    order of the commits. *)
Theorem analyzeCommits_order_independent (commits commits' : list string) :
  Permutation commits commits' ->
  sameCounters (MainGo.analyzeCommits commits) (MainGo.analyzeCommits commits').
Proof.
  unfold MainGo.analyzeCommits. intros P.
  assert (G : forall m, sameCounters (fold_left MainGo.analyzeStep commits m)
                          (fold_left MainGo.analyzeStep commits' m)).
  { induction P as [|x l l' P IH|x y l|l l' l'' P1 IH1 P2 IH2]; intros m.
    - intros k. reflexivity.
    - cbn [fold_left]. apply IH.
    - cbn [fold_left]. apply fold_analyzeStep_sameCounters. apply analyzeStep_swap.
    - eapply sameCounters_trans; [apply IH1|apply IH2]. }
  apply G.
Qed.

Lemma analyzeCommits_order_independent_witness :
  sameCounters (MainGo.analyzeCommits [scenarioChunk; emailFixChunk])
               (MainGo.analyzeCommits [emailFixChunk; scenarioChunk]).
Proof. apply analyzeCommits_order_independent. apply perm_swap. Defined.

Lemma inInt64_zero : inInt64 0.
Proof. unfold inInt64, minInt64, maxInt64. lia. Qed.

Lemma bucketsOK_mono (cnt cnt' : Z) (m : gmap string MainGo.AuthorStats) :
  cnt <= cnt' -> bucketsOK cnt m -> bucketsOK cnt' m.
Proof.
  intros L H k b E. destruct (H k b E) as (A & B & C & D).
  split; [exact A|split; [exact B|split; [exact C|lia]]].
Qed.

Lemma bumped_ok (cnt : Z) (b : MainGo.AuthorStats) (cs : CommitStats) :
  cnt + 1 <= maxInt64 ->
  wfAuthorStats b ->
  0 <= MainGo.FixAndAIGCount b <= MainGo.FixCount b ->
  MainGo.FixCount b <= cnt ->
  wfAuthorStats (bumped b cs)
  /\ 0 <= MainGo.FixAndAIGCount (bumped b cs) <= MainGo.FixCount (bumped b cs)
  /\ MainGo.FixCount (bumped b cs) <= cnt + 1.
Proof.
  intros C (W1 & W2 & W3 & W4 & W5 & W6) O L.
  assert (F1 : wrap64 (MainGo.FixCount b + 1) = MainGo.FixCount b + 1).
  { apply wrap64_id. unfold inInt64, minInt64, maxInt64 in *. lia. }
  assert (F2 : wrap64 (MainGo.FixAndAIGCount b + 1) = MainGo.FixAndAIGCount b + 1).
  { apply wrap64_id. unfold inInt64, minInt64, maxInt64 in *. lia. }
  unfold wfAuthorStats, bumped. cbn.
  rewrite F1, F2.
  repeat split; try apply wrap64_inInt64;
    destruct (IsFix cs); cbn; try destruct (f64_lt f64_zero (AIGRatio cs));
    unfold inInt64, minInt64, maxInt64 in *; lia.
Qed.

Lemma updateAuthorStats_ok (cnt : Z) (m : gmap string MainGo.AuthorStats)
    (a e : string) (cs : CommitStats) :
  0 <= cnt -> cnt + 1 <= maxInt64 ->
  bucketsOK cnt m -> bucketsOK (cnt + 1) (MainGo.updateAuthorStats m a e cs).
Proof.
  intros C0 C H k b. rewrite updateAuthorStats_unfold.
  destruct (decide (e = k)) as [->|N].
  - rewrite lookup_insert_eq. intros [= <-].
    split; [destruct (m !! k) as [b0|] eqn:E; cbn; [apply (H k b0 E)|reflexivity]|].
    destruct (m !! k) as [b0|] eqn:E; cbn [default].
    + destruct (H k b0 E) as (_ & W & O & L). apply bumped_ok; assumption.
    + apply bumped_ok; [assumption|apply wfAuthorStats_newBucket|cbn; lia|cbn; lia].
  - rewrite lookup_insert_ne by exact N. intros E.
    destruct (H k b E) as (A & B & O & L).
    split; [exact A|split; [exact B|split; [exact O|lia]]].
Qed.

Lemma analyzeStep_ok (cnt : Z) (m : gmap string MainGo.AuthorStats) (c : string) :
  0 <= cnt -> cnt + 1 <= maxInt64 ->
  bucketsOK cnt m -> bucketsOK (cnt + 1) (MainGo.analyzeStep m c).
Proof.
  intros C0 C H. unfold MainGo.analyzeStep.
  destruct (String.eqb c ""); [apply (bucketsOK_mono cnt); [lia|exact H]|].
  destruct (MainGo.processCommit c _ _ _ _) as [[cs a] e].
  apply updateAuthorStats_ok; assumption.
Qed.

Lemma fold_analyzeStep_ok (commits : list string) :
  forall cnt m,
    0 <= cnt -> cnt + Z.of_nat (length commits) <= maxInt64 ->
    bucketsOK cnt m ->
    bucketsOK (cnt + Z.of_nat (length commits))
      (fold_left MainGo.analyzeStep commits m).
Proof.
  induction commits as [|c commits IH]; intros cnt m C0 C H.
  - cbn. rewrite Z.add_0_r. exact H.
  - cbn [fold_left length] in *. rewrite Nat2Z.inj_succ in *.
    replace (cnt + Z.succ (Z.of_nat (length commits)))
      with ((cnt + 1) + Z.of_nat (length commits)) by lia.
    apply IH; [lia|lia|]. apply analyzeStep_ok; [lia|lia|exact H].
Qed.

(** X2. After fewer than [2^63] commits every bucket is filed under its own
    e-mail, its counters are [int]s, and
    [0 <= FixAndAIGCount <= FixCount <= number of commits]. *)
Theorem analyzeCommits_buckets (commits : list string) :
  Z.of_nat (length commits) <= maxInt64 ->
  bucketsOK (Z.of_nat (length commits)) (MainGo.analyzeCommits commits).
Proof.
  intros L. unfold MainGo.analyzeCommits.
  apply (fold_analyzeStep_ok commits 0 ∅); [lia|lia|].
  intros k b E. rewrite lookup_empty in E. discriminate E.
Qed.

Lemma analyzeCommits_buckets_witness :
  bucketsOK 2 (MainGo.analyzeCommits [scenarioChunk; emailFixChunk]).
Proof.
  apply (analyzeCommits_buckets [scenarioChunk; emailFixChunk]).
  vm_compute. discriminate.
Defined.

Lemma counter_addTo (k k' : string) (v : Z) (m : gmap string Z) :
  counter (Part000.addTo k v m) k'
  = if decide (k = k') then wrap64 (counter m k + v) else counter m k'.
Proof.
  unfold counter, Part000.addTo. destruct (decide (k = k')) as [->|N].
  - rewrite lookup_insert_eq. reflexivity.
  - rewrite lookup_insert_ne by exact N. reflexivity.
Qed.

Lemma wfCounterMap_addTo (k : string) (v : Z) (m : gmap string Z) :
  wfCounterMap m -> wfCounterMap (Part000.addTo k v m).
Proof.
  intros W k' v'. unfold Part000.addTo. destruct (decide (k = k')) as [->|N].
  - rewrite lookup_insert_eq. intros [= <-]. apply wrap64_inInt64.
  - rewrite lookup_insert_ne by exact N. apply W.
Qed.

Lemma updateStats_ok (cnt : Z) (m : gmap string Z) (cs : CommitStats) :
  0 <= cnt -> cnt + 1 <= maxInt64 ->
  countersOK cnt m -> countersOK (cnt + 1) (Part000.updateStats m cs).
Proof.
  intros C0 C (W & O & L). unfold Part000.updateStats. cbv zeta.
  set (m4 := Part000.addTo "totalAIDeletedLines" _ _).
  assert (W4 : wfCounterMap m4) by (repeat apply wfCounterMap_addTo; exact W).
  assert (Ef : counter m4 "fixCount" = counter m "fixCount").
  { unfold m4. rewrite !counter_addTo.
    repeat (destruct (decide _) as [?|_]; [discriminate|]). reflexivity. }
  assert (Ea : counter m4 "fixAndAIGCount" = counter m "fixAndAIGCount").
  { unfold m4. rewrite !counter_addTo.
    repeat (destruct (decide _) as [?|_]; [discriminate|]). reflexivity. }
  clearbody m4.
  assert (F1 : wrap64 (counter m4 "fixCount" + 1) = counter m4 "fixCount" + 1).
  { apply wrap64_id. unfold inInt64, minInt64, maxInt64 in *. lia. }
  assert (F2 : wrap64 (counter m4 "fixAndAIGCount" + 1)
               = counter m4 "fixAndAIGCount" + 1).
  { apply wrap64_id. unfold inInt64, minInt64, maxInt64 in *. lia. }
  destruct (IsFix cs); [destruct (f64_lt f64_zero (AIGRatio cs))|];
    (split; [repeat apply wfCounterMap_addTo; exact W4|]);
    rewrite ?counter_addTo;
    repeat (destruct (decide _) as [?|?]; try discriminate; try congruence);
    rewrite ?counter_addTo;
    repeat (destruct (decide _) as [?|?]; try discriminate; try congruence);
    rewrite ?F1, ?F2; lia.
Qed.

Lemma fold_analyzeStep_countersOK (commits : list string) :
  forall cnt m,
    0 <= cnt -> cnt + Z.of_nat (length commits) <= maxInt64 ->
    countersOK cnt m ->
    countersOK (cnt + Z.of_nat (length commits))
      (fold_left Part000.analyzeStep commits m).
Proof.
  induction commits as [|c commits IH]; intros cnt m C0 C H.
  - cbn. rewrite Z.add_0_r. exact H.
  - cbn [fold_left length] in *. rewrite Nat2Z.inj_succ in *.
    replace (cnt + Z.succ (Z.of_nat (length commits)))
      with ((cnt + 1) + Z.of_nat (length commits)) by lia.
    apply IH; [lia|lia|]. unfold Part000.analyzeStep.
    destruct (String.eqb c "").
    + destruct H as (W & O & L). split; [exact W|split; [exact O|lia]].
    + apply updateStats_ok; [lia|lia|exact H].
Qed.

(** X3. In [part_000], after fewer than [2^63] commits every counter is an
    [int] and [0 <= fixAndAIGCount <= fixCount <= number of commits]. *)
Theorem analyzeCommits_counters (commits : list string) :
  Z.of_nat (length commits) <= maxInt64 ->
  countersOK (Z.of_nat (length commits)) (Part000.analyzeCommits commits).
Proof.
  intros L. unfold Part000.analyzeCommits.
  apply (fold_analyzeStep_countersOK commits 0 ∅); [lia|lia|].
  split; [intros k v E; rewrite lookup_empty in E; discriminate E|].
  unfold counter. rewrite !lookup_empty. cbn. lia.
Qed.

Lemma analyzeCommits_counters_witness :
  countersOK 2 (Part000.analyzeCommits [scenarioChunk; plainFixChunk]).
Proof.
  apply (analyzeCommits_counters [scenarioChunk; plainFixChunk]).
  vm_compute. discriminate.
Defined.

(* ===================================================================== *)
(** * The aggregation of part_000 and the order of the commits *)
(* ===================================================================== *)

Lemma updateStats_addAll (stats : gmap string Z) (cs : CommitStats) :
  Part000.updateStats stats cs = addAll (deltas cs) stats.
Proof.
  unfold Part000.updateStats, deltas, addAll.
  destruct (IsFix cs); [destruct (f64_lt f64_zero (AIGRatio cs))|]; reflexivity.
Qed.

Lemma addTo_comm (k k' : string) (v v' : Z) (m : gmap string Z) :
  Part000.addTo k v (Part000.addTo k' v' m)
  = Part000.addTo k' v' (Part000.addTo k v m).
Proof.
  unfold Part000.addTo. destruct (decide (k = k')) as [->|N].
  - rewrite !lookup_insert_eq. cbn [default]. rewrite !insert_insert_eq.
    f_equal. apply wrap64_add_swap.
  - rewrite (lookup_insert_ne _ k' k) by congruence.
    rewrite (lookup_insert_ne _ k k') by congruence.
    apply insert_insert_ne. congruence.
Qed.

Lemma addTo_addAll (k : string) (v : Z) (ds : list (string * Z)) (m : gmap string Z) :
  Part000.addTo k v (addAll ds m) = addAll ds (Part000.addTo k v m).
Proof.
  revert m. induction ds as [|d ds IH]; intros m; [reflexivity|].
  unfold addAll in *. cbn [fold_left]. rewrite IH. f_equal. apply addTo_comm.
Qed.

Lemma addAll_comm (ds ds' : list (string * Z)) (m : gmap string Z) :
  addAll ds (addAll ds' m) = addAll ds' (addAll ds m).
Proof.
  revert m. induction ds as [|d ds IH]; intros m; [reflexivity|].
  unfold addAll at 1 4. cbn [fold_left]. fold (addAll ds).
  rewrite <- IH. f_equal. apply addTo_addAll.
Qed.

Lemma analyzeStep_comm (m : gmap string Z) (c1 c2 : string) :
  Part000.analyzeStep (Part000.analyzeStep m c1) c2
  = Part000.analyzeStep (Part000.analyzeStep m c2) c1.
Proof.
  unfold Part000.analyzeStep.
  destruct (String.eqb c1 ""); destruct (String.eqb c2 ""); try reflexivity.
  rewrite !updateStats_addAll. apply addAll_comm.
Qed.

(** X4. The counters of [part_000] do not depend on the order of the
    commits. *)
Theorem analyzeCommits_counters_order (commits commits' : list string) :
  Permutation commits commits' ->
  Part000.analyzeCommits commits = Part000.analyzeCommits commits'.
Proof.
  unfold Part000.analyzeCommits. intros P. generalize (∅ : gmap string Z).
  induction P as [|x l l' P IH|x y l|l l' l'' P1 IH1 P2 IH2]; intros m.
  - reflexivity.
  - cbn [fold_left]. apply IH.
  - cbn [fold_left]. f_equal. apply analyzeStep_comm.
  - rewrite IH1. apply IH2.
Qed.

Lemma analyzeCommits_counters_order_witness :
  Part000.analyzeCommits [scenarioChunk; plainFixChunk]
  = Part000.analyzeCommits [plainFixChunk; scenarioChunk].
Proof. apply analyzeCommits_counters_order. apply perm_swap. Defined.

(* ===================================================================== *)
(** * The parsed ratio is a number *)
(* ===================================================================== *)

Lemma shr_round_cases (m : Z) (p : positive) :
  0 <= m ->
  let mrs := SpecFloat.iter_pos shr_1 p (Build_shr_record m false false) in
  let m1 := round_nearest_even (shr_m mrs) (loc_of_shr_record mrs) in
  m / 2 ^ Z.pos p <= m1 <= m / 2 ^ Z.pos p + 1.
Proof.
  intros H mrs m1.
  pose proof (round_nearest_even_bounds mrs) as B. cbv zeta in B. fold m1 in B.
  assert (Q : shr_m mrs = m / 2 ^ Z.pos p).
  { unfold mrs. rewrite iter_pos_nat, shr_iter_m by exact H.
    cbn [shr_m]. rewrite positive_nat_Z. reflexivity. }
  rewrite Q in B. destruct (shr_r mrs); lia.
Qed.

(** The first shift of [binary_round_aux] and the rounding leave a
    mantissa that has the digits of the format, or one more. *)
Lemma first_shift_digits (m : positive) (e : Z) :
  e <= fexp prec64 emax64 (Z.pos (digits2_pos m) + e) ->
  exists m1 e1,
    (let '(mrs', e') := shr_fexp prec64 emax64 (Z.pos m) e loc_Exact in
     (round_nearest_even (shr_m mrs') (loc_of_shr_record mrs'), e'))
    = (m1, e1)
    /\ (m1 = 0
        \/ exists p1, m1 = Z.pos p1
             /\ e1 <= fexp prec64 emax64 (Z.pos (digits2_pos p1) + e1) <= e1 + 1).
Proof.
  intros A. set (d := Z.pos (digits2_pos m)) in *.
  pose proof (digits2_pos_bounds m) as [Lm Um]. fold d in Lm, Um.
  assert (D1 : 1 <= d) by (unfold d; lia).
  rewrite shr_fexp_exact_value by lia. cbv zeta. cbn [Zdigits2]. fold d.
  set (n1 := fexp prec64 emax64 (d + e) - e) in *.
  destruct (0 <? n1) eqn:N1.
  - apply Z.ltb_lt in N1.
    pose proof (shr_round_cases (Z.pos m) (Z.to_pos n1) ltac:(lia)) as C.
    cbv zeta in C. rewrite Z2Pos.id in C by lia.
    set (m1 := round_nearest_even _ _) in *. clearbody m1.
    exists m1, (e + n1). split; [reflexivity|].
    assert (P2 : 0 < 2 ^ n1) by (apply pow2_pos; lia).
    assert (Q0 : 0 <= Z.pos m / 2 ^ n1) by (apply Z.div_pos; lia).
    destruct m1 as [|p1|p1]; [left; reflexivity| |exfalso; lia].
    right. exists p1. split; [reflexivity|].
    destruct (Z.pos m / 2 ^ n1) as [|q|q] eqn:Q; [| |exfalso; lia].
    + (* the quotient is zero: the number is below the smallest subnormal *)
      assert (p1 = 1%positive) by lia. subst p1.
      assert (Z.pos m < 2 ^ n1).
      { destruct (Z_lt_le_dec (Z.pos m) (2 ^ n1)) as [G|G]; [exact G|exfalso].
        assert (1 <= Z.pos m / 2 ^ n1) by (apply Z.div_le_lower_bound; lia). lia. }
      assert (d <= n1) by (apply digits2_pos_le; lia).
      unfold n1, fexp, emin, prec64, emax64 in *. cbn [digits2_pos]. lia.
    + pose proof (digits2_pos_shr m q n1 N1 (eq_sym Q)) as Dq. fold d in Dq.
      pose proof (digits2_pos_bounds q) as [Lq Uq].
      assert (G1 : Z.pos (digits2_pos q) <= Z.pos (digits2_pos p1))
        by (apply digits2_pos_mono; lia).
      assert (G2 : Z.pos (digits2_pos p1) <= Z.pos (digits2_pos q) + 1).
      { apply digits2_pos_le; [lia|].
        rewrite Z.pow_add_r by lia. change (2 ^ 1) with 2. lia. }
      unfold n1, fexp, emin, prec64, emax64 in *. lia.
  - apply Z.ltb_ge in N1. assert (n1 = 0) by (unfold n1 in *; lia).
    exists (Z.pos m), e. split; [reflexivity|]. right. exists m.
    split; [reflexivity|]. fold d. unfold n1, fexp, emin, prec64, emax64 in *. lia.
Qed.

(** The number that [binary_round_aux] returns is a float64 when its
    argument has no more precision than the format. *)
Lemma binary_round_aux_valid (s : bool) (m : positive) (e : Z) :
  e <= fexp prec64 emax64 (Z.pos (digits2_pos m) + e) ->
  valid_binary prec64 emax64
    (binary_round_aux prec64 emax64 s (Z.pos m) e loc_Exact) = true.
Proof.
  intros A.
  destruct (first_shift_digits m e A) as (m1 & e1 & E1 & C).
  unfold binary_round_aux.
  destruct (shr_fexp prec64 emax64 (Z.pos m) e loc_Exact) as [mrs' e'].
  injection E1 as Em Ee. rewrite Em, Ee. clear Em Ee mrs' e'.
  destruct C as [-> | (p1 & -> & F)].
  - rewrite shr_fexp_exact_value by lia. cbv zeta.
    destruct (0 <? _); [|reflexivity].
    rewrite iter_pos_nat, shr_iter_m by (cbn; lia). cbn [shr_m].
    rewrite Z.div_0_l by (apply Z.pow_nonzero; lia). reflexivity.
  - rewrite shr_fexp_exact_value by lia. cbv zeta. cbn [Zdigits2].
    set (f := fexp prec64 emax64 (Z.pos (digits2_pos p1) + e1)) in *.
    destruct (0 <? f - e1) eqn:N2.
    + apply Z.ltb_lt in N2. assert (Ef : f - e1 = 1) by lia. rewrite Ef.
      change (Z.to_pos 1) with 1%positive. cbn [SpecFloat.iter_pos].
      rewrite shr_1_m by (cbn; lia). cbn [shr_m].
      destruct (Z.pos p1 / 2) as [|p2|p2] eqn:Q; [reflexivity| |reflexivity].
      destruct (e1 + 1 <=? emax64 - prec64) eqn:B; [|reflexivity].
      cbn [valid_binary]. unfold bounded, canonical_mantissa. rewrite B.
      rewrite andb_true_r. apply Z.eqb_eq.
      pose proof (digits2_pos_shr p1 p2 1 ltac:(lia) (eq_sym Q)) as D2.
      replace (Z.pos (digits2_pos p2) + (e1 + 1))
        with (Z.pos (digits2_pos p1) + e1) by lia.
      fold f. lia.
    + apply Z.ltb_ge in N2. cbn [shr_m].
      destruct (e1 <=? emax64 - prec64) eqn:B; [|reflexivity].
      cbn [valid_binary]. unfold bounded, canonical_mantissa. rewrite B.
      rewrite andb_true_r. apply Z.eqb_eq. fold f. lia.
Qed.

(** [binary_round] aligns its argument first. *)
Lemma binary_round_valid (s : bool) (m : positive) (e : Z) :
  valid_binary prec64 emax64 (binary_round prec64 emax64 s m e) = true.
Proof.
  unfold binary_round, shl_align.
  set (f := fexp prec64 emax64 (Z.pos (digits2_pos m) + e)).
  destruct (f - e) as [|d|d] eqn:E.
  - apply binary_round_aux_valid. fold f. lia.
  - apply binary_round_aux_valid. fold f. lia.
  - apply binary_round_aux_valid. rewrite iter_xO_digits.
    replace (Z.pos (digits2_pos m) + Z.pos d + f)
      with (Z.pos (digits2_pos m) + e) by lia.
    fold f. lia.
Qed.

Lemma binary_normalize_valid (m e : Z) (szero : bool) :
  valid_binary prec64 emax64 (binary_normalize prec64 emax64 m e szero) = true.
Proof.
  destruct m as [|p|p]; [reflexivity| |]; apply binary_round_valid.
Qed.

Lemma float64_of_int_valid (n : Z) :
  valid_binary prec64 emax64 (float64_of_int n) = true.
Proof. apply binary_normalize_valid. Qed.

Lemma float64_of_ratio_valid (neg : bool) (p q : Z) :
  valid_binary prec64 emax64 (float64_of_ratio neg p q) = true.
Proof.
  unfold float64_of_ratio. destruct (p =? 0); [reflexivity|].
  apply binary_normalize_valid.
Qed.

Lemma strconv_ParseFloat_valid (s : string) :
  valid_binary prec64 emax64 (fst (strconv_ParseFloat s)) = true.
Proof.
  unfold strconv_ParseFloat. destruct (splitSign s) as [neg body].
  destruct (scanDecimal body 0 None false) as [[m d]|]; [|reflexivity].
  apply float64_of_ratio_valid.
Qed.

Lemma valid_binary_not_nan (x : float64) :
  valid_binary prec64 emax64 x = true -> x <> S754_nan -> isInfinite x = false ->
  isFinite x = true.
Proof. destruct x; cbn; congruence. Qed.

Lemma binary_round_aux_not_nan (s : bool) (m : positive) (e : Z) :
  binary_round_aux prec64 emax64 s (Z.pos m) e loc_Exact <> S754_nan.
Proof.
  pose proof (binary_round_aux_upper s m e) as U. cbv zeta in U.
  destruct U as [-> | (m' & e' & [[-> _] | [-> _]] & _)]; discriminate.
Qed.

Lemma binary_normalize_not_nan (m e : Z) (szero : bool) :
  binary_normalize prec64 emax64 m e szero <> S754_nan.
Proof.
  destruct m as [|p|p]; [discriminate| |];
    unfold binary_normalize, binary_round;
    destruct (shl_align _ _ _) as [mz ez]; apply binary_round_aux_not_nan.
Qed.

Lemma strconv_ParseFloat_not_nan (s : string) :
  fst (strconv_ParseFloat s) <> S754_nan.
Proof.
  unfold strconv_ParseFloat. destruct (splitSign s) as [neg body].
  destruct (scanDecimal body 0 None false) as [[m d]|]; [|discriminate].
  cbn [fst]. unfold float64_of_ratio. destruct (m =? 0); [discriminate|].
  apply binary_normalize_not_nan.
Qed.

Lemma strconv_ParseFloat_error (s : string) :
  snd (strconv_ParseFloat s) = false -> isInfinite (fst (strconv_ParseFloat s)) = false.
Proof.
  unfold strconv_ParseFloat. destruct (splitSign s) as [neg body].
  destruct (scanDecimal body 0 None false) as [[m d]|]; [|discriminate].
  cbn [fst snd]. auto.
Qed.

(** The ratio that is kept of a parsed tag value: the value itself, or 0
    when it did not parse or is negative. *)
Lemma checkedRatio_ok (s : string) :
  let r := (let '(ratio, err) := strconv_ParseFloat s in
            if err || f64_lt ratio f64_zero then f64_zero else ratio) in
  valid_binary prec64 emax64 r = true
  /\ isFinite r = true
  /\ f64_lt r f64_zero = false.
Proof.
  pose proof (strconv_ParseFloat_valid s) as V.
  pose proof (strconv_ParseFloat_not_nan s) as N.
  pose proof (strconv_ParseFloat_error s) as E.
  destruct (strconv_ParseFloat s) as [ratio err].
  cbn [fst snd] in *. cbv zeta.
  destruct err; [repeat split; reflexivity|]. cbn [orb].
  destruct (f64_lt ratio f64_zero) eqn:L; [repeat split; reflexivity|].
  split; [exact V|]. split; [|exact L].
  apply valid_binary_not_nan; auto.
Qed.


(** What a repetition hands to its continuation: the rest of the text
    after a run of bytes of the class. *)
Lemma matchRep_run {A : Type} (p : ascii -> bool) (s : string) :
  forall (lo : nat) (hi : option nat) (k : string -> option A) (r : A),
    matchRep p lo hi s k = Some r ->
    exists pre s1, s = pre ++ s1 /\ allIn p pre = true /\ k s1 = Some r.
Proof.
  induction s as [|a s IH]; intros lo hi k r H.
  - cbn [matchRep] in H. destruct lo; [|discriminate H].
    exists "", "". repeat split. exact H.
  - cbn [matchRep] in H.
    assert (Stop : match lo with O => k (String a s) | S _ => None end = Some r ->
                   exists pre s1, String a s = pre ++ s1 /\ allIn p pre = true
                                  /\ k s1 = Some r).
    { intros E. destruct lo; [|discriminate E].
      exists "", (String a s). repeat split. exact E. }
    destruct (p a && hiAllows hi) eqn:C; [|exact (Stop H)].
    destruct (matchRep p (Nat.pred lo) (hiPred hi) s k) as [r'|] eqn:M;
      [|exact (Stop H)].
    injection H as ->. apply andb_prop in C. destruct C as [Pa _].
    destruct (IH _ _ _ _ M) as (pre & s1 & -> & Ap & K).
    exists (String a pre), s1. repeat split; [|exact K].
    cbn [allIn]. rewrite Pa, Ap. reflexivity.
Qed.

Lemma takeBytes_append (pre s1 : string) :
  takeBytes (String.length pre) (pre ++ s1) = pre.
Proof.
  induction pre as [|a pre IH]; [destruct s1; reflexivity|].
  change (String a pre ++ s1) with (String a (pre ++ s1)).
  cbn [String.length takeBytes]. rewrite IH. reflexivity.
Qed.

Lemma length_append (a b : string) :
  String.length (a ++ b) = (String.length a + String.length b)%nat.
Proof.
  induction a as [|c a IH]; [reflexivity|].
  change (String c a ++ b) with (String c (a ++ b)).
  cbn [String.length]. rewrite IH. reflexivity.
Qed.

Lemma consumed_append (pre s1 : string) : consumed (pre ++ s1) s1 = pre.
Proof.
  unfold consumed. rewrite length_append.
  replace (String.length pre + String.length s1 - String.length s1)%nat
    with (String.length pre) by lia.
  apply takeBytes_append.
Qed.

(** The second group of a match of the AIG pattern at a position. *)
Lemma matchHere_aigPattern_group (txt s : string) (cs : captures) :
  matchHere MainGo.aigPattern txt s = Some cs ->
  exists num, List.nth 2 cs None = Some num /\ allIn cls_digit_dot num = true.
Proof.
  unfold matchHere, MainGo.aigPattern.
  cbn [RCat RLit RStar RPlus matchAt].
  destruct s as [|c1 s]; [discriminate|]. destruct (Ascii.eqb "A" c1); [|discriminate].
  destruct s as [|c2 s]; [discriminate|]. destruct (Ascii.eqb "I" c2); [|discriminate].
  destruct s as [|c3 s]; [discriminate|]. destruct (Ascii.eqb "G" c3); [|discriminate].
  destruct s as [|c4 s]; [discriminate|]. destruct (Ascii.eqb ":" c4); [|discriminate].
  intros H.
  apply matchRep_run in H. destruct H as (sp & s1 & -> & _ & H).
  apply matchRep_run in H. destruct H as (num & s2 & -> & D & H).
  injection H as <-. exists num. split; [|exact D].
  rewrite consumed_append. reflexivity.
Qed.

Lemma searchFrom_aigPattern_group (txt s : string) (cs : captures) :
  searchFrom MainGo.aigPattern txt s = Some cs ->
  exists num, List.nth 2 cs None = Some num /\ allIn cls_digit_dot num = true.
Proof.
  induction s as [|a s IH]; cbn [searchFrom];
    destruct (matchHere MainGo.aigPattern txt _) as [cs'|] eqn:M.
  - intros E. injection E as <-. exact (matchHere_aigPattern_group _ _ _ M).
  - discriminate.
  - intros E. injection E as <-. exact (matchHere_aigPattern_group _ _ _ M).
  - exact IH.
Qed.

(** The text that [extractAIGRatio] hands to [strconv.ParseFloat]. *)
Lemma aigPattern_number (commit : string) :
  allIn cls_digit_dot (nth 2 (FindStringSubmatch MainGo.aigPattern commit) "") = true.
Proof.
  unfold FindStringSubmatch.
  destruct (searchFrom MainGo.aigPattern commit commit) as [cs|] eqn:S; [|reflexivity].
  destruct (searchFrom_aigPattern_group _ _ _ S) as (num & N & D).
  change (groupCount MainGo.aigPattern) with 2%nat.
  cbn [seq List.map nth]. rewrite N. exact D.
Qed.

(** X5. The text that [extractAIGRatio] hands to [strconv.ParseFloat] under
    the pattern of the program is a run of digits and points, and the ratio
    of a message is always a float64 number that is finite and not
    negative; in both files. *)
Theorem extractAIGRatio_finite_nonneg (commit : string) :
  allIn cls_digit_dot
    (nth 2 (FindStringSubmatch MainGo.aigPattern commit) "") = true
  /\ valid_binary prec64 emax64
       (MainGo.extractAIGRatio MainGo.aigPattern commit) = true
  /\ isFinite (MainGo.extractAIGRatio MainGo.aigPattern commit) = true
  /\ f64_lt (MainGo.extractAIGRatio MainGo.aigPattern commit) f64_zero = false
  /\ Part000.extractAIGRatio Part000.aigPattern commit
     = MainGo.extractAIGRatio MainGo.aigPattern commit.
Proof.
  split; [apply aigPattern_number|].
  assert (R : valid_binary prec64 emax64
                (MainGo.extractAIGRatio MainGo.aigPattern commit) = true
              /\ isFinite (MainGo.extractAIGRatio MainGo.aigPattern commit) = true
              /\ f64_lt (MainGo.extractAIGRatio MainGo.aigPattern commit) f64_zero
                 = false).
  { unfold MainGo.extractAIGRatio.
    destruct (2 <? List.length (FindStringSubmatch MainGo.aigPattern commit))%nat;
      [|repeat split; reflexivity].
    apply checkedRatio_ok. }
  destruct R as (V & F & N).
  split; [exact V|]. split; [exact F|]. split; [exact N|]. reflexivity.
Qed.

(* ===================================================================== *)
(** * The statistics of one commit *)
(* ===================================================================== *)

Lemma addChange_keeps (inc exc : list string) (stats : CommitStats) (change : string) :
  inInt64 (AddedLines stats) -> inInt64 (DeletedLines stats) ->
  AIGRatio (MainGo.addChange inc exc stats change) = AIGRatio stats
  /\ IsFix (MainGo.addChange inc exc stats change) = IsFix stats
  /\ inInt64 (AddedLines (MainGo.addChange inc exc stats change))
  /\ inInt64 (DeletedLines (MainGo.addChange inc exc stats change)).
Proof.
  intros A D. unfold MainGo.addChange.
  destruct (String.eqb change ""); [auto|].
  destruct (MainGo.parseFileChange change) as [[added deleted] fileName].
  destruct (negb (MainGo.isValidFile fileName inc exc)); [auto|].
  cbn. repeat split; apply wrap64_inInt64.
Qed.

Lemma fold_addChange_keeps (inc exc : list string) (changes : list string) :
  forall stats,
    inInt64 (AddedLines stats) -> inInt64 (DeletedLines stats) ->
    AIGRatio (fold_left (MainGo.addChange inc exc) changes stats) = AIGRatio stats
    /\ IsFix (fold_left (MainGo.addChange inc exc) changes stats) = IsFix stats
    /\ inInt64 (AddedLines (fold_left (MainGo.addChange inc exc) changes stats))
    /\ inInt64 (DeletedLines (fold_left (MainGo.addChange inc exc) changes stats)).
Proof.
  induction changes as [|c changes IH]; intros stats A D; [auto|].
  cbn [fold_left].
  destruct (addChange_keeps inc exc stats c A D) as (R & F & A' & D').
  destruct (IH _ A' D') as (R2 & F2 & A2 & D2).
  rewrite R2, F2, R, F. auto.
Qed.

(** The ratio and the fix flag of a chunk come from its message and its
    first line; the numstat lines only move the two line counts. *)
Lemma processCommit_fields (chunk : string) (aigRe fixRe : regex)
    (inc exc : list string) :
  let cs := fst (fst (MainGo.processCommit chunk aigRe fixRe inc exc)) in
  inInt64 (AddedLines cs) /\ inInt64 (DeletedLines cs)
  /\ (cs = zeroCommitStats
      \/ (exists message, AIGRatio cs = MainGo.extractAIGRatio aigRe message)
         /\ IsFix cs = MatchString fixRe (firstLineOf chunk)).
Proof.
  cbv zeta. unfold MainGo.processCommit, firstLineOf.
  destruct (strings_Split LF chunk) as [|firstLine rest];
    [cbn [fst]; split; [apply inInt64_zero|split; [apply inInt64_zero|left; reflexivity]]|].
  destruct (length (strings_SplitN " " 5 firstLine) <? 5)%nat;
    [cbn [fst]; split; [apply inInt64_zero|split; [apply inInt64_zero|left; reflexivity]]|].
  destruct (MainGo.scanMessage 1 (skipn 1 (firstLine :: rest))
              [nth 4 (strings_SplitN " " 5 firstLine) ""]) as [messageLines idx].
  cbn [fst hd].
  match goal with
  | |- context [fold_left ?f ?l ?st] =>
      destruct (fold_addChange_keeps inc exc l st inInt64_zero inInt64_zero)
        as (R & F & A & D)
  end.
  split; [exact A|]. split; [exact D|]. right. split.
  - eexists. rewrite R. reflexivity.
  - rewrite F. reflexivity.
Qed.

(** X6. Whatever the chunk, the line counts that [processCommit] returns are
    [int]s and the ratio is a finite float64 that is not negative; and when
    the ratio is at most 1 and the count of added (deleted) lines is between
    0 and [2^53], the AI share derived from them is at most that count. *)
Theorem processCommit_ai_share (chunk : string) :
  inInt64 (AddedLines (statsOf chunk)) /\ inInt64 (DeletedLines (statsOf chunk))
  /\ valid_binary prec64 emax64 (AIGRatio (statsOf chunk)) = true
  /\ isFinite (AIGRatio (statsOf chunk)) = true
  /\ f64_lt (AIGRatio (statsOf chunk)) f64_zero = false
  /\ (f64_le (AIGRatio (statsOf chunk)) f64_one = true ->
      (0 <= AddedLines (statsOf chunk) <= 2 ^ 53 ->
       aiLines (AddedLines (statsOf chunk)) (AIGRatio (statsOf chunk))
       <= AddedLines (statsOf chunk))
      /\ (0 <= DeletedLines (statsOf chunk) <= 2 ^ 53 ->
          aiLines (DeletedLines (statsOf chunk)) (AIGRatio (statsOf chunk))
          <= DeletedLines (statsOf chunk))).
Proof.
  pose proof (processCommit_fields chunk MainGo.aigPattern MainGo.fixPattern
                includeExts excludeExts) as P.
  cbv zeta in P. fold (statsOf chunk) in P.
  destruct P as (A & D & C).
  assert (R : valid_binary prec64 emax64 (AIGRatio (statsOf chunk)) = true
              /\ isFinite (AIGRatio (statsOf chunk)) = true
              /\ f64_lt (AIGRatio (statsOf chunk)) f64_zero = false).
  { destruct C as [-> | [[message ->] _]].
    - repeat split; reflexivity.
    - unfold MainGo.extractAIGRatio.
      destruct (2 <? List.length (FindStringSubmatch MainGo.aigPattern message))%nat;
        [apply checkedRatio_ok|repeat split; reflexivity]. }
  destruct R as (V & Fi & Nn).
  repeat (split; [assumption|]).
  intros L. split; intros B; apply aiLines_le; assumption.
Qed.

(** X7. A numstat line of a binary file, or a line with fewer than three
    fields, moves no line count. *)
Theorem addChange_marker_or_short (stats : CommitStats) (line : string) :
  inInt64 (AddedLines stats) -> inInt64 (DeletedLines stats) ->
  (length (strings_Fields line) < 3)%nat
  \/ (exists name rest, strings_Fields line = "-" :: "-" :: name :: rest) ->
  MainGo.addChange includeExts excludeExts stats line = stats.
Proof.
  intros A D H. unfold MainGo.addChange.
  destruct (String.eqb line ""); [reflexivity|].
  unfold MainGo.parseFileChange.
  destruct H as [H | (name & rest & ->)].
  - destruct (strings_Fields line) as [|p0 [|p1 [|p2 r]]]; cbn in H; try lia;
      reflexivity.
  - change (strconv_Atoi "-") with (0, true). cbn [fst].
    match goal with
    | |- (if negb ?b then _ else _) = _ => destruct b
    end; cbn [negb]; [|reflexivity].
    rewrite !Z.add_0_r, !wrap64_id by assumption.
    destruct stats; reflexivity.
Qed.

Lemma addChange_marker_or_short_witness :
  MainGo.addChange includeExts excludeExts zeroCommitStats
    ("-" +:+ TAB +:+ "-" +:+ TAB +:+ "logo.go")
  = zeroCommitStats.
Proof.
  apply addChange_marker_or_short.
  - vm_compute. split; discriminate.
  - vm_compute. split; discriminate.
  - right. exists "logo.go", []. vm_compute. reflexivity.
Defined.

(* ===================================================================== *)
(** * File names of numstat lines *)
(* ===================================================================== *)

Lemma noSpace_append (a b : string) :
  noSpace a = true -> noSpace b = true -> noSpace (a ++ b) = true.
Proof.
  intros A B. induction a as [|c a IH]; [exact B|].
  change (String c a ++ b) with (String c (a ++ b)).
  cbn [noSpace] in *. apply andb_prop in A. destruct A as [A1 A2].
  rewrite A1, (IH A2). reflexivity.
Qed.

Lemma spaceWidth_zero (a : ascii) (s : string) :
  spaceWidth (String a s) = 0%nat -> isAsciiSpace a = false.
Proof.
  unfold spaceWidth. destruct (isAsciiSpace a); [discriminate|reflexivity].
Qed.

Lemma fieldPieces_noSpace (s : string) (skip : nat) :
  Forall (fun p => noSpace p = true) (fieldPieces skip s).
Proof.
  revert skip. induction s as [|a s IH]; intros skip.
  - destruct skip; repeat constructor.
  - cbn [fieldPieces]. destruct skip as [|k].
    + destruct (spaceWidth (String a s)) as [|k] eqn:W.
      * apply spaceWidth_zero in W. specialize (IH 0%nat).
        destruct (fieldPieces 0 s) as [|p ps]; cbn [consHead].
        -- repeat constructor. cbn [noSpace]. rewrite W. reflexivity.
        -- inversion IH as [|? ? Hp Hps]; subst. constructor; [|exact Hps].
           cbn [noSpace]. rewrite W, Hp. reflexivity.
      * constructor; [reflexivity|apply IH].
    + constructor; [reflexivity|apply IH].
Qed.

Lemma strings_Fields_noSpace (s : string) :
  Forall (fun p => noSpace p = true) (strings_Fields s).
Proof.
  unfold strings_Fields. apply List.Forall_forall. intros p H.
  apply filter_In in H. destruct H as [H _].
  pose proof (fieldPieces_noSpace s 0) as F.
  rewrite List.Forall_forall in F. apply F. exact H.
Qed.

Lemma strings_Join_noSpace (ps : list string) :
  Forall (fun p => noSpace p = true) ps -> noSpace (strings_Join ps "") = true.
Proof.
  induction ps as [|p ps IH]; intros F; [reflexivity|].
  inversion F as [|? ? Hp Hps]; subst.
  destruct ps as [|q ps]; [exact Hp|].
  change (strings_Join (p :: q :: ps) "")
    with (p ++ "" ++ strings_Join (q :: ps) "").
  apply noSpace_append; [exact Hp|]. apply noSpace_append; [reflexivity|].
  apply IH. exact Hps.
Qed.

(** X8. The file name that [parseFileChange] returns holds no white space:
    a path with spaces is judged, and its extension taken, with the spaces
    left out. *)
Theorem parseFileChange_name_no_space (change : string) :
  noSpace (snd (MainGo.parseFileChange change)) = true.
Proof.
  unfold MainGo.parseFileChange.
  pose proof (strings_Fields_noSpace change) as F.
  destruct (strings_Fields change) as [|p0 [|p1 [|p2 rest]]]; try reflexivity.
  cbn [snd]. inversion F as [|? ? _ F1]; subst. inversion F1 as [|? ? _ F2]; subst.
  destruct rest as [|r rest].
  - inversion F2; subst. assumption.
  - apply strings_Join_noSpace. exact F2.
Qed.

(* ===================================================================== *)
(** * The commit splitter on well-formed chunks *)
(* ===================================================================== *)

Lemma strings_Split_line (l r : string) :
  hasLF l = false ->
  strings_Split LF (l +:+ String LF r) = l :: strings_Split LF r.
Proof.
  induction l as [|a l IH]; intros H.
  - change ("" +:+ String LF r) with (String LF r). cbn [strings_Split].
    rewrite Ascii.eqb_refl. reflexivity.
  - cbn [hasLF] in H. apply orb_false_iff in H. destruct H as [Ha Hl].
    change (String a l +:+ String LF r) with (String a (l +:+ String LF r)).
    cbn [strings_Split]. rewrite Ha, (IH Hl). reflexivity.
Qed.

Lemma strings_Split_last (l : string) :
  hasLF l = false -> strings_Split LF l = [l].
Proof.
  induction l as [|a l IH]; intros H; [reflexivity|].
  cbn [hasLF] in H. apply orb_false_iff in H. destruct H as [Ha Hl].
  cbn [strings_Split]. rewrite Ha, (IH Hl). reflexivity.
Qed.

(** Splitting the join of lines without line feeds gives the lines back. *)
Lemma strings_Split_Join (lines : list string) :
  lines <> [] -> Forall (fun l => hasLF l = false) lines ->
  strings_Split LF (strings_Join lines newline) = lines.
Proof.
  induction lines as [|a lines IH]; intros N F; [congruence|].
  inversion F as [|? ? Fa Fl]; subst.
  destruct lines as [|b lines].
  - apply strings_Split_last. exact Fa.
  - rewrite strings_Join_cons. unfold newline at 1.
    change (String LF "" +:+ strings_Join (b :: lines) newline)
      with (String LF (strings_Join (b :: lines) newline)).
    rewrite strings_Split_line by exact Fa.
    rewrite IH; [reflexivity|discriminate|exact Fl].
Qed.

Lemma strings_Join_app (l1 l2 : list string) (sep : string) :
  l1 <> [] -> l2 <> [] ->
  strings_Join (l1 ++ l2)%list sep
  = strings_Join l1 sep +:+ sep +:+ strings_Join l2 sep.
Proof.
  induction l1 as [|a l1 IH]; intros N1 N2; [congruence|].
  destruct l1 as [|b l1].
  - destruct l2 as [|c l2]; [congruence|]. reflexivity.
  - change ((a :: b :: l1) ++ l2)%list with (a :: (b :: l1) ++ l2)%list.
    change ((b :: l1) ++ l2)%list with (b :: (l1 ++ l2))%list.
    rewrite strings_Join_cons.
    change (b :: (l1 ++ l2))%list with ((b :: l1) ++ l2)%list.
    rewrite IH by (discriminate || exact N2).
    rewrite strings_Join_cons. rewrite !append_assoc3. reflexivity.
Qed.

(** The text that the chunks make is the join of all their lines. *)
Lemma chunkText_concat (chunks : list (list string)) :
  Forall (fun ls => ls <> []) chunks ->
  strings_Join (List.map chunkText chunks) newline
  = strings_Join (List.concat chunks) newline.
Proof.
  induction chunks as [|c chunks IH]; intros F; [reflexivity|].
  inversion F as [|? ? Fc Fr]; subst.
  destruct chunks as [|c2 chunks].
  - cbn [List.map List.concat strings_Join]. rewrite app_nil_r. reflexivity.
  - change (List.map chunkText (c :: c2 :: chunks))
      with (chunkText c :: List.map chunkText (c2 :: chunks)).
    change (List.map chunkText (c2 :: chunks))
      with (chunkText c2 :: List.map chunkText chunks).
    rewrite strings_Join_cons.
    change (chunkText c2 :: List.map chunkText chunks)
      with (List.map chunkText (c2 :: chunks)).
    rewrite IH by exact Fr.
    change (List.concat (c :: c2 :: chunks))
      with (c ++ List.concat (c2 :: chunks))%list.
    rewrite strings_Join_app; [reflexivity|exact Fc|].
    inversion Fr as [|? ? Fc2 _]; subst.
    cbn [List.concat]. destruct c2; [congruence|discriminate].
Qed.

Lemma startsChunk_nonEmpty (l : string) : startsChunk l = true -> nonEmpty l = true.
Proof. destruct l; [discriminate|reflexivity]. Qed.

(** The loop over body lines, whatever chunks are closed already. *)
Lemma fold_splitStep_body (lines : list string) :
  forall commits cur,
    Forall bodyLine lines -> nonEmpty cur = true ->
    fold_left MainGo.splitStep lines (commits, cur)
    = (commits, strings_Join (cur :: lines) newline).
Proof.
  induction lines as [|l lines IH]; intros commits cur F N; [reflexivity|].
  inversion F as [|? ? (Nl & _ & Pl) Fr]; subst.
  cbn [fold_left]. rewrite splitStep_plain by assumption. rewrite N.
  rewrite IH; [|exact Fr|apply nonEmpty_append_r; exact Nl].
  f_equal. destruct lines as [|b rest].
  - cbn [strings_Join]. apply append_assoc3.
  - rewrite !strings_Join_cons. rewrite !append_assoc3. reflexivity.
Qed.

(** The loop over the lines of one chunk closes the chunk before it. *)
Lemma fold_splitStep_chunk (ls : list string) (st : list string * string) :
  chunkLines ls ->
  fold_left MainGo.splitStep ls st = (flushChunk st, chunkText ls).
Proof.
  destruct ls as [|h t]; [intros []|]. intros (S & L & F).
  destruct st as [commits cur]. cbn [fold_left].
  assert (E : MainGo.splitStep (commits, cur) h = (flushChunk (commits, cur), h)).
  { unfold MainGo.splitStep, flushChunk. cbn [fst snd].
    rewrite eqb_empty_nonEmpty, (startsChunk_nonEmpty h S). cbn [negb].
    unfold startsChunk in S.
    destruct (strings_Fields h) as [|s0 fs]; [discriminate S|].
    rewrite S. cbn [andb]. destruct (nonEmpty cur) eqn:N; [reflexivity|].
    destruct cur; [reflexivity|discriminate N]. }
  rewrite E. apply fold_splitStep_body; [exact F|].
  apply startsChunk_nonEmpty. exact S.
Qed.

Lemma chunkText_nonEmpty (ls : list string) :
  chunkLines ls -> nonEmpty (chunkText ls) = true.
Proof.
  destruct ls as [|h t]; [intros []|]. intros (S & _ & _).
  apply strings_Join_nonEmpty. apply startsChunk_nonEmpty. exact S.
Qed.

Lemma fold_splitStep_chunks (chunks : list (list string)) :
  forall st,
    Forall chunkLines chunks ->
    flushChunk (fold_left MainGo.splitStep (List.concat chunks) st)
    = (flushChunk st ++ List.map chunkText chunks)%list.
Proof.
  induction chunks as [|c chunks IH]; intros st F.
  - cbn. rewrite app_nil_r. reflexivity.
  - inversion F as [|? ? Fc Fr]; subst.
    cbn [List.concat List.map]. rewrite fold_left_app.
    rewrite (fold_splitStep_chunk c st Fc). rewrite IH by exact Fr.
    unfold flushChunk at 1. cbn [fst snd].
    rewrite (chunkText_nonEmpty c Fc). rewrite <- app_assoc. reflexivity.
Qed.

Lemma splitCommits_flush (output : string) :
  MainGo.splitCommits output
  = flushChunk (fold_left MainGo.splitStep (strings_Split LF output) ([], "")).
Proof.
  unfold MainGo.splitCommits, flushChunk.
  destruct (fold_left MainGo.splitStep (strings_Split LF output) ([], ""))
    as [commits cur].
  reflexivity.
Qed.

Lemma chunkLines_noLF (ls : list string) :
  chunkLines ls -> ls <> [] /\ Forall (fun l => hasLF l = false) ls.
Proof.
  destruct ls as [|h t]; [intros []|]. intros (S & L & F).
  split; [discriminate|]. constructor; [exact L|].
  eapply List.Forall_impl; [|exact F]. intros l (_ & H & _). exact H.
Qed.

(** X9. Splitting the text of well-formed chunks gives the chunks back. *)
Theorem splitCommits_of_chunks (chunks : list (list string)) :
  Forall chunkLines chunks ->
  MainGo.splitCommits (strings_Join (List.map chunkText chunks) newline)
  = List.map chunkText chunks.
Proof.
  intros F. destruct chunks as [|c chunks]; [reflexivity|].
  assert (NE : Forall (fun ls => ls <> []) (c :: chunks)).
  { eapply List.Forall_impl; [|exact F]. intros ls H. apply chunkLines_noLF. exact H. }
  rewrite chunkText_concat by exact NE.
  rewrite splitCommits_flush.
  rewrite strings_Split_Join.
  - rewrite fold_splitStep_chunks by exact F. reflexivity.
  - inversion F as [|? ? Fc _]; subst.
    destruct c; [destruct Fc|discriminate].
  - apply Forall_concat. eapply List.Forall_impl; [|exact F].
    intros ls H. apply chunkLines_noLF. exact H.
Qed.

Lemma splitCommits_of_chunks_witness :
  MainGo.splitCommits
    (strings_Join
       (List.map chunkText
          [[hash40 +:+ " 'Alice' a@b.c 2024-01-01 10:00:00 first";
            "10" +:+ TAB +:+ "2" +:+ TAB +:+ "main.go"];
           [hash40 +:+ " 'Bob' b@b.c 2024-01-02 10:00:00 second"]])
       newline)
  = List.map chunkText
      [[hash40 +:+ " 'Alice' a@b.c 2024-01-01 10:00:00 first";
        "10" +:+ TAB +:+ "2" +:+ TAB +:+ "main.go"];
       [hash40 +:+ " 'Bob' b@b.c 2024-01-02 10:00:00 second"]].
Proof.
  apply splitCommits_of_chunks.
  apply List.Forall_cons; [|apply List.Forall_cons; [|apply List.Forall_nil]].
  - split; [vm_compute; reflexivity|]. split; [vm_compute; reflexivity|].
    apply List.Forall_cons; [|apply List.Forall_nil].
    split; [vm_compute; reflexivity|]. split; vm_compute; reflexivity.
  - split; [vm_compute; reflexivity|]. split; [vm_compute; reflexivity|].
    apply List.Forall_nil.
Defined.

(* ===================================================================== *)
(** * The default window, month by month *)
(* ===================================================================== *)

Lemma pairEqb_eq (a b : string * string) : pairEqb a b = true -> a = b.
Proof.
  destruct a as [a1 a2], b as [b1 b2]. unfold pairEqb. cbn [fst snd].
  intros H. apply andb_prop in H. destruct H as [H1 H2].
  apply String.eqb_eq in H1, H2. congruence.
Qed.

(** The window depends on the day only through the half of the month. *)
Lemma getDefaultDateRange_half (year month day : Z) :
  MainGo.getDefaultDateRange (Civil year month day) "" ""
  = MainGo.getDefaultDateRange (Civil year month (if day <=? 15 then 15 else 16)) "" "".
Proof.
  unfold MainGo.getDefaultDateRange. cbn [nonEmpty andb cYear cMonth cDay].
  destruct (day <=? 15); reflexivity.
Qed.

Lemma expectedWindow_half (year month day : Z) :
  expectedWindow year month day
  = expectedWindow year month (if day <=? 15 then 15 else 16).
Proof. unfold expectedWindow. destruct (day <=? 15); reflexivity. Qed.

Lemma checkRange_spec (f : Z -> bool) (first : Z) (count : nat) :
  checkRange f first count = true ->
  forall z, first <= z < first + Z.of_nat count -> f z = true.
Proof.
  unfold checkRange. intros C z Hz. rewrite forallb_forall in C.
  specialize (C (Z.to_nat (z - first))).
  rewrite Z2Nat.id in C by lia.
  replace (first + (z - first)) with z in C by lia.
  apply C. apply in_seq. lia.
Qed.

Lemma years_checked :
  checkRange (fun year => checkRange (windowOK year) 1 12) 1900 400 = true.
Proof. vm_compute. reflexivity. Qed.

Lemma windowOK_checked (year month : Z) :
  1900 <= year <= 2299 -> 1 <= month <= 12 -> windowOK year month = true.
Proof.
  intros Y M.
  assert (C : checkRange (windowOK year) 1 12 = true).
  { apply (checkRange_spec _ 1900 400 years_checked year).
    change (Z.of_nat 400) with 400. lia. }
  apply (checkRange_spec (windowOK year) 1 12 C).
  change (Z.of_nat 12) with 12. lia.
Qed.

Lemma windowOK_spec (year month : Z) :
  windowOK year month = true ->
  MainGo.getDefaultDateRange (Civil year month 15) "" "" = expectedWindow year month 15
  /\ MainGo.getDefaultDateRange (Civil year month 16) "" "" = expectedWindow year month 16.
Proof.
  unfold windowOK. intros W. apply andb_prop in W. destruct W as [C1 C2].
  split; apply pairEqb_eq; assumption.
Qed.


Lemma time_Date_dayNumber (year month day : Z) :
  time_Date year month day = civilFromDays (dayNumber year month day).
Proof. reflexivity. Qed.

Section ConstantOffset.
Variable loc : location.
Variable offset : Z.
Hypothesis fixed : constantOffset loc offset.

Lemma Zoned_time_Date_midnight (year month day : Z) :
  Zoned.time_Date year month day 0 0 0 loc
  = dayNumber year month day * 86400 - offset.
Proof.
  unfold Zoned.time_Date. cbv zeta.
  change (0 / 60) with 0. change (0 mod 60) with 0.
  change (0 + 0) with 0. change (0 / 60) with 0. change (0 mod 60) with 0.
  change (0 / 24) with 0. change (0 mod 24) with 0.
  change (0 * 3600 + 0 * 60 + 0) with 0.
  rewrite !Z.add_0_r. fold (dayNumber year month day).
  rewrite !fixed.
  destruct (offset =? 0) eqn:E; [apply Z.eqb_eq in E; lia|].
  destruct (_ || _); reflexivity.
Qed.

Lemma Zoned_localSec_midnight (d : Z) :
  Zoned.localSec loc (d * 86400 - offset) = d * 86400.
Proof. unfold Zoned.localSec. rewrite fixed. lia. Qed.

Lemma Zoned_Date_midnight (d : Z) :
  Zoned.Date loc (d * 86400 - offset) = civilFromDays d.
Proof.
  unfold Zoned.Date. rewrite Zoned_localSec_midnight.
  rewrite Z.div_mul by discriminate. reflexivity.
Qed.

Lemma Zoned_Clock_midnight (d : Z) :
  Zoned.Clock loc (d * 86400 - offset) = (0, 0, 0).
Proof.
  unfold Zoned.Clock. rewrite Zoned_localSec_midnight.
  rewrite Z.mod_mul by discriminate. reflexivity.
Qed.

Lemma Zoned_AddDate_midnight (d years months days : Z) :
  Zoned.AddDate loc (d * 86400 - offset) years months days
  = dayNumber (cYear (civilFromDays d) + years)
      (cMonth (civilFromDays d) + months) (cDay (civilFromDays d) + days)
    * 86400 - offset.
Proof.
  unfold Zoned.AddDate. rewrite Zoned_Clock_midnight, Zoned_Date_midnight.
  apply Zoned_time_Date_midnight.
Qed.

Lemma Zoned_Format_midnight (d : Z) :
  Zoned.Format loc (d * 86400 - offset) = Format (civilFromDays d).
Proof. unfold Zoned.Format. rewrite Zoned_Date_midnight. reflexivity. Qed.

(** In a location whose offset never changes the window is the one of the
    dates alone. *)
Lemma getDefaultDateRange_constant_offset (now : civil) (since until : string) :
  Zoned.getDefaultDateRange loc now since until
  = MainGo.getDefaultDateRange now since until.
Proof.
  unfold Zoned.getDefaultDateRange, MainGo.getDefaultDateRange.
  destruct (nonEmpty since && nonEmpty until); [reflexivity|].
  cbv zeta. unfold AddDate. rewrite !time_Date_dayNumber.
  destruct (cDay now <=? 15); cbv beta iota.
  - rewrite !Zoned_time_Date_midnight, !Zoned_AddDate_midnight,
      !Zoned_Date_midnight, !Zoned_Format_midnight.
    f_equal.
  - rewrite !Zoned_time_Date_midnight, !Zoned_Format_midnight. f_equal.
Qed.

End ConstantOffset.

(** In every location the two dates are returned when both are supplied,
    and the window does not depend on them otherwise. *)
Lemma Zoned_getDefaultDateRange_supplied_or_default
    (loc : location) (now : civil) (since until : string) :
  Zoned.getDefaultDateRange loc now since until
  = if nonEmpty since && nonEmpty until then (since, until)
    else Zoned.getDefaultDateRange loc now "" "".
Proof.
  unfold Zoned.getDefaultDateRange.
  destruct (nonEmpty since && nonEmpty until); reflexivity.
Qed.

Lemma fixedZone_constantOffset (offset : Z) :
  constantOffset (fixedZone offset) offset.
Proof. intros t. reflexivity. Qed.

(** X10. In a location whose offset never changes ([time.UTC], a fixed
    zone), for every current date of the years 1900 to 2299 the default
    window is the one the comments describe. *)
Theorem getDefaultDateRange_window
    (loc : location) (offset year month day : Z) :
  constantOffset loc offset ->
  1900 <= year <= 2299 -> 1 <= month <= 12 ->
  Zoned.getDefaultDateRange loc (Civil year month day) "" ""
  = expectedWindow year month day.
Proof.
  intros F Y M.
  rewrite (getDefaultDateRange_constant_offset loc offset F).
  destruct (windowOK_spec year month (windowOK_checked year month Y M)) as [C1 C2].
  rewrite getDefaultDateRange_half, expectedWindow_half.
  destruct (day <=? 15); assumption.
Qed.

Lemma getDefaultDateRange_window_witness :
  Zoned.getDefaultDateRange (fixedZone 28800) (Civil 2024 3 10) "" ""
  = expectedWindow 2024 3 10.
Proof.
  apply (getDefaultDateRange_window (fixedZone 28800) 28800).
  - apply fixedZone_constantOffset.
  - lia.
  - lia.
Defined.

(** Where the clocks skip the midnight of the first of the month, the
    window is not the one the comments describe.  In a location four hours
    west of UTC that moves its clocks forward by an hour at 00:00 of
    2017-10-01 (as America/Asuncion did), [time.Date] gives for that
    midnight 23:00 of 2017-09-30; on 2017-10-10 the month before is then
    taken to be August. *)
Lemma getDefaultDateRange_skipped_midnight :
  Zoned.getDefaultDateRange (oneTransition (-14400) (-10800) 1506830400)
    (Civil 2017 10 10) "" ""
  = ("2017-08-16", "2017-08-31")
  /\ expectedWindow 2017 10 10 = ("2017-09-16", "2017-09-30").
Proof. split; vm_compute; reflexivity. Qed.

(* ===================================================================== *)
(** * The command line *)
(* ===================================================================== *)

Lemma time_Parse_nonEmpty (value : string) :
  time_Parse value <> None -> nonEmpty value = true.
Proof. destruct value; [intros H; destruct H; reflexivity | reflexivity]. Qed.

Lemma is_Some_b_false {A : Type} (o : option A) :
  negb (is_Some_b o) = true <-> o = None.
Proof. destruct o; simpl; split; intros; congruence. Qed.

Lemma is_Some_b_true {A : Type} (o : option A) :
  negb (is_Some_b o) = false <-> o <> None.
Proof. destruct o; simpl; split; intros; congruence. Qed.

(** X11. An error is returned exactly when a supplied date is not of the
    layout, and then no date is returned. *)
Theorem parseCommandLineArgs_error (now : civil) (args : list string) :
  (snd (MainGo.parseCommandLineArgs now args) = None
   <-> dateArgOK args 1 /\ dateArgOK args 2)
  /\ (snd (MainGo.parseCommandLineArgs now args) <> None ->
      fst (MainGo.parseCommandLineArgs now args) = ("", "")).
Proof.
  unfold dateArgOK, MainGo.parseCommandLineArgs.
  destruct args as [|prog [|since [|until rest]]];
    cbn [length Nat.ltb Nat.leb andb nth nth_error].
  - destruct (MainGo.getDefaultDateRange now "" ""). cbn [snd fst].
    split; [split; [intros _; split; intros arg H; discriminate|reflexivity]|congruence].
  - destruct (MainGo.getDefaultDateRange now "" ""). cbn [snd fst].
    split; [split; [intros _; split; intros arg H; discriminate|reflexivity]|congruence].
  - destruct (time_Parse since) as [d|] eqn:P; cbn [is_Some_b negb].
    + destruct (MainGo.getDefaultDateRange now since ""). cbn [snd fst].
      split; [split; [|reflexivity]|congruence].
      intros _. split; intros arg H; [congruence|discriminate].
    + cbn [snd fst]. split; [split; [discriminate|]|reflexivity].
      intros [H _]. destruct (H since eq_refl). exact P.
  - destruct (time_Parse since) as [d|] eqn:P; cbn [is_Some_b negb].
    + destruct (time_Parse until) as [d'|] eqn:Q; cbn [is_Some_b negb].
      * destruct (MainGo.getDefaultDateRange now since until). cbn [snd fst].
        split; [split; [|reflexivity]|congruence].
        intros _. split; intros arg H; congruence.
      * cbn [snd fst]. split; [split; [discriminate|]|reflexivity].
        intros [_ H]. destruct (H until eq_refl). exact Q.
    + cbn [snd fst]. split; [split; [discriminate|]|reflexivity].
      intros [H _]. destruct (H since eq_refl). exact P.
Qed.

(** X12. Two dates of the layout are returned as they were given. *)
Theorem parseCommandLineArgs_two_dates
    (now : civil) (prog since until : string) (rest : list string) :
  time_Parse since <> None -> time_Parse until <> None ->
  MainGo.parseCommandLineArgs now (prog :: since :: until :: rest)
  = (since, until, None).
Proof.
  intros P Q. unfold MainGo.parseCommandLineArgs.
  cbn [length Nat.ltb Nat.leb andb nth].
  rewrite (proj2 (is_Some_b_true _) P), (proj2 (is_Some_b_true _) Q).
  rewrite getDefaultDateRange_unfold.
  rewrite (time_Parse_nonEmpty _ P), (time_Parse_nonEmpty _ Q). reflexivity.
Qed.

Lemma parseCommandLineArgs_two_dates_witness :
  MainGo.parseCommandLineArgs (Civil 2024 3 10) ["stat"; "2024-02-01"; "2024-02-29"]
  = ("2024-02-01", "2024-02-29", None).
Proof. apply parseCommandLineArgs_two_dates; vm_compute; discriminate. Defined.

(** X13. A single date is checked and then dropped: the result is the one of
    a run without arguments. *)
Theorem parseCommandLineArgs_single_date_dropped
    (now : civil) (prog since : string) :
  time_Parse since <> None ->
  MainGo.parseCommandLineArgs now [prog; since]
  = MainGo.parseCommandLineArgs now [prog].
Proof.
  intros P. unfold MainGo.parseCommandLineArgs.
  cbn [length Nat.ltb Nat.leb andb nth].
  rewrite (proj2 (is_Some_b_true _) P).
  rewrite !getDefaultDateRange_unfold.
  rewrite (time_Parse_nonEmpty _ P). reflexivity.
Qed.

Lemma parseCommandLineArgs_single_date_dropped_witness :
  MainGo.parseCommandLineArgs (Civil 2024 3 10) ["stat"; "2020-01-01"]
  = MainGo.parseCommandLineArgs (Civil 2024 3 10) ["stat"].
Proof. apply parseCommandLineArgs_single_date_dropped; vm_compute; discriminate. Defined.

(** X14. The variant with an author argument hands that argument through
    without a check and treats the rest as the variant without it does. *)
Theorem parseCommandLineArgs_author_passed
    (now : civil) (prog author : string) (rest : list string) :
  Part000.parseCommandLineArgs now (prog :: author :: rest)
  = match MainGo.parseCommandLineArgs now (prog :: rest) with
    | (since, until, None) => (author, since, until, None)
    | (_, _, Some e) => ("", "", "", Some e)
    end.
Proof.
  unfold Part000.parseCommandLineArgs, MainGo.parseCommandLineArgs.
  change Part000.getDefaultDateRange with MainGo.getDefaultDateRange.
  destruct rest as [|since [|until rest]];
    cbn [length Nat.ltb Nat.leb andb nth].
  - destruct (MainGo.getDefaultDateRange now "" ""). reflexivity.
  - destruct (negb (is_Some_b (time_Parse since))); [reflexivity|].
    destruct (MainGo.getDefaultDateRange now since ""). reflexivity.
  - destruct (negb (is_Some_b (time_Parse since))); [reflexivity|].
    destruct (negb (is_Some_b (time_Parse until))); [reflexivity|].
    destruct (MainGo.getDefaultDateRange now since until). reflexivity.
Qed.

(* ===================================================================== *)
(** * Dates written and read back *)
(* ===================================================================== *)

Lemma fourDigits_spec (x : Z) :
  fourDigits x = true ->
  exists a b c d,
    appendInt x 4 = String a (String b (String c (String d "")))
    /\ isDigit a = true /\ isDigit b = true /\ isDigit c = true
    /\ isDigit d = true
    /\ ((digitVal a * 10 + digitVal b) * 10 + digitVal c) * 10 + digitVal d = x.
Proof.
  unfold fourDigits. destruct (appendInt x 4) as [|a [|b [|c [|d [|e s]]]]];
    try discriminate.
  intros H. rewrite !andb_true_iff, Z.eqb_eq in H.
  destruct H as [[[[A B] C] D] V].
  exists a, b, c, d. repeat apply conj; try assumption; reflexivity.
Qed.

Lemma twoDigits_spec (x : Z) :
  twoDigits x = true ->
  exists a b,
    appendInt x 2 = String a (String b "")
    /\ isDigit a = true /\ isDigit b = true
    /\ digitVal a * 10 + digitVal b = x.
Proof.
  unfold twoDigits. destruct (appendInt x 2) as [|a [|b [|e s]]];
    try discriminate.
  intros H. rewrite !andb_true_iff, Z.eqb_eq in H.
  destruct H as [[A B] V].
  exists a, b. repeat apply conj; try assumption; reflexivity.
Qed.

Lemma fourDigits_checked : checkRange fourDigits 0 (100 * 100) = true.
Proof. vm_compute. reflexivity. Qed.

Lemma twoDigits_checked : checkRange twoDigits 1 31 = true.
Proof. vm_compute. reflexivity. Qed.

Lemma daysIn_bounds (month year : Z) : 28 <= daysIn month year <= 31.
Proof.
  unfold daysIn. destruct (month =? 2); [destruct (isLeap year); lia|].
  destruct ((month =? 4) || (month =? 6) || (month =? 9) || (month =? 11)); lia.
Qed.

(** A date that [Format] has written is read back by [time.Parse]. *)
Lemma time_Parse_Format (year month day : Z) :
  0 <= year <= 9999 -> 1 <= month <= 12 -> 1 <= day <= daysIn month year ->
  time_Parse (Format (Civil year month day)) = Some (Civil year month day).
Proof.
  intros Y M D. pose proof (daysIn_bounds month year) as B.
  destruct (fourDigits_spec year) as (y1 & y2 & y3 & y4 & Ey & Y1 & Y2 & Y3 & Y4 & Vy).
  { apply (checkRange_spec fourDigits 0 (100 * 100) fourDigits_checked).
    change (Z.of_nat (100 * 100)) with 10000. lia. }
  destruct (twoDigits_spec month) as (m1 & m2 & Em & M1 & M2 & Vm).
  { apply (checkRange_spec twoDigits 1 31 twoDigits_checked).
    change (Z.of_nat 31) with 31. lia. }
  destruct (twoDigits_spec day) as (d1 & d2 & Ed & D1 & D2 & Vd).
  { apply (checkRange_spec twoDigits 1 31 twoDigits_checked).
    change (Z.of_nat 31) with 31. lia. }
  unfold Format. cbn [cYear cMonth cDay]. rewrite Ey, Em, Ed.
  change (time_Parse
            (String y1 (String y2 (String y3 (String y4 (String "-"
              (String m1 (String m2 (String "-" (String d1 (String d2 ""))))))))))
          = Some (Civil year month day)).
  unfold time_Parse. rewrite Y1, Y2, Y3, Y4, M1, M2, D1, D2.
  cbn [andb Ascii.eqb Bool.eqb]. rewrite Vy, Vm, Vd.
  replace ((1 <=? month) && (month <=? 12) && (1 <=? day)
           && (day <=? daysIn month year)) with true; [reflexivity|].
  symmetry. rewrite !andb_true_iff, !Z.leb_le. lia.
Qed.

Lemma expectedWindow_parses (year month day : Z) :
  1900 <= year <= 2299 -> 1 <= month <= 12 ->
  time_Parse (fst (expectedWindow year month day)) <> None
  /\ time_Parse (snd (expectedWindow year month day)) <> None.
Proof.
  intros Y M. unfold expectedWindow.
  destruct (day <=? 15); cbn [fst snd].
  - set (py := if month =? 1 then year - 1 else year).
    set (pm := if month =? 1 then 12 else month - 1).
    assert (0 <= py <= 9999) by (subst py; destruct (month =? 1); lia).
    assert (1 <= pm <= 12).
    { subst pm. destruct (month =? 1) eqn:E; [lia|]. apply Z.eqb_neq in E. lia. }
    pose proof (daysIn_bounds pm py).
    rewrite !time_Parse_Format by lia. split; discriminate.
  - pose proof (daysIn_bounds month year).
    rewrite !time_Parse_Format by lia. split; discriminate.
Qed.

(** X15. The default window, given back to the program as its two date
    arguments, is accepted and returned as it is: the result is the one of
    a run without arguments. *)
Theorem parseCommandLineArgs_default_window (now : civil) (prog : string) :
  1900 <= cYear now <= 2299 -> 1 <= cMonth now <= 12 ->
  MainGo.parseCommandLineArgs now
    [prog; fst (MainGo.getDefaultDateRange now "" "");
           snd (MainGo.getDefaultDateRange now "" "")]
  = MainGo.parseCommandLineArgs now [prog].
Proof.
  intros Y M. destruct now as [year month day]. cbn [cYear cMonth] in Y, M.
  destruct (expectedWindow_parses year month day Y M) as [P Q].
  assert (W : MainGo.getDefaultDateRange (Civil year month day) "" ""
              = expectedWindow year month day).
  { destruct (windowOK_spec year month (windowOK_checked year month Y M)) as [C1 C2].
    rewrite getDefaultDateRange_half, expectedWindow_half.
    destruct (day <=? 15); assumption. }
  rewrite <- W in P, Q.
  destruct (MainGo.getDefaultDateRange (Civil year month day) "" "")
    as [since until] eqn:E.
  cbn [fst snd] in *.
  unfold MainGo.parseCommandLineArgs.
  cbn [length Nat.ltb Nat.leb andb nth].
  rewrite (proj2 (is_Some_b_true _) P), (proj2 (is_Some_b_true _) Q).
  rewrite getDefaultDateRange_unfold.
  rewrite (time_Parse_nonEmpty _ P), (time_Parse_nonEmpty _ Q).
  rewrite E. reflexivity.
Qed.

Lemma parseCommandLineArgs_default_window_witness :
  MainGo.parseCommandLineArgs (Civil 2024 3 10)
    ["stat"; fst (MainGo.getDefaultDateRange (Civil 2024 3 10) "" "");
             snd (MainGo.getDefaultDateRange (Civil 2024 3 10) "" "")]
  = MainGo.parseCommandLineArgs (Civil 2024 3 10) ["stat"].
Proof.
  apply (parseCommandLineArgs_default_window (Civil 2024 3 10) "stat");
    cbn [cYear cMonth]; lia.
Defined.
